(** * LLM Council: the orchestration core of [backend/council.py] and
      [backend/openrouter.py], embedded in Rocq.

    The development follows the Python source function by function.

    - Python [str] values are sequences of Unicode code points: [pystr] is
      [list N].  Literals are written as UTF-8 Rocq strings and decoded by
      [PyStr.str].
    - [str.split], the [in] operator, [str.strip] and slicing are modelled
      in [PyStr]; the three uses of the [re] module ([re.findall] with the
      two patterns of the ranking parser, and [re.search]) in [Re], with
      the backtracking order of the engine.
    - The character classes [\d] and [\s] and the whitespace of [str.strip]
      come from the Unicode database of the interpreter.  They are the two
      fields of the class [UnicodeDB]; [unicode14] is the table of
      Unicode 14.0.
    - Python dictionaries keep insertion order: [Dict] is an association
      list with unique keys.
    - A finite Python [float] is a rational number; [PyFloat] holds the
      correctly rounded binary64 quotient of two integers and
      [round(x, 2)].
    - Calls to the model gateway are effects.  A computation of type
      [Aio A] threads the trace of the calls made so far and either returns
      a value or raises a Python exception.
    - The message endpoint of [backend/main.py] is a computation of type
      [Endpoint A], over the requests and the storage calls made so far.
      The storage module is the class [Storage]: what each of its calls
      returns, and whether it raises, is left open.  Of
      [backend/storage.py] only the path of a conversation is modelled
      ([StoragePy]). *)

From Stdlib Require Import String Ascii.
From Stdlib Require Import List Bool Arith ZArith NArith QArith Qabs Qround Qpower.
From Stdlib Require Import Lia Lqa.
From Stdlib Require Import Permutation Sorted FinFun.
Import ListNotations.

Set Implicit Arguments.

(** ** Python values *)

(** A character is its code point. *)
Abbreviation char := N (only parsing).
Abbreviation pystr := (list N) (only parsing).

Inductive PyExn :=
| TypeError
| AttributeError.

Inductive result (A : Type) :=
| Ok (a : A)
| Raise (e : PyExn).
Arguments Ok {A} a.
Arguments Raise {A} e.

Definition rbind {A B} (r : result A) (k : A -> result B) : result B :=
  match r with
  | Ok a => k a
  | Raise e => Raise e
  end.

Fixpoint rmap {A B} (f : A -> result B) (l : list A) : result (list B) :=
  match l with
  | [] => Ok []
  | x :: l' => rbind (f x) (fun y => rbind (rmap f l') (fun ys => Ok (y :: ys)))
  end.

(** The Unicode database: [is_decimal] is [\d] of a [str] pattern
    (category Nd), [is_whitespace] is [\s] and the set [str.strip()]
    removes.  On ASCII both are fixed for every version of the database. *)
Class UnicodeDB := {
  is_decimal : char -> bool;
  is_whitespace : char -> bool
}.

Definition ascii_decimal (c : char) : bool := ((48 <=? c) && (c <=? 57))%N.

Definition ascii_whitespace (c : char) : bool :=
  (((9 <=? c) && (c <=? 13)) || ((28 <=? c) && (c <=? 32)))%N.

Definition ascii_compatible (db : UnicodeDB) : Prop :=
  forall c, (c < 128)%N ->
    is_decimal c = ascii_decimal c /\ is_whitespace c = ascii_whitespace c.

Module PyStr.

(** Decoding of a well-formed UTF-8 byte sequence. *)
Fixpoint utf8_decode (bs : list N) : pystr :=
  match bs with
  | [] => []
  | b0 :: r0 =>
    if (b0 <? 128)%N then b0 :: utf8_decode r0
    else
      match r0 with
      | [] => []
      | b1 :: r1 =>
        if (b0 <? 224)%N then
          ((b0 - 192) * 64 + (b1 - 128))%N :: utf8_decode r1
        else
          match r1 with
          | [] => []
          | b2 :: r2 =>
            if (b0 <? 240)%N then
              ((b0 - 224) * 4096 + (b1 - 128) * 64 + (b2 - 128))%N
                :: utf8_decode r2
            else
              match r2 with
              | [] => []
              | b3 :: r3 =>
                ((b0 - 240) * 262144 + (b1 - 128) * 4096
                 + (b2 - 128) * 64 + (b3 - 128))%N :: utf8_decode r3
              end
          end
      end
  end.

Definition str (s : string) : pystr :=
  utf8_decode (map N_of_ascii (list_ascii_of_string s)).
Arguments str s%_string.

Fixpoint eqb (a b : pystr) : bool :=
  match a, b with
  | [], [] => true
  | x :: a', y :: b' => (x =? y)%N && eqb a' b'
  | _, _ => false
  end.

(** [s.startswith(p)] *)
Fixpoint starts_with (p s : pystr) : bool :=
  match p, s with
  | [], _ => true
  | x :: p', y :: s' => (x =? y)%N && starts_with p' s'
  | _ :: _, [] => false
  end.

(** [sub in s] *)
Fixpoint contains (sub s : pystr) : bool :=
  starts_with sub s ||
  match s with
  | [] => false
  | _ :: s' => contains sub s'
  end.

(** [s.find(sub)], [None] for -1 *)
Fixpoint find (sub s : pystr) : option nat :=
  if starts_with sub s then Some 0%nat
  else
    match s with
    | [] => None
    | _ :: s' => option_map S (find sub s')
    end.

(** [s.split(sep)] for a non-empty separator: [cur] is the part being
    read, in reverse, and [skip] counts the characters of a separator
    that was just recognised and are still to be passed over. *)
Fixpoint split_go (sep : pystr) (skip : nat) (cur s : pystr) : list pystr :=
  match s with
  | [] => [rev cur]
  | c :: s' =>
    match skip with
    | S k => split_go sep k cur s'
    | O =>
      if starts_with sep s
      then rev cur :: split_go sep (length sep - 1) [] s'
      else split_go sep 0 (c :: cur) s'
    end
  end.

Definition split (sep s : pystr) : list pystr := split_go sep 0 [] s.

(** [s.lstrip(chars)], [s.rstrip(chars)], [s.strip(chars)] with the set
    of characters given as a predicate. *)
Fixpoint lstrip (p : char -> bool) (s : pystr) : pystr :=
  match s with
  | c :: s' => if p c then lstrip p s' else s
  | [] => []
  end.

Definition rstrip (p : char -> bool) (s : pystr) : pystr :=
  rev (lstrip p (rev s)).

Definition strip (p : char -> bool) (s : pystr) : pystr :=
  rstrip p (lstrip p s).

(** [sep.join(parts)] *)
Fixpoint join (sep : pystr) (parts : list pystr) : pystr :=
  match parts with
  | [] => []
  | [p] => p
  | p :: rest => p ++ sep ++ join sep rest
  end.

End PyStr.

(** ** The regular expressions of the ranking parser *)

Module Re.
Section WithDB.
Context {db : UnicodeDB}.

Definition is_upper (c : char) : bool := ((65 <=? c) && (c <=? 90))%N.

Definition LABEL_PREFIX : pystr := PyStr.str "Response ".

(** A matcher tells whether a pattern matches at the head of the text,
    and how many characters the match takes. *)
Definition matcher := pystr -> option nat.

(** [Response [A-Z]] *)
Definition match_bare : matcher := fun s =>
  if PyStr.starts_with LABEL_PREFIX s then
    match skipn 9 s with
    | c :: _ => if is_upper c then Some 10%nat else None
    | [] => None
    end
  else None.

(** [\s*Response [A-Z]]: the star is greedy, and gives characters back
    one at a time when the rest fails. *)
Fixpoint match_spaces_bare (s : pystr) : option nat :=
  match s with
  | c :: s' =>
    if is_whitespace c then
      match match_spaces_bare s' with
      | Some n => Some (S n)
      | None => match_bare s
      end
    else match_bare s
  | [] => match_bare s
  end.

(** [\.\s*Response [A-Z]] *)
Definition match_dot : matcher := fun s =>
  match s with
  | c :: s' => if (c =? 46)%N then option_map S (match_spaces_bare s') else None
  | [] => None
  end.

(** [\d*\.\s*Response [A-Z]], the rest of [\d+] after its first digit *)
Fixpoint match_digits_dot (s : pystr) : option nat :=
  match s with
  | c :: s' =>
    if is_decimal c then
      match match_digits_dot s' with
      | Some n => Some (S n)
      | None => match_dot s
      end
    else match_dot s
  | [] => match_dot s
  end.

(** [\d+\.\s*Response [A-Z]] *)
Definition match_numbered : matcher := fun s =>
  match s with
  | c :: s' => if is_decimal c then option_map S (match_digits_dot s') else None
  | [] => None
  end.

(** [re.findall(pattern, s)] for a pattern without groups that matches
    no empty string: the matches from left to right, the search resuming
    after the end of each match. *)
Fixpoint findall_go (m : matcher) (skip : nat) (s : pystr) : list pystr :=
  match s with
  | [] => []
  | _ :: s' =>
    match skip with
    | S k => findall_go m k s'
    | O =>
      match m s with
      | Some (S n) => firstn (S n) s :: findall_go m n s'
      | _ => findall_go m 0 s'
      end
    end
  end.

Definition findall (m : matcher) (s : pystr) : list pystr := findall_go m 0 s.

(** [re.search(pattern, s)]: the text of the leftmost match, if any. *)
Fixpoint search (m : matcher) (s : pystr) : option pystr :=
  match m s with
  | Some n => Some (firstn n s)
  | None =>
    match s with
    | [] => None
    | _ :: s' => search m s'
    end
  end.

End WithDB.
End Re.

(** ** [parse_ranking_from_text] (council.py) *)

Section Parser.
Context {db : UnicodeDB}.

Definition MARKER : pystr := PyStr.str "FINAL RANKING:".

(** [re.search(r'Response [A-Z]', m).group()]: [.group()] of [None]
    raises [AttributeError]. *)
Definition group_of_search (m : pystr) : result pystr :=
  match Re.search Re.match_bare m with
  | Some g => Ok g
  | None => Raise AttributeError
  end.

(** The body of the [if len(parts) >= 2] branch, from the ranking section
    on. *)
Definition extract_ranking (ranking_section : pystr) : result (list pystr) :=
  let numbered_matches := Re.findall Re.match_numbered ranking_section in
  match numbered_matches with
  | _ :: _ => rmap group_of_search numbered_matches
  | [] => Ok (Re.findall Re.match_bare ranking_section)
  end.

Definition parse_ranking_from_text (ranking_text : pystr) : result (list pystr) :=
  if PyStr.contains MARKER ranking_text then
    let parts := PyStr.split MARKER ranking_text in
    if (2 <=? length parts)%nat then
      let ranking_section := nth 1 parts [] in
      extract_ranking ranking_section
    else Ok (Re.findall Re.match_bare ranking_text)
  else Ok (Re.findall Re.match_bare ranking_text).

End Parser.

(** The Unicode 14.0 tables: the first code point of every run of ten
    decimal digits, the mathematical digits, and the whitespace. *)
Definition decimal_runs : list N :=
  [48; 1632; 1776; 1984; 2406; 2534; 2662; 2790; 2918; 3046; 3174; 3302;
   3430; 3558; 3664; 3792; 3872; 4160; 4240; 6112; 6160; 6470; 6608; 6784;
   6800; 6992; 7088; 7232; 7248; 42528; 43216; 43264; 43472; 43504; 43600;
   44016; 65296; 66720; 68912; 69734; 69872; 69942; 70096; 70384; 70736;
   70864; 71248; 71360; 71472; 71904; 72016; 72784; 73040; 73120; 92768;
   92864; 93008; 123200; 123632; 125264; 130032]%N.

Definition unicode14_decimal (c : char) : bool :=
  existsb (fun lo => (lo <=? c) && (c <=? lo + 9))%N decimal_runs
  || ((120782 <=? c) && (c <=? 120831))%N.

Definition unicode14_whitespace (c : char) : bool :=
  ascii_whitespace c
  || existsb (N.eqb c) [133; 160; 5760; 8232; 8233; 8239; 8287; 12288]%N
  || ((8192 <=? c) && (c <=? 8202))%N.

#[export] Instance unicode14 : UnicodeDB := {
  is_decimal := unicode14_decimal;
  is_whitespace := unicode14_whitespace
}.


(** ** Dictionaries

    A Python [dict] with string keys, in insertion order.  Assigning to a
    key that is present replaces the value and keeps the key's place. *)

Module Dict.
Section WithValue.
Variable V : Type.

Definition t := list (pystr * V).

Definition empty : t := [].

Fixpoint get (k : pystr) (d : t) : option V :=
  match d with
  | [] => None
  | (k', v) :: d' => if PyStr.eqb k k' then Some v else get k d'
  end.

(** [d[k] = v] *)
Fixpoint set (k : pystr) (v : V) (d : t) : t :=
  match d with
  | [] => [(k, v)]
  | (k', v') :: d' =>
    if PyStr.eqb k k' then (k', v) :: d' else (k', v') :: set k v d'
  end.

Definition items (d : t) : list (pystr * V) := d.
Definition keys (d : t) : list pystr := map fst d.
Definition values (d : t) : list V := map snd d.

(** [{k: v for k, v in pairs}] *)
Definition of_items (pairs : list (pystr * V)) : t :=
  fold_left (fun d kv => set (fst kv) (snd kv) d) pairs empty.

End WithValue.
Arguments empty {V}.
End Dict.

(** ** Floats

    A finite binary64 number is the rational it denotes.  [binary64 q] is
    the number of 53 significant bits nearest to [q], ties to the even
    significand, with the gradual underflow of the format; the quotients
    and averages of the aggregator lie between 1 and the length of a text,
    far below the overflow threshold, which is left out. *)

Module PyFloat.

Definition t := Q.

(** The integer nearest to [q], ties to even. *)
Definition round_half_even (q : Q) : Z :=
  let n := Qnum q in
  let d := Zpos (Qden q) in
  let f := (n / d)%Z in
  let r2 := (2 * (n mod d))%Z in
  if (r2 <? d)%Z then f
  else if (d <? r2)%Z then (f + 1)%Z
  else if Z.even f then f else (f + 1)%Z.

(** [q * 2^k] *)
Definition scale2 (q : Q) (k : Z) : Q :=
  if (0 <=? k)%Z then q * inject_Z (2 ^ k) else q / inject_Z (2 ^ (- k)).

(** [floor (log2 |q|)] for [q <> 0] *)
Definition ilog2 (q : Q) : Z :=
  let a := Z.abs (Qnum q) in
  let d := Zpos (Qden q) in
  let e0 := (Z.log2 a - Z.log2 d)%Z in
  if Qle_bool (scale2 1 e0) (Qabs q) then e0 else (e0 - 1)%Z.

Definition binary64 (q : Q) : t :=
  if (Qnum q =? 0)%Z then 0
  else
    let x := Z.max (ilog2 q - 52) (-1074) in
    scale2 (inject_Z (round_half_even (scale2 q (- x)))) x.

(** [a / b] on two [int]s, [b > 0] *)
Definition truediv (a b : Z) : t := binary64 (Qmake a (Z.to_pos b)).

(** [round(x, 2)]: the decimal with two places nearest to the exact
    value of [x], ties to even, converted back to a float. *)
Definition round2 (x : t) : t :=
  binary64 (inject_Z (round_half_even (x * 100)) / 100).

(** [x < y] *)
Definition ltb (x y : t) : bool := negb (Qle_bool y x).

End PyFloat.

(** [list.sort(key=...)] is stable: an insertion sort that puts an element
    before the first one whose key is not smaller. *)
Section Sort.
Variable A : Type.
Variable key : A -> PyFloat.t.

Fixpoint insert_sorted (x : A) (l : list A) : list A :=
  match l with
  | [] => [x]
  | y :: l' =>
    if PyFloat.ltb (key y) (key x) then y :: insert_sorted x l' else x :: l
  end.

Definition list_sort (l : list A) : list A := fold_right insert_sorted [] l.
End Sort.

(** [enumerate(l, start=1)] *)
Definition enumerate1 {A} (l : list A) : list (Z * A) :=
  combine (map Z.of_nat (seq 1 (length l))) l.

(** ** The model gateway (openrouter.py) *)

Record Message := {
  msg_role : pystr;
  msg_content : pystr
}.

(** What [query_model] returns on success: the [content] of the first
    choice, [None] when the provider sent a null, and the reasoning
    details, which nothing in the core reads. *)
Record Response := {
  content : option pystr;
  reasoning_details : option pystr
}.

(** One request to the provider. *)
Record Call := {
  call_model : pystr;
  call_messages : list Message;
  call_timeout : Q
}.

(** The provider and the network: whether a request gets an answer, and
    which, may depend on every request made before it. *)
Class Gateway := {
  outcome : list Call -> Call -> option Response
}.

(** Asynchronous computations: the trace of the requests made so far goes
    in, the value or the exception and the new trace come out. *)
Definition Aio (A : Type) : Type := list Call -> result A * list Call.

Definition ret {A} (a : A) : Aio A := fun tr => (Ok a, tr).

Definition raise {A} (e : PyExn) : Aio A := fun tr => (Raise e, tr).

Definition bind {A B} (m : Aio A) (k : A -> Aio B) : Aio B :=
  fun tr =>
    match m tr with
    | (Ok a, tr') => k a tr'
    | (Raise e, tr') => (Raise e, tr')
    end.

Definition lift {A} (r : result A) : Aio A := fun tr => (r, tr).

Notation "x <- m ;; k" := (bind m (fun x => k))
  (at level 61, m at next level, right associativity).

(** [asyncio.gather]: the results come back in the order of the
    tasks, whatever the order of completion.  The requests are traced in
    task order; [outcome] is free to answer each of them as it likes. *)
Fixpoint gather {A} (tasks : list (Aio A)) : Aio (list A) :=
  match tasks with
  | [] => ret []
  | t :: rest =>
    r <- t ;;
    rs <- gather rest ;;
    ret (r :: rs)
  end.

Section OpenRouter.
Context {gw : Gateway}.

(** Every failure of the request is caught and becomes [None]. *)
Definition query_model (model : pystr) (messages : list Message)
           (timeout : Q) : Aio (option Response) :=
  fun tr =>
    let call := {| call_model := model;
                   call_messages := messages;
                   call_timeout := timeout |} in
    (Ok (outcome tr call), tr ++ [call]).

Definition query_models_parallel (models : list pystr)
           (messages : list Message)
  : Aio (Dict.t (option Response)) :=
  let tasks := map (fun model => query_model model messages 120) models in
  responses <- gather tasks ;;
  ret (Dict.of_items (combine models responses)).

End OpenRouter.

(** ** Configuration (config.py) *)

Class Config := {
  COUNCIL_MODELS : list pystr;
  CHAIRMAN_MODEL : pystr
}.

Definition config_py : Config := {|
  COUNCIL_MODELS :=
    [PyStr.str "tngtech/tng-r1t-chimera:free";
     PyStr.str "openrouter/bert-nebulon-alpha";
     PyStr.str "x-ai/grok-4.1-fast:free";
     PyStr.str "kwaipilot/kat-coder-pro:free"];
  CHAIRMAN_MODEL := PyStr.str "tngtech/tng-r1t-chimera:free"
|}.

(** ** The council (council.py) *)

Record Stage1Result := {
  s1_model : pystr;
  s1_response : option pystr
}.

Record Stage2Result := {
  s2_model : pystr;
  s2_ranking : pystr;
  s2_parsed_ranking : list pystr
}.

Record Stage3Result := {
  s3_model : pystr;
  s3_response : option pystr
}.

Record AggregateEntry := {
  agg_model : pystr;
  average_rank : PyFloat.t;
  rankings_count : nat
}.

(** The fourth component of the result of [run_full_council]: the empty
    dictionary, or the one with the two keys. *)
Inductive Metadata :=
| MetadataEmpty
| MetadataFull (label_to_model : Dict.t pystr)
               (aggregate_rankings : list AggregateEntry).

Definition DQUOTE : pystr := [34%N].
Definition NEWLINE : pystr := [10%N].

(** How an f-string shows a field that holds a string or [None]. *)
Definition fmt (v : option pystr) : pystr :=
  match v with
  | Some s => s
  | None => PyStr.str "None"
  end.

Definition user_message (text : pystr) : list Message :=
  [{| msg_role := PyStr.str "user"; msg_content := text |}].

Definition ranking_prompt (user_query responses_text : pystr) : pystr :=
    PyStr.str "당신은 다음 질문에 대한 서로 다른 응답들을 평가해야 합니다:

질문: "
    ++ user_query
    ++ PyStr.str "

다음은 서로 다른 모델들의 응답입니다 (익명 처리됨):

"
    ++ responses_text
    ++ PyStr.str "

당신의 과제:
1. 먼저 각 응답을 개별적으로 평가하십시오. 각 응답에 대해 장점과 단점을 설명해야 합니다.
2. 그런 다음, 답변의 맨 마지막에 최종 순위를 제공하십시오.

중요: 최종 순위는 반드시 아래 형식을 정확히 따라야 합니다:
- "
    ++ DQUOTE
    ++ PyStr.str "FINAL RANKING:"
    ++ DQUOTE
    ++ PyStr.str "이라는 줄로 시작하십시오 (모두 대문자, 콜론 포함).
- 그 다음, 가장 좋은 응답부터 가장 나쁜 응답 순서로 번호를 매겨 나열하십시오.
- 각 줄은 '번호, 마침표, 공백, 그리고 오직 응답 라벨'로만 구성되어야 합니다 (예: "
    ++ DQUOTE
    ++ PyStr.str "1. Response A"
    ++ DQUOTE
    ++ PyStr.str ").
- 순위 섹션에는 다른 텍스트나 설명을 절대 추가하지 마십시오.

전체 답변의 올바른 형식 예시:

Response A는 X에 대해 자세히 설명하지만 Y를 놓쳤습니다...
Response B는 정확하지만 Z에 대한 깊이가 부족합니다...
Response C는 가장 포괄적인 답변을 제공합니다...

FINAL RANKING:
1. Response C
2. Response A
3. Response B

이제 평가와 순위를 작성해 주십시오:".

Definition chairman_prompt (user_query stage1_text stage2_text : pystr) : pystr :=
    PyStr.str "당신은 LLM 위원회의 의장입니다. 여러 AI 모델이 사용자의 질문에 대한 응답을 제공했고, 이후 서로의 응답에 순위를 매겼습니다.

원래 질문: "
    ++ user_query
    ++ PyStr.str "

1단계 - 개별 응답:
"
    ++ stage1_text
    ++ PyStr.str "

2단계 - 동료 평가 순위:
"
    ++ stage2_text
    ++ PyStr.str "

의장으로서 당신의 임무는 이 모든 정보를 종합하여 사용자의 원래 질문에 대한 하나의 포괄적이고 정확한 답변을 만드는 것입니다. 다음 사항을 고려하십시오:
- 개별 응답들과 그들의 통찰력
- 동료 평가 순위와 그것이 응답 품질에 대해 드러내는 것
- 합의 또는 불일치의 패턴

위원회의 집단 지혜를 대표하는 명확하고 논리적인 최종 답변을 제공하십시오:".

Definition title_prompt (user_query : pystr) : pystr :=
    PyStr.str "다음 질문을 요약하는 매우 짧은 제목(최대 3-5 단어)을 생성하십시오.
제목은 간결하고 설명적이어야 합니다. 제목에 따옴표나 구두점을 사용하지 마십시오.

질문: "
    ++ user_query
    ++ PyStr.str "

제목:".

Definition DEFAULT_TITLE : pystr := PyStr.str "새 대화".
Definition TITLE_MODEL : pystr := PyStr.str "google/gemini-2.5-flash".
Definition ALL_FAILED_MESSAGE : pystr :=
  PyStr.str "모든 모델이 응답에 실패했습니다. 다시 시도해 주십시오.".
Definition CHAIRMAN_FAILED_MESSAGE : pystr :=
  PyStr.str "오류: 최종 종합 답변을 생성할 수 없습니다.".

(** *** Stage 2, before the fan-out: labels, label map, anonymised block *)

Definition make_labels (stage1_results : list Stage1Result) : list char :=
  map (fun i => N.of_nat (65 + i)) (seq 0 (length stage1_results)).

Definition response_label (label : char) : pystr :=
  PyStr.str "Response " ++ [label].

Definition make_label_to_model (stage1_results : list Stage1Result)
  : Dict.t pystr :=
  Dict.of_items
    (map (fun lr => (response_label (fst lr), s1_model (snd lr)))
         (combine (make_labels stage1_results) stage1_results)).

Definition make_responses_text (stage1_results : list Stage1Result) : pystr :=
  PyStr.join (NEWLINE ++ NEWLINE)
    (map (fun lr => response_label (fst lr) ++ PyStr.str ":" ++ NEWLINE
                    ++ fmt (s1_response (snd lr)))
         (combine (make_labels stage1_results) stage1_results)).

(** *** [calculate_aggregate_rankings] *)

Section Aggregate.
Context {db : UnicodeDB}.

(** [model_positions[model_name].append(position)] on a
    [defaultdict(list)] *)
Definition append_position (model_positions : Dict.t (list Z))
           (model_name : pystr) (position : Z) : Dict.t (list Z) :=
  match Dict.get model_name model_positions with
  | Some positions => Dict.set model_name (positions ++ [position]) model_positions
  | None => Dict.set model_name [position] model_positions
  end.

(** The inner loop, over one parsed ranking. *)
Definition collect_ranking (label_to_model : Dict.t pystr)
           (model_positions : Dict.t (list Z))
           (parsed_ranking : list pystr) : Dict.t (list Z) :=
  fold_left
    (fun mp pl =>
       let position := fst pl in
       let label := snd pl in
       match Dict.get label label_to_model with
       | Some model_name => append_position mp model_name position
       | None => mp
       end)
    (enumerate1 parsed_ranking) model_positions.

(** The outer loop, which parses the text of each ranking again. *)
Fixpoint collect_positions (stage2_results : list Stage2Result)
         (label_to_model : Dict.t pystr)
         (model_positions : Dict.t (list Z)) : result (Dict.t (list Z)) :=
  match stage2_results with
  | [] => Ok model_positions
  | ranking :: rest =>
    let ranking_text := s2_ranking ranking in
    rbind (parse_ranking_from_text ranking_text) (fun parsed_ranking =>
    collect_positions rest label_to_model
      (collect_ranking label_to_model model_positions parsed_ranking))
  end.

Definition sum (positions : list Z) : Z := fold_left Z.add positions 0%Z.

Definition make_entry (model : pystr) (positions : list Z) : AggregateEntry :=
  let avg_rank :=
    PyFloat.truediv (sum positions) (Z.of_nat (length positions)) in
  {| agg_model := model;
     average_rank := PyFloat.round2 avg_rank;
     rankings_count := length positions |}.

(** The loop over [model_positions.items()]. *)
Fixpoint make_aggregate (items : list (pystr * list Z)) : list AggregateEntry :=
  match items with
  | [] => []
  | (model, positions) :: rest =>
    match positions with
    | _ :: _ => make_entry model positions :: make_aggregate rest
    | [] => make_aggregate rest
    end
  end.

Definition calculate_aggregate_rankings (stage2_results : list Stage2Result)
           (label_to_model : Dict.t pystr) : result (list AggregateEntry) :=
  rbind (collect_positions stage2_results label_to_model Dict.empty)
    (fun model_positions =>
       let aggregate := make_aggregate (Dict.items model_positions) in
       Ok (list_sort average_rank aggregate)).

End Aggregate.

(** *** The stages *)

Section Council.
Context {db : UnicodeDB} {gw : Gateway} {cfg : Config}.

(** The loop of stage 1 over [responses.items()]. *)
Fixpoint stage1_results_of (items : list (pystr * option Response))
  : list Stage1Result :=
  match items with
  | [] => []
  | (model, response) :: rest =>
    match response with
    | Some r =>
      {| s1_model := model; s1_response := content r |}
        :: stage1_results_of rest
    | None => stage1_results_of rest
    end
  end.

Definition stage1_collect_responses (user_query : pystr)
  : Aio (list Stage1Result) :=
  let messages := user_message user_query in
  responses <- query_models_parallel COUNCIL_MODELS messages ;;
  ret (stage1_results_of (Dict.items responses)).

(** The loop of stage 2 over [responses.items()].  A null [content]
    reaches [parse_ranking_from_text] as [None], and the [in] test on it
    raises [TypeError]. *)
Fixpoint stage2_results_of (items : list (pystr * option Response))
  : result (list Stage2Result) :=
  match items with
  | [] => Ok []
  | (model, response) :: rest =>
    match response with
    | Some r =>
      match content r with
      | None => Raise TypeError
      | Some full_text =>
        rbind (parse_ranking_from_text full_text) (fun parsed =>
        rbind (stage2_results_of rest) (fun results =>
        Ok ({| s2_model := model;
               s2_ranking := full_text;
               s2_parsed_ranking := parsed |} :: results)))
      end
    | None => stage2_results_of rest
    end
  end.

Definition stage2_collect_rankings (user_query : pystr)
           (stage1_results : list Stage1Result)
  : Aio (list Stage2Result * Dict.t pystr) :=
  let label_to_model := make_label_to_model stage1_results in
  let responses_text := make_responses_text stage1_results in
  let messages := user_message (ranking_prompt user_query responses_text) in
  responses <- query_models_parallel COUNCIL_MODELS messages ;;
  stage2_results <- lift (stage2_results_of (Dict.items responses)) ;;
  ret (stage2_results, label_to_model).

Definition stage3_synthesize_final (user_query : pystr)
           (stage1_results : list Stage1Result)
           (stage2_results : list Stage2Result) : Aio Stage3Result :=
  let stage1_text :=
    PyStr.join (NEWLINE ++ NEWLINE)
      (map (fun result => PyStr.str "Model: " ++ s1_model result ++ NEWLINE
                          ++ PyStr.str "Response: " ++ fmt (s1_response result))
           stage1_results) in
  let stage2_text :=
    PyStr.join (NEWLINE ++ NEWLINE)
      (map (fun result => PyStr.str "Model: " ++ s2_model result ++ NEWLINE
                          ++ PyStr.str "Ranking: " ++ s2_ranking result)
           stage2_results) in
  let messages :=
    user_message (chairman_prompt user_query stage1_text stage2_text) in
  response <- query_model CHAIRMAN_MODEL messages 120 ;;
  match response with
  | None =>
    ret {| s3_model := CHAIRMAN_MODEL;
           s3_response := Some CHAIRMAN_FAILED_MESSAGE |}
  | Some r =>
    ret {| s3_model := CHAIRMAN_MODEL; s3_response := content r |}
  end.

Definition is_quote (c : char) : bool := ((c =? 34) || (c =? 39))%N.

(** The title, from the text the model produced. *)
Definition clean_title (text : pystr) : pystr :=
  let title := PyStr.strip is_whitespace text in
  let title := PyStr.strip is_quote title in
  if (50 <? length title)%nat
  then firstn 47 title ++ PyStr.str "..."
  else title.

(** [response.get('content', ...)] finds the key, which [query_model]
    always sets; [.strip()] on a null content raises
    [AttributeError]. *)
Definition generate_conversation_title (user_query : pystr) : Aio pystr :=
  let messages := user_message (title_prompt user_query) in
  response <- query_model TITLE_MODEL messages 30 ;;
  match response with
  | None => ret DEFAULT_TITLE
  | Some r =>
    match content r with
    | None => raise AttributeError
    | Some text => ret (clean_title text)
    end
  end.

Definition run_full_council (user_query : pystr)
  : Aio (list Stage1Result * list Stage2Result * Stage3Result * Metadata) :=
  stage1_results <- stage1_collect_responses user_query ;;
  match stage1_results with
  | [] =>
    ret ([], [],
         {| s3_model := PyStr.str "error";
            s3_response := Some ALL_FAILED_MESSAGE |},
         MetadataEmpty)
  | _ :: _ =>
    s2 <- stage2_collect_rankings user_query stage1_results ;;
    let stage2_results := fst s2 in
    let label_to_model := snd s2 in
    aggregate_rankings <-
      lift (calculate_aggregate_rankings stage2_results label_to_model) ;;
    stage3_result <-
      stage3_synthesize_final user_query stage1_results stage2_results ;;
    let metadata := MetadataFull label_to_model aggregate_rankings in
    ret (stage1_results, stage2_results, stage3_result, metadata)
  end.

End Council.

(** ** Vocabulary of the specification *)

(** The text after the first occurrence of the marker. *)
Definition after_first_marker (text : pystr) : option pystr :=
  match PyStr.find MARKER text with
  | Some i => Some (skipn (i + length MARKER) text)
  | None => None
  end.

(** The text up to the next occurrence of the marker, all of it when there
    is none. *)
Definition up_to_marker (s : pystr) : pystr :=
  match PyStr.find MARKER s with
  | Some j => firstn j s
  | None => s
  end.

(** The text the parser restricts its search to when the marker occurs. *)
Definition restricted_text (text : pystr) : pystr :=
  match after_first_marker text with
  | Some rest => up_to_marker rest
  | None => []
  end.

(** [x] occurs in [s]. *)
Definition occurs_in (x s : pystr) : Prop := exists a b, s = a ++ x ++ b.

(** A label token: [Response ] and one capital letter. *)
Definition is_label (l : pystr) : Prop :=
  exists c, Re.is_upper c = true /\ l = response_label c.

(** A numbered entry and the label it holds: digits, a period, whitespace
    and the label. *)
Definition numbered_entry {db : UnicodeDB} (m l : pystr) : Prop :=
  exists ds ws,
    m = ds ++ [46%N] ++ ws ++ l /\ ds <> [] /\
    forallb is_decimal ds = true /\ forallb is_whitespace ws = true /\
    is_label l.

(** The request of a fan-out to one model, and the outcomes of the
    requests of a fan-out, in the order of the models. *)
Definition fanout_call (messages : list Message) (model : pystr) : Call :=
  {| call_model := model; call_messages := messages; call_timeout := 120 |}.

Fixpoint fanout_outcomes {gw : Gateway} (tr : list Call)
         (messages : list Message) (models : list pystr)
  : list (option Response) :=
  match models with
  | [] => []
  | model :: rest =>
    outcome tr (fanout_call messages model)
      :: fanout_outcomes (tr ++ [fanout_call messages model]) messages rest
  end.

Definition present {A} (r : option A) : bool :=
  match r with
  | Some _ => true
  | None => false
  end.

Definition absent {A} (r : option A) : bool := negb (present r).

(** A model succeeded when the mapping of the fan-out holds an answer for
    it. *)
Definition succeeded (responses : Dict.t (option Response))
           (model : pystr) : bool :=
  match Dict.get model responses with
  | Some (Some _) => true
  | _ => false
  end.

(** A matcher that takes no more characters than the text has. *)
Definition bounded (m : Re.matcher) : Prop :=
  forall s n, m s = Some n -> (n <= length s)%nat.

(** The label of the record at place [i]. *)
Definition label_at (i : nat) : pystr := response_label (N.of_nat (65 + i)).

(** The anonymised block, entry by entry: the record at place [i] under
    its label, a blank line between two entries. *)
Definition block_entry (i : nat) (r : Stage1Result) : pystr :=
  label_at i ++ PyStr.str ":" ++ NEWLINE ++ fmt (s1_response r).

Fixpoint block_from (i : nat) (records : list Stage1Result) : pystr :=
  match records with
  | [] => []
  | [r] => block_entry i r
  | r :: rest =>
    block_entry i r ++ NEWLINE ++ NEWLINE ++ block_from (S i) rest
  end.

(** The rank aggregator in the words of the specification.  A vote is a
    position given to a model: walking a parsed order gives the positions
    1, 2, 3, ... to its labels, and a label outside the label map gives no
    vote. *)
Definition votes_of_order (label_to_model : Dict.t pystr)
           (parsed_order : list pystr) : list (pystr * Z) :=
  flat_map
    (fun pl =>
       match Dict.get (snd pl) label_to_model with
       | Some model => [(model, fst pl)]
       | None => []
       end)
    (enumerate1 parsed_order).

Definition all_votes (label_to_model : Dict.t pystr)
           (parsed_orders : list (list pystr)) : list (pystr * Z) :=
  flat_map (votes_of_order label_to_model) parsed_orders.

(** The positions a model collected. *)
Definition positions_of (model : pystr) (votes : list (pystr * Z)) : list Z :=
  map snd (filter (fun v => PyStr.eqb (fst v) model) votes).

(** The elements of a list, each at its first occurrence. *)
Fixpoint first_occurrences (l : list pystr) : list pystr :=
  match l with
  | [] => []
  | x :: l' =>
    x :: filter (fun y => negb (PyStr.eqb y x)) (first_occurrences l')
  end.

(** The models that got a vote, in the order of their first vote. *)
Definition mentioned (votes : list (pystr * Z)) : list pystr :=
  first_occurrences (map fst votes).

(** The arithmetic mean of the positions, as the float the division gives,
    rounded to two places, with the number of positions. *)
Definition entry_of (model : pystr) (positions : list Z) : AggregateEntry :=
  {| agg_model := model;
     average_rank :=
       PyFloat.round2
         (PyFloat.truediv (fold_left Z.add positions 0%Z)
                          (Z.of_nat (length positions)));
     rankings_count := length positions |}.

(** The order of the keys, and the elements whose key is a given number. *)
Definition key_le {A} (key : A -> PyFloat.t) (a b : A) : Prop :=
  key a <= key b.

Definition key_tie {A} (key : A -> PyFloat.t) (c : Q) (a : A) : bool :=
  Qeq_bool (key a) c.

(** Half a unit in the last place of a significand of 53 bits: [2^-53]. *)
Definition ULP53 : Q := 1 # 9007199254740992.

(** Two entries tie when their averages are equal. *)
Definition tied_at (c : Q) (e : AggregateEntry) : bool :=
  key_tie average_rank c e.

Definition rank_le (a b : AggregateEntry) : Prop :=
  key_le average_rank a b.

(** The positions of a list of votes, filed under their models in the
    order of the votes. *)
Definition tally (votes : list (pystr * Z))
           (model_positions : Dict.t (list Z)) : Dict.t (list Z) :=
  fold_left (fun mp v => append_position mp (fst v) (snd v))
            votes model_positions.

(** The aggregate computed from the stored parsed orders instead of the
    texts. *)
Definition collect_stored (stage2_results : list Stage2Result)
           (label_to_model : Dict.t pystr)
           (model_positions : Dict.t (list Z)) : Dict.t (list Z) :=
  fold_left
    (fun mp ranking =>
       collect_ranking label_to_model mp (s2_parsed_ranking ranking))
    stage2_results model_positions.

Definition aggregate_from_parsed (stage2_results : list Stage2Result)
           (label_to_model : Dict.t pystr) : list AggregateEntry :=
  list_sort average_rank
    (make_aggregate
       (Dict.items (collect_stored stage2_results label_to_model Dict.empty))).

(** The request of the title summarizer. *)
Definition title_call (user_query : pystr) : Call :=
  {| call_model := TITLE_MODEL;
     call_messages := user_message (title_prompt user_query);
     call_timeout := 30 |}.

(** The generated text after trimming: surrounding whitespace first, then
    surrounding quote characters. *)
Definition trimmed {db : UnicodeDB} (text : pystr) : pystr :=
  PyStr.strip is_quote (PyStr.strip is_whitespace text).

Definition ELLIPSIS : pystr := PyStr.str "...".

(** ** Sample inputs *)

(** The scenario of the specification: the roster X, Y, Z; X and Y answer
    and rank, Z fails. *)
Definition model_X : pystr := PyStr.str "X".
Definition model_Y : pystr := PyStr.str "Y".
Definition model_Z : pystr := PyStr.str "Z".

Definition query_2_plus_2 : pystr := PyStr.str "What is 2+2?".

Definition config_xyz : Config := {|
  COUNCIL_MODELS := [model_X; model_Y; model_Z];
  CHAIRMAN_MODEL := model_X
|}.

Definition text_response (text : pystr) : option Response :=
  Some {| content := Some text; reasoning_details := None |}.

Definition ranking_of_X : pystr := PyStr.str "B is short.
FINAL RANKING:
1. Response B
2. Response A
".

Definition ranking_of_Y : pystr := PyStr.str "FINAL RANKING:
1. Response A
2. Response B
".

(** The first three requests are stage 1, the next three stage 2, the
    seventh goes to the chairman. *)
Definition gateway_xyz : Gateway := {|
  outcome := fun tr call =>
    let model := call_model call in
    if (length tr <? 3)%nat then
      if PyStr.eqb model model_X then text_response (PyStr.str "4")
      else if PyStr.eqb model model_Y then text_response (PyStr.str "It is 4.")
      else None
    else if (length tr <? 6)%nat then
      if PyStr.eqb model model_X then text_response ranking_of_X
      else if PyStr.eqb model model_Y then text_response ranking_of_Y
      else None
    else text_response (PyStr.str "2+2 is 4.")
|}.

(** The stage-1 records of the scenario. *)
Definition answers_xy : list Stage1Result :=
  [{| s1_model := model_X; s1_response := Some (PyStr.str "4") |};
   {| s1_model := model_Y; s1_response := Some (PyStr.str "It is 4.") |}].

(** The requests of stage 1 in the scenario, and its stage-2 records. *)
Definition trace_stage1 : list Call :=
  map (fanout_call (user_message query_2_plus_2)) [model_X; model_Y; model_Z].

Definition stage2_xy : list Stage2Result :=
  [{| s2_model := model_X;
      s2_ranking := ranking_of_X;
      s2_parsed_ranking := [response_label 66; response_label 65] |};
   {| s2_model := model_Y;
      s2_ranking := ranking_of_Y;
      s2_parsed_ranking := [response_label 65; response_label 66] |}].

(** The result of the pipeline when every model of the roster failed. *)
Definition all_failed_result : Stage3Result :=
  {| s3_model := PyStr.str "error"; s3_response := Some ALL_FAILED_MESSAGE |}.

(** A gateway that answers every request with the given text. *)
Definition gateway_saying (text : pystr) : Gateway :=
  {| outcome := fun _ _ => text_response text |}.

(** A generated title of 55 characters, in quotes, and an empty one. *)
Definition long_title : pystr :=
  PyStr.str "  'How to add two and two together and why it is always 4.' ".

Definition empty_title : pystr := [].

(** A gateway that answers every request with a null content. *)
Definition gateway_null : Gateway :=
  {| outcome := fun _ _ =>
       Some {| content := None; reasoning_details := None |} |}.

(** A gateway that answers no request. *)
Definition gateway_down : Gateway := {| outcome := fun _ _ => None |}.

(** The example of the specification. *)
Definition ranking_example : pystr := PyStr.str "blah blah
FINAL RANKING:
1. Response B
2. Response A
".

(** A text with the marker twice. *)
Definition two_markers : pystr := PyStr.str "FINAL RANKING:
1. Response A
FINAL RANKING:
2. Response B
".

(** ** Further vocabulary *)

(** A line of a ranking in the format the ranking prompt asks for: a
    number, a period, a space, the label, the end of the line. *)
Definition ranking_line (number label : pystr) : pystr :=
  number ++ PyStr.str ". " ++ label ++ NEWLINE.

(** A ranking in that format: the marker on a line of its own, then the
    lines. *)
Definition formatted_ranking (entries : list (pystr * pystr)) : pystr :=
  MARKER ++ NEWLINE
  ++ concat (map (fun e => ranking_line (fst e) (snd e)) entries).

(** No letter F followed by a letter I. *)
Fixpoint fi_free (s : pystr) : bool :=
  match s with
  | c :: s' =>
    match s' with
    | d :: _ => negb ((c =? 70)%N && (d =? 73)%N) && fi_free s'
    | [] => true
    end
  | [] => true
  end.

(** An entry of a formatted ranking: a number in ASCII digits and a
    label. *)
Definition ranking_entry (e : pystr * pystr) : Prop :=
  fst e <> [] /\ forallb ascii_decimal (fst e) = true /\ is_label (snd e).

(** Twenty-seven stage-1 records with distinct models, one more than there
    are letters. *)
Definition answers_27 : list Stage1Result :=
  map (fun i => {| s1_model := [N.of_nat i]; s1_response := Some [] |})
      (seq 0 27).

(** A ranking that names the label of the twenty-seventh record. *)
Definition ranking_past_Z : Stage2Result :=
  {| s2_model := [0%N];
     s2_ranking := MARKER ++ NEWLINE ++ PyStr.str "1. " ++ label_at 26
                   ++ NEWLINE ++ PyStr.str "2. " ++ label_at 0;
     s2_parsed_ranking := [label_at 0] |}.

(** The parsed order of a record, the empty one should the parser raise. *)
Definition parsed_order {db : UnicodeDB} (r : Stage2Result) : list pystr :=
  match parse_ranking_from_text (s2_ranking r) with
  | Ok labels => labels
  | Raise _ => []
  end.

(** The votes of a list of records under a label map. *)
Definition votes_of {db : UnicodeDB} (label_to_model : Dict.t pystr)
           (stage2_results : list Stage2Result) : list (pystr * Z) :=
  all_votes label_to_model (map parsed_order stage2_results).

(** The value of the last pair with the given key. *)
Definition last_value {V} (k : pystr) (pairs : list (pystr * V)) : option V :=
  option_map snd (find (fun kv => PyStr.eqb k (fst kv)) (rev pairs)).

(** The messages of stage 2 and the request of stage 3. *)
Definition ranking_messages (user_query : pystr)
           (stage1_results : list Stage1Result) : list Message :=
  user_message (ranking_prompt user_query (make_responses_text stage1_results)).

Definition stage1_text_of (stage1_results : list Stage1Result) : pystr :=
  PyStr.join (NEWLINE ++ NEWLINE)
    (map (fun result => PyStr.str "Model: " ++ s1_model result ++ NEWLINE
                        ++ PyStr.str "Response: " ++ fmt (s1_response result))
         stage1_results).

Definition stage2_text_of (stage2_results : list Stage2Result) : pystr :=
  PyStr.join (NEWLINE ++ NEWLINE)
    (map (fun result => PyStr.str "Model: " ++ s2_model result ++ NEWLINE
                        ++ PyStr.str "Ranking: " ++ s2_ranking result)
         stage2_results).

Definition chairman_text (user_query : pystr)
           (stage1_results : list Stage1Result)
           (stage2_results : list Stage2Result) : pystr :=
  chairman_prompt user_query (stage1_text_of stage1_results)
                  (stage2_text_of stage2_results).

Definition chairman_call {cfg : Config} (user_query : pystr)
           (stage1_results : list Stage1Result)
           (stage2_results : list Stage2Result) : Call :=
  {| call_model := CHAIRMAN_MODEL;
     call_messages :=
       user_message (chairman_text user_query stage1_results stage2_results);
     call_timeout := 120 |}.

(** An answer whose content is null. *)
Definition null_answer (o : option Response) : bool :=
  match o with
  | Some r => absent (content r)
  | None => false
  end.

(** The ranking records of the answers of a fan-out, when no content is
    null. *)
Fixpoint rankings_of {db : UnicodeDB} (items : list (pystr * option Response))
  : list Stage2Result :=
  match items with
  | [] => []
  | (model, Some r) :: rest =>
    match content r with
    | Some text =>
      {| s2_model := model;
         s2_ranking := text;
         s2_parsed_ranking :=
           parsed_order {| s2_model := model; s2_ranking := text;
                           s2_parsed_ranking := [] |} |}
        :: rankings_of rest
    | None => rankings_of rest
    end
  | (_, None) :: rest => rankings_of rest
  end.

(** A roster that names a model twice. *)
Definition roster_xyx : list pystr := [model_X; model_Y; model_X].

(** A gateway that answers the first request only. *)
Definition gateway_first_only : Gateway :=
  {| outcome := fun tr _ =>
       match tr with
       | [] => text_response (PyStr.str "4")
       | _ :: _ => None
       end |}.

(** The stage-1 records of the scenario with the models exchanged. *)
Definition answers_yx : list Stage1Result :=
  [{| s1_model := model_Y; s1_response := Some (PyStr.str "4") |};
   {| s1_model := model_X; s1_response := Some (PyStr.str "It is 4.") |}].

(** ** The message endpoint (main.py) *)

(** A stored message, and a conversation as [storage.get_conversation]
    returns it. *)
Inductive StoredMessage :=
| UserMessage (text : pystr)
| AssistantMessage (stage1 : list Stage1Result)
                   (stage2 : list Stage2Result)
                   (stage3 : Stage3Result).

Record Conversation := {
  conv_id : pystr;
  conv_created_at : pystr;
  conv_title : pystr;
  conv_messages : list StoredMessage
}.

(** The calls the endpoint makes to the storage module. *)
Inductive StorageCall :=
| get_conversation (conversation_id : pystr)
| add_user_message (conversation_id text : pystr)
| update_conversation_title (conversation_id title : pystr)
| add_assistant_message (conversation_id : pystr)
                        (stage1 : list Stage1Result)
                        (stage2 : list Stage2Result)
                        (stage3 : Stage3Result).

Inductive StorageOutcome :=
| Returned (conversation : option Conversation)
| StorageRaised.

(** The storage module and the files behind it: what a call returns, and
    whether it raises, may depend on every request and every storage call
    made before it.  Only [get_conversation] returns a value that is
    read. *)
Class Storage := {
  storage_outcome :
    list Call -> list StorageCall -> StorageCall -> StorageOutcome
}.

Inductive EndpointExn :=
| HTTPException (status_code : Z)
| StorageException
| Uncaught (e : PyExn).

(** The requests and the storage calls made so far. *)
Record World := {
  requests : list Call;
  storage_calls : list StorageCall
}.

Definition Endpoint (A : Type) : Type := World -> (A + EndpointExn) * World.

Definition eret {A} (a : A) : Endpoint A := fun w => (inl a, w).

Definition eraise {A} (e : EndpointExn) : Endpoint A := fun w => (inr e, w).

Definition ebind {A B} (m : Endpoint A) (k : A -> Endpoint B) : Endpoint B :=
  fun w =>
    match m w with
    | (inl a, w') => k a w'
    | (inr e, w') => (inr e, w')
    end.

Notation "x <~ m ;; k" := (ebind m (fun x => k))
  (at level 61, m at next level, right associativity).

(** [await] on a computation of the core: its requests join the trace, and
    what it raises is not caught. *)
Definition await {A} (m : Aio A) : Endpoint A :=
  fun w =>
    let w' tr := {| requests := tr; storage_calls := storage_calls w |} in
    match m (requests w) with
    | (Ok a, tr) => (inl a, w' tr)
    | (Raise e, tr) => (inr (Uncaught e), w' tr)
    end.

Section Main.
Context {db : UnicodeDB} {gw : Gateway} {cfg : Config} {st : Storage}.

Definition storage (call : StorageCall) : Endpoint (option Conversation) :=
  fun w =>
    let w' := {| requests := requests w;
                 storage_calls := storage_calls w ++ [call] |} in
    match storage_outcome (requests w) (storage_calls w) call with
    | Returned conversation => (inl conversation, w')
    | StorageRaised => (inr StorageException, w')
    end.

Definition send_message (conversation_id : pystr) (request_content : pystr)
  : Endpoint (list Stage1Result * list Stage2Result * Stage3Result * Metadata) :=
  conversation <~ storage (get_conversation conversation_id) ;;
  match conversation with
  | None => eraise (HTTPException 404)
  | Some conversation =>
    let is_first_message :=
      Nat.eqb (length (conv_messages conversation)) 0 in
    _ <~ storage (add_user_message conversation_id request_content) ;;
    _ <~ (if is_first_message
          then
            title <~ await (generate_conversation_title request_content) ;;
            storage (update_conversation_title conversation_id title)
          else eret None) ;;
    res <~ await (run_full_council request_content) ;;
    let '(stage1_results, stage2_results, stage3_result, metadata) := res in
    _ <~ storage (add_assistant_message conversation_id stage1_results
                    stage2_results stage3_result) ;;
    eret (stage1_results, stage2_results, stage3_result, metadata)
  end.

End Main.

(** A storage that holds the given conversation under every id; no call
    raises. *)
Definition storage_holding (conversation : Conversation) : Storage :=
  {| storage_outcome := fun _ _ _ => Returned (Some conversation) |}.

Definition conversation_id_1 : pystr := PyStr.str "c1".

Definition new_conversation : Conversation :=
  {| conv_id := conversation_id_1;
     conv_created_at := PyStr.str "2025-01-15T10:30:00";
     conv_title := DEFAULT_TITLE;
     conv_messages := [] |}.

Definition world_0 : World := {| requests := []; storage_calls := [] |}.

(** ** The path of a conversation (storage.py) *)

Module StoragePy.

Definition DATA_DIR : pystr := PyStr.str "data/conversations".

Definition ends_with (suffix s : pystr) : bool :=
  PyStr.starts_with (rev suffix) (rev s).

(** [os.path.join(a, b)] of [posixpath]. *)
Definition path_join (a b : pystr) : pystr :=
  if PyStr.starts_with (PyStr.str "/") b then b
  else if match a with
          | [] => true
          | _ :: _ => ends_with (PyStr.str "/") a
          end
       then a ++ b
       else a ++ PyStr.str "/" ++ b.

Definition get_conversation_path (conversation_id : pystr) : pystr :=
  path_join DATA_DIR (conversation_id ++ PyStr.str ".json").

End StoragePy.

(** ** The words of the claims *)

(** Walking a parsed order: its first label has position 1, the next one
    position 2, and so on; a label that is not in the label map gives no
    vote, and the labels after it keep their places. *)
Fixpoint walk_order (label_to_model : Dict.t pystr) (position : Z)
         (order : list pystr) : list (pystr * Z) :=
  match order with
  | [] => []
  | label :: rest =>
    match Dict.get label label_to_model with
    | Some model =>
      (model, position) :: walk_order label_to_model (position + 1) rest
    | None => walk_order label_to_model (position + 1) rest
    end
  end.

Definition walked_votes (label_to_model : Dict.t pystr)
           (parsed_orders : list (list pystr)) : list (pystr * Z) :=
  flat_map (walk_order label_to_model 1) parsed_orders.

(** The arithmetic mean of a list of positions, as a rational number. *)
Definition arithmetic_mean (positions : list Z) : Q :=
  fold_right Z.add 0%Z positions # Z.to_pos (Z.of_nat (length positions)).

(** [x] is [mean] rounded to two decimal places, as a float holds it:
    some number of hundredths lies within half a hundredth of the mean,
    and [x] is that number, each up to the 53 bits of a float. *)
Definition rounded_to_2_places (mean x : Q) : Prop :=
  exists hundredths : Z,
    Qabs ((hundredths # 100) - mean) <= (1 # 200) + mean * ULP53 /\
    Qabs (x - (hundredths # 100)) <= (hundredths # 100) * ULP53.




(** The capital letters, and the anonymised block for letters and answers:
    an entry [Response <letter>:] with the answer on the next line for
    each of them, in order, a blank line between two entries. *)
Definition ALPHABET : pystr := PyStr.str "ABCDEFGHIJKLMNOPQRSTUVWXYZ".

Definition anonymised_entry (letter : char) (r : Stage1Result) : pystr :=
  PyStr.str "Response " ++ [letter] ++ PyStr.str ":" ++ [10%N]
  ++ fmt (s1_response r).

Fixpoint anonymised_block (entries : list (char * Stage1Result)) : pystr :=
  match entries with
  | [] => []
  | [(letter, r)] => anonymised_entry letter r
  | (letter, r) :: rest =>
    anonymised_entry letter r ++ [10%N; 10%N] ++ anonymised_block rest
  end.

(** [t] is [s] without the characters of the class [p] that surround it:
    [s] is [t] between two runs of such characters, and [t] neither begins
    nor ends with one. *)
Definition trimmed_of (p : char -> bool) (s t : pystr) : Prop :=
  exists a b,
    s = a ++ t ++ b /\
    forallb p a = true /\ forallb p b = true /\
    (forall c, hd_error t = Some c -> p c = false) /\
    (forall c, hd_error (rev t) = Some c -> p c = false).

(** The quote characters: the double quote and the apostrophe. *)
Definition quote_character (c : char) : bool :=
  existsb (N.eqb c) [34%N; 39%N].

(** Whitespace and quote characters, as one class. *)
Definition whitespace_or_quote {db : UnicodeDB} (c : char) : bool :=
  is_whitespace c || quote_character c.

(** ** Further sample inputs *)

(** An evaluator that names the marker before it gives its ranking. *)
Definition quoted_marker : pystr := PyStr.str "I give my FINAL RANKING: below.

FINAL RANKING:
1. Response B
2. Response A
".


(** Three evaluators: two put A first, one puts B first. *)
Definition ranking_A_then_B : pystr := PyStr.str "FINAL RANKING:
1. Response A
2. Response B
".

Definition stage2_three : list Stage2Result :=
  [{| s2_model := model_X; s2_ranking := ranking_A_then_B;
      s2_parsed_ranking := [] |};
   {| s2_model := model_Y; s2_ranking := ranking_A_then_B;
      s2_parsed_ranking := [] |};
   {| s2_model := model_Z; s2_ranking := ranking_of_X;
      s2_parsed_ranking := [] |}].

(** A generated title of fifty letters after a space, in quotes. *)
Definition fifty_letters : pystr :=
  PyStr.str "abcdefghijklmnopqrstuvwxyzabcdefghijklmnopqrstuvwx".

Definition quoted_space_title : pystr :=
  PyStr.str "' " ++ fifty_letters ++ PyStr.str "'".

(** * Properties *)

Unset Implicit Arguments.

Arguments response_label : simpl never.
Arguments MARKER : simpl never.
Arguments Re.LABEL_PREFIX : simpl never.

(** ** Strings *)

Lemma eqb_spec_str (a b : pystr) : PyStr.eqb a b = true <-> a = b.
Proof.
  revert b; induction a as [|x a IH]; intros [|y b]; simpl; split;
    try congruence; try reflexivity.
  - rewrite andb_true_iff, N.eqb_eq, IH. intros [-> ->]. reflexivity.
  - intros E. injection E as -> ->. rewrite N.eqb_refl.
    apply IH. reflexivity.
Qed.

Lemma eqb_refl_str (a : pystr) : PyStr.eqb a a = true.
Proof. apply eqb_spec_str. reflexivity. Qed.

Lemma eqb_neq_str (a b : pystr) : PyStr.eqb a b = false <-> a <> b.
Proof.
  rewrite <- eqb_spec_str. destruct (PyStr.eqb a b); split; congruence.
Qed.

Lemma starts_with_app (p r : pystr) : PyStr.starts_with p (p ++ r) = true.
Proof.
  induction p as [|x p IH]; simpl; [reflexivity|].
  rewrite N.eqb_refl. exact IH.
Qed.

Lemma starts_with_head_neq (x c : char) (p s : pystr) :
  x <> c -> PyStr.starts_with (x :: p) (c :: s) = false.
Proof.
  intros H. simpl. destruct (N.eqb_spec x c); [contradiction|reflexivity].
Qed.

Lemma starts_with_inv (p s : pystr) :
  PyStr.starts_with p s = true -> s = p ++ skipn (length p) s.
Proof.
  revert s; induction p as [|x p IH]; intros s H; simpl in *.
  - reflexivity.
  - destruct s as [|y s]; [discriminate|].
    apply andb_true_iff in H as [E H]. apply N.eqb_eq in E. subst y.
    simpl. f_equal. apply IH. exact H.
Qed.

Lemma starts_with_iff (p s : pystr) :
  PyStr.starts_with p s = true <-> exists r, s = p ++ r.
Proof.
  split.
  - intros H. eexists. apply starts_with_inv. exact H.
  - intros [r ->]. apply starts_with_app.
Qed.

Lemma contains_iff (x s : pystr) :
  PyStr.contains x s = true <-> occurs_in x s.
Proof.
  induction s as [|c s IH]; simpl.
  - rewrite orb_false_r, starts_with_iff. split.
    + intros [r E]. exists [], r. exact E.
    + intros (a & b & E). destruct a; [|discriminate]. exists b. exact E.
  - rewrite orb_true_iff, starts_with_iff, IH. split.
    + intros [[r E] | (a & b & E)].
      * exists [], r. exact E.
      * exists (c :: a), b. simpl. rewrite E. reflexivity.
    + intros (a & b & E). destruct a as [|c' a].
      * left. exists b. exact E.
      * right. injection E as _ E. exists a, b. exact E.
Qed.

Lemma find_none_iff (x s : pystr) :
  PyStr.find x s = None <-> PyStr.contains x s = false.
Proof.
  induction s as [|c s IH]; simpl.
  - destruct (PyStr.starts_with x []); simpl; split; congruence.
  - destruct (PyStr.starts_with x (c :: s)); simpl.
    + split; congruence.
    + rewrite <- IH. destruct (PyStr.find x s); simpl; split; congruence.
Qed.

Lemma find_some_contains (x s : pystr) (i : nat) :
  PyStr.find x s = Some i -> PyStr.contains x s = true.
Proof.
  intros H. destruct (PyStr.contains x s) eqn:E; [reflexivity|].
  apply find_none_iff in E. congruence.
Qed.

Lemma split_go_skip (sep cur a r : pystr) :
  PyStr.split_go sep (length a) cur (a ++ r) = PyStr.split_go sep 0 cur r.
Proof.
  induction a as [|c a IH]; simpl.
  - destruct r; reflexivity.
  - exact IH.
Qed.

Lemma split_go_none (sep s cur : pystr) :
  PyStr.find sep s = None ->
  PyStr.split_go sep 0 cur s = [rev cur ++ s].
Proof.
  revert cur; induction s as [|c s IH]; intros cur; simpl.
  - rewrite app_nil_r. reflexivity.
  - destruct (PyStr.starts_with sep (c :: s)); [discriminate|].
    destruct (PyStr.find sep s); [discriminate|]. intros _.
    rewrite IH by reflexivity. simpl. rewrite <- app_assoc. reflexivity.
Qed.

Lemma split_go_some (sep s cur : pystr) (i : nat) :
  sep <> [] ->
  PyStr.find sep s = Some i ->
  PyStr.split_go sep 0 cur s
  = (rev cur ++ firstn i s)
      :: PyStr.split_go sep 0 [] (skipn (i + length sep) s).
Proof.
  intros Hsep. revert cur i; induction s as [|c s IH]; intros cur i; simpl.
  - destruct sep; [contradiction|]. discriminate.
  - destruct (PyStr.starts_with sep (c :: s)) eqn:E.
    + intros [= <-]. simpl. rewrite app_nil_r. f_equal.
      apply starts_with_inv in E.
      destruct sep as [|x sep']; [contradiction|].
      simpl in E. injection E as _ E. simpl.
      rewrite Nat.sub_0_r. rewrite E at 1. apply split_go_skip.
    + destruct (PyStr.find sep s) as [j|] eqn:F; simpl; [|discriminate].
      intros [= <-]. rewrite (IH (c :: cur) j) by reflexivity.
      simpl. rewrite <- app_assoc. reflexivity.
Qed.

Lemma find_some_inv (x s : pystr) (i : nat) :
  PyStr.find x s = Some i ->
  s = firstn i s ++ x ++ skipn (i + length x) s.
Proof.
  revert i; induction s as [|c s IH]; intros i; simpl.
  - destruct (PyStr.starts_with x []) eqn:E; [|discriminate].
    intros [= <-]. destruct x; [reflexivity|discriminate].
  - destruct (PyStr.starts_with x (c :: s)) eqn:E.
    + intros [= <-]. simpl. apply starts_with_inv in E. exact E.
    + destruct (PyStr.find x s) as [j|] eqn:F; simpl; [|discriminate].
      intros [= <-]. simpl. f_equal. apply IH. reflexivity.
Qed.

Lemma split_go_nonempty (sep s : pystr) :
  forall k cur, PyStr.split_go sep k cur s <> [].
Proof.
  induction s as [|c s IH]; intros k cur; simpl; [discriminate|].
  destruct k; [|apply IH].
  destruct (PyStr.starts_with sep (c :: s)); [discriminate|apply IH].
Qed.

(** Joining the parts of a split with the separator gives the text back. *)
Lemma join_split (sep s : pystr) :
  sep <> [] -> PyStr.join sep (PyStr.split sep s) = s.
Proof.
  intros Hsep. unfold PyStr.split.
  remember (length s) as n eqn:L. revert s L.
  induction n as [n IH] using lt_wf_ind. intros s L.
  destruct (PyStr.find sep s) as [i|] eqn:F.
  - rewrite (split_go_some sep s [] i Hsep F). cbn [rev app].
    pose proof (find_some_inv sep s i F) as E.
    assert (Hlen : (length (skipn (i + length sep) s) < n)%nat).
    { subst n. rewrite E at 2. rewrite !length_app.
      destruct sep; [contradiction|]. cbn [length]. lia. }
    specialize (IH _ Hlen _ eq_refl).
    pose proof (split_go_nonempty sep (skipn (i + length sep) s) 0 []) as Hne.
    destruct (PyStr.split_go sep 0 [] (skipn (i + length sep) s)) as [|p ps];
      [contradiction|].
    change (PyStr.join sep (firstn i s :: p :: ps))
      with (firstn i s ++ sep ++ PyStr.join sep (p :: ps)).
    rewrite IH. symmetry. exact E.
  - rewrite (split_go_none sep s [] F). reflexivity.
Qed.

Lemma MARKER_nonempty : MARKER <> [].
Proof. discriminate. Qed.

(** With the marker in the text, the second part of the split is the text
    between the first marker and the next one. *)
Lemma split_marker_parts (text : pystr) :
  PyStr.contains MARKER text = true ->
  exists before others,
    PyStr.split MARKER text = before :: restricted_text text :: others.
Proof.
  intros H. unfold restricted_text, after_first_marker.
  destruct (PyStr.find MARKER text) as [i|] eqn:F.
  2:{ apply find_none_iff in F. congruence. }
  unfold PyStr.split. rewrite (split_go_some MARKER text [] i MARKER_nonempty F).
  unfold up_to_marker.
  destruct (PyStr.find MARKER (skipn (i + length MARKER) text)) as [j|] eqn:G.
  - rewrite (split_go_some MARKER _ [] j MARKER_nonempty G). simpl. eauto.
  - rewrite (split_go_none MARKER _ [] G). simpl. eauto.
Qed.

Lemma app_eq_length {A} (x y b r : list A) :
  x ++ b = y ++ r -> length x = length y -> x = y.
Proof.
  revert y; induction x as [|a x IH]; intros [|a' y]; simpl;
    try discriminate; try reflexivity.
  intros [= -> E] [= L]. f_equal. apply IH; assumption.
Qed.

Lemma occurs_in_refl (s : pystr) : occurs_in s s.
Proof. exists [], []. simpl. rewrite app_nil_r. reflexivity. Qed.

Lemma occurs_in_trans (x y z : pystr) :
  occurs_in x y -> occurs_in y z -> occurs_in x z.
Proof.
  intros (a & b & ->) (a' & b' & ->).
  exists (a' ++ a), (b ++ b'). rewrite <- !app_assoc. reflexivity.
Qed.

Lemma occurs_in_firstn (s : pystr) (n : nat) : occurs_in (firstn n s) s.
Proof.
  exists [], (skipn n s). simpl. symmetry. apply firstn_skipn.
Qed.

Lemma occurs_in_skipn (s : pystr) (n : nat) : occurs_in (skipn n s) s.
Proof.
  exists (firstn n s), []. rewrite app_nil_r. symmetry. apply firstn_skipn.
Qed.

Lemma restricted_text_occurs (text : pystr) :
  occurs_in (restricted_text text) text.
Proof.
  unfold restricted_text, after_first_marker, up_to_marker.
  destruct (PyStr.find MARKER text) as [i|]; [|exists [], text; reflexivity].
  eapply occurs_in_trans; [|apply occurs_in_skipn].
  destruct (PyStr.find MARKER _); [apply occurs_in_firstn|apply occurs_in_refl].
Qed.

(** ** Regular expressions *)

Section ReFacts.
Context {db : UnicodeDB}.

Lemma match_bare_inv (s : pystr) (n : nat) :
  Re.match_bare s = Some n ->
  n = 10%nat /\
  exists c r, Re.is_upper c = true /\ s = response_label c ++ r.
Proof.
  unfold Re.match_bare.
  destruct (PyStr.starts_with Re.LABEL_PREFIX s) eqn:E; [|discriminate].
  apply starts_with_inv in E. change (length Re.LABEL_PREFIX) with 9%nat in E.
  destruct (skipn 9 s) as [|c r]; [discriminate|].
  destruct (Re.is_upper c) eqn:U; [|discriminate].
  intros [= <-]. split; [reflexivity|]. exists c, r. split; [exact U|].
  rewrite E. unfold response_label. rewrite <- app_assoc. reflexivity.
Qed.

Lemma match_bare_label (c : char) (r : pystr) :
  Re.is_upper c = true -> Re.match_bare (response_label c ++ r) = Some 10%nat.
Proof.
  intros U. unfold Re.match_bare, response_label. rewrite <- app_assoc.
  change (PyStr.str "Response ") with Re.LABEL_PREFIX.
  rewrite starts_with_app. simpl. rewrite U. reflexivity.
Qed.

Lemma match_bare_head (c : char) (s : pystr) :
  c <> 82%N -> Re.match_bare (c :: s) = None.
Proof.
  intros H. unfold Re.match_bare.
  change Re.LABEL_PREFIX with (82%N :: PyStr.str "esponse ").
  rewrite starts_with_head_neq by congruence. reflexivity.
Qed.

Lemma length_response_label (c : char) : length (response_label c) = 10%nat.
Proof. reflexivity. Qed.

Lemma match_spaces_bare_inv (s : pystr) (n : nat) :
  Re.match_spaces_bare s = Some n ->
  exists ws l r,
    s = ws ++ l ++ r /\ n = (length ws + 10)%nat /\
    forallb is_whitespace ws = true /\ is_label l.
Proof.
  assert (Hbase : forall s n, Re.match_bare s = Some n ->
            exists ws l r, s = ws ++ l ++ r /\ n = (length ws + 10)%nat /\
              forallb is_whitespace ws = true /\ is_label l).
  { intros s0 n0 H. apply match_bare_inv in H as (-> & c & r & U & ->).
    exists [], (response_label c), r. repeat split. exists c. auto. }
  revert n; induction s as [|c s IH]; intros n; simpl.
  - apply Hbase.
  - destruct (is_whitespace c) eqn:W; [|apply Hbase].
    destruct (Re.match_spaces_bare s) as [k|]; [|apply Hbase].
    intros [= <-]. destruct (IH k eq_refl) as (ws & l & r & -> & -> & Hw & Hl).
    exists (c :: ws), l, r. simpl. rewrite W, Hw. auto.
Qed.

Lemma match_dot_inv (s : pystr) (n : nat) :
  Re.match_dot s = Some n ->
  exists ws l r,
    s = [46%N] ++ ws ++ l ++ r /\ n = (1 + length ws + 10)%nat /\
    forallb is_whitespace ws = true /\ is_label l.
Proof.
  destruct s as [|c s]; simpl; [discriminate|].
  destruct (N.eqb_spec c 46) as [->|]; [|discriminate].
  destruct (Re.match_spaces_bare s) as [k|] eqn:E; simpl; [|discriminate].
  intros [= <-]. apply match_spaces_bare_inv in E
    as (ws & l & r & -> & -> & Hw & Hl).
  exists ws, l, r. auto.
Qed.

Lemma match_digits_dot_inv (s : pystr) (n : nat) :
  Re.match_digits_dot s = Some n ->
  exists ds ws l r,
    s = ds ++ [46%N] ++ ws ++ l ++ r /\
    n = (length ds + (1 + length ws + 10))%nat /\
    forallb is_decimal ds = true /\
    forallb is_whitespace ws = true /\ is_label l.
Proof.
  assert (Hbase : forall s n, Re.match_dot s = Some n ->
            exists ds ws l r,
              s = ds ++ [46%N] ++ ws ++ l ++ r /\
              n = (length ds + (1 + length ws + 10))%nat /\
              forallb is_decimal ds = true /\
              forallb is_whitespace ws = true /\ is_label l).
  { intros s0 n0 H. apply match_dot_inv in H as (ws & l & r & -> & -> & Hw & Hl).
    exists [], ws, l, r. auto. }
  revert n; induction s as [|c s IH]; intros n; simpl.
  - discriminate.
  - destruct (is_decimal c) eqn:D; [|apply (Hbase (c :: s))].
    destruct (Re.match_digits_dot s) as [k|]; [|apply (Hbase (c :: s))].
    intros [= <-].
    destruct (IH k eq_refl) as (ds & ws & l & r & -> & -> & Hd & Hw & Hl).
    exists (c :: ds), ws, l, r. simpl. rewrite D, Hd. auto.
Qed.

(** A numbered match is a numbered entry at the head of the text. *)
Lemma match_numbered_inv (s : pystr) (n : nat) :
  Re.match_numbered s = Some n ->
  exists m l r, s = m ++ r /\ n = length m /\ numbered_entry m l.
Proof.
  destruct s as [|c s]; simpl; [discriminate|].
  destruct (is_decimal c) eqn:D; [|discriminate].
  destruct (Re.match_digits_dot s) as [k|] eqn:E; simpl; [|discriminate].
  intros [= <-]. apply match_digits_dot_inv in E
    as (ds & ws & l & r & -> & -> & Hd & Hw & Hl).
  exists ((c :: ds) ++ [46%N] ++ ws ++ l), l, r. split; [|split].
  - simpl. rewrite <- !app_assoc. simpl. rewrite <- !app_assoc. reflexivity.
  - destruct Hl as (c' & _ & ->).
    repeat (rewrite ?length_app, ?length_cons, ?length_response_label;
            cbn [length app]).
    lia.
  - exists (c :: ds), ws. repeat split; auto; try discriminate.
    simpl. rewrite D. exact Hd.
Qed.

Lemma match_bare_bounded : bounded Re.match_bare.
Proof.
  intros s n H. apply match_bare_inv in H as (-> & c & r & _ & ->).
  rewrite length_app, length_response_label. lia.
Qed.

Lemma match_numbered_bounded : bounded Re.match_numbered.
Proof.
  intros s n H. apply match_numbered_inv in H as (m & l & r & -> & -> & _).
  rewrite length_app. lia.
Qed.

(** Every element of [findall] is a match of the pattern at some place
    of the text. *)
Lemma findall_go_In (m : Re.matcher) (Hm : bounded m) (s : pystr) :
  forall k x, In x (Re.findall_go m k s) ->
    exists a b, s = a ++ x ++ b /\ m (x ++ b) = Some (length x).
Proof.
  induction s as [|c s IH]; intros k x; simpl; [contradiction|].
  assert (Hrec : forall k', In x (Re.findall_go m k' s) ->
            exists a b, c :: s = a ++ x ++ b /\ m (x ++ b) = Some (length x)).
  { intros k' H. destruct (IH _ _ H) as (a & b & -> & E).
    exists (c :: a), b. auto. }
  destruct k as [|k]; [|apply Hrec].
  destruct (m (c :: s)) as [[|n]|] eqn:E; try apply Hrec.
  intros [<- | H]; [|apply (Hrec _ H)].
  exists [], (skipn (S n) (c :: s)).
  change (c :: firstn n s) with (firstn (S n) (c :: s)).
  rewrite app_nil_l, firstn_skipn.
  split; [reflexivity|]. rewrite E. f_equal.
  rewrite length_firstn. apply Hm in E. lia.
Qed.

Lemma findall_In (m : Re.matcher) (Hm : bounded m) (s x : pystr) :
  In x (Re.findall m s) ->
  occurs_in x s /\ exists b, m (x ++ b) = Some (length x).
Proof.
  intros H. apply (findall_go_In m Hm) in H as (a & b & E & M).
  split; [exists a, b; exact E | exists b; exact M].
Qed.

Lemma findall_bare_In (s x : pystr) :
  In x (Re.findall Re.match_bare s) -> is_label x /\ occurs_in x s.
Proof.
  intros H. apply (findall_In _ match_bare_bounded) in H as (O & b & M).
  split; [|exact O].
  apply match_bare_inv in M as (L & c & r & U & E).
  exists c. split; [exact U|].
  apply (app_eq_length x (response_label c) b r E).
  rewrite L, length_response_label. reflexivity.
Qed.

Lemma findall_numbered_In (s x : pystr) :
  In x (Re.findall Re.match_numbered s) ->
  occurs_in x s /\ exists l, numbered_entry x l.
Proof.
  intros H. apply (findall_In _ match_numbered_bounded) in H as (O & b & M).
  split; [exact O|].
  apply match_numbered_inv in M as (m & l & r & E & L & Hl).
  exists l. rewrite (app_eq_length x m b r E L). exact Hl.
Qed.

End ReFacts.

(** ** The ranking parser *)

Section ParserFacts.
Context {db : UnicodeDB}.

Lemma search_hit (m : Re.matcher) (s : pystr) (n : nat) :
  m s = Some n -> Re.search m s = Some (firstn n s).
Proof. intros H. destruct s; simpl; rewrite H; reflexivity. Qed.

Lemma search_bare_skip (pre s : pystr) :
  Forall (fun c => c <> 82%N) pre ->
  Re.search Re.match_bare (pre ++ s) = Re.search Re.match_bare s.
Proof.
  induction 1 as [|c pre Hc _ IH]; [reflexivity|].
  simpl. rewrite match_bare_head by exact Hc. exact IH.
Qed.

Lemma parse_no_marker (text : pystr) :
  PyStr.contains MARKER text = false ->
  parse_ranking_from_text text = Ok (Re.findall Re.match_bare text).
Proof. intros H. unfold parse_ranking_from_text. rewrite H. reflexivity. Qed.

Lemma parse_marker (text : pystr) :
  PyStr.contains MARKER text = true ->
  parse_ranking_from_text text = extract_ranking (restricted_text text).
Proof.
  intros H. unfold parse_ranking_from_text. rewrite H.
  destruct (split_marker_parts text H) as (before & others & ->).
  reflexivity.
Qed.

Lemma extract_ranking_bare (section : pystr) :
  Re.findall Re.match_numbered section = [] ->
  extract_ranking section = Ok (Re.findall Re.match_bare section).
Proof. intros H. unfold extract_ranking. rewrite H. reflexivity. Qed.

Lemma extract_ranking_numbered (section : pystr) :
  Re.findall Re.match_numbered section <> [] ->
  extract_ranking section
  = rmap group_of_search (Re.findall Re.match_numbered section).
Proof.
  intros H. unfold extract_ranking.
  destruct (Re.findall Re.match_numbered section); [contradiction|reflexivity].
Qed.

Section Ascii.
Hypothesis Hascii : ascii_compatible db.

Lemma decimal_not_R (ds : pystr) :
  forallb is_decimal ds = true -> Forall (fun c => c <> 82%N) ds.
Proof.
  rewrite forallb_forall, Forall_forall. intros H c Hc ->.
  specialize (H _ Hc). destruct (Hascii 82%N) as [E _]; [reflexivity|].
  rewrite E in H. discriminate.
Qed.

Lemma whitespace_not_R (ws : pystr) :
  forallb is_whitespace ws = true -> Forall (fun c => c <> 82%N) ws.
Proof.
  rewrite forallb_forall, Forall_forall. intros H c Hc ->.
  specialize (H _ Hc). destruct (Hascii 82%N) as [_ E]; [reflexivity|].
  rewrite E in H. discriminate.
Qed.

(** The label the parser takes out of a numbered match is the label
    the match ends with. *)
Lemma group_of_search_entry (m l : pystr) :
  numbered_entry m l -> group_of_search m = Ok l.
Proof.
  intros (ds & ws & -> & _ & Hd & Hw & c & U & ->).
  unfold group_of_search.
  rewrite !search_bare_skip;
    auto using decimal_not_R, whitespace_not_R;
    [|repeat constructor; discriminate].
  rewrite (search_hit _ _ 10).
  - rewrite firstn_all2; [reflexivity|].
    rewrite length_response_label. lia.
  - rewrite <- (app_nil_r (response_label c)).
    apply match_bare_label. exact U.
Qed.

Lemma rmap_group_of_search (ms : list pystr) :
  Forall (fun m => exists l, numbered_entry m l) ms ->
  exists ls,
    rmap group_of_search ms = Ok ls /\ Forall2 numbered_entry ms ls.
Proof.
  induction 1 as [|m ms (l & Hl) _ (ls & E & F)].
  - exists []. split; [reflexivity|constructor].
  - exists (l :: ls). simpl.
    rewrite (group_of_search_entry _ _ Hl). simpl. rewrite E. simpl.
    split; [reflexivity|constructor; assumption].
Qed.

Lemma numbered_matches_entries (section : pystr) :
  Forall (fun m => exists l, numbered_entry m l)
         (Re.findall Re.match_numbered section).
Proof.
  apply Forall_forall. intros m H.
  apply findall_numbered_In in H as [_ H]. exact H.
Qed.

Lemma numbered_entry_occurs (m l : pystr) :
  numbered_entry m l -> is_label l /\ occurs_in l m.
Proof.
  intros (ds & ws & -> & _ & _ & _ & Hl). split; [exact Hl|].
  exists (ds ++ [46%N] ++ ws), []. rewrite app_nil_r, <- !app_assoc.
  reflexivity.
Qed.

Lemma extract_ranking_total (section : pystr) :
  exists labels,
    extract_ranking section = Ok labels /\
    Forall (fun l => is_label l /\ occurs_in l section) labels.
Proof.
  destruct (Re.findall Re.match_numbered section) as [|m0 ms] eqn:E.
  - exists (Re.findall Re.match_bare section).
    split; [apply extract_ranking_bare, E|].
    apply Forall_forall. intros l. apply findall_bare_In.
  - destruct (rmap_group_of_search _ (numbered_matches_entries section))
      as (ls & R & F).
    exists ls. split.
    + rewrite extract_ranking_numbered by (rewrite E; discriminate).
      exact R.
    + assert (Hocc : Forall (fun m => occurs_in m section)
                       (Re.findall Re.match_numbered section)).
      { apply Forall_forall. intros m H.
        apply findall_numbered_In in H as [H _]. exact H. }
      clear R E. induction F as [|m l ms' ls' Hml _ IH]; [constructor|].
      inversion Hocc; subst. constructor; [|apply IH; assumption].
      apply numbered_entry_occurs in Hml as [Hl Ho]. split; [exact Hl|].
      eapply occurs_in_trans; eassumption.
Qed.

Lemma parse_total (text : pystr) :
  exists labels,
    parse_ranking_from_text text = Ok labels /\
    Forall (fun l => is_label l /\ occurs_in l text) labels.
Proof.
  destruct (PyStr.contains MARKER text) eqn:C.
  - destruct (extract_ranking_total (restricted_text text)) as (ls & E & F).
    exists ls. split; [rewrite parse_marker by exact C; exact E|].
    eapply Forall_impl; [|exact F]. simpl. intros l [Hl Ho].
    split; [exact Hl|].
    eapply occurs_in_trans; [exact Ho|apply restricted_text_occurs].
  - exists (Re.findall Re.match_bare text).
    split; [apply parse_no_marker, C|].
    apply Forall_forall. intros l. apply findall_bare_In.
Qed.



End Ascii.

(** When the marker occurs twice or more, the parser searches the text
    between the first occurrence and the second one, and nothing after the
    second. *)
Lemma parse_between_first_two_markers (text : pystr) (i j : nat) :
  PyStr.find MARKER text = Some i ->
  PyStr.find MARKER (skipn (i + length MARKER) text) = Some j ->
  parse_ranking_from_text text
  = extract_ranking (firstn j (skipn (i + length MARKER) text)).
Proof.
  intros F G. rewrite parse_marker by (eapply find_some_contains; exact F).
  unfold restricted_text, after_first_marker, up_to_marker.
  rewrite F, G. reflexivity.
Qed.

End ParserFacts.

Lemma unicode14_ascii : ascii_compatible unicode14.
Proof.
  assert (H : forallb (fun n =>
              let c := N.of_nat n in
              Bool.eqb (unicode14_decimal c) (ascii_decimal c)
              && Bool.eqb (unicode14_whitespace c) (ascii_whitespace c))
            (seq 0 128) = true) by (vm_compute; reflexivity).
  rewrite forallb_forall in H. intros c Hc.
  specialize (H (N.to_nat c)). rewrite N2Nat.id in H.
  assert (Hin : In (N.to_nat c) (seq 0 128)) by (apply in_seq; lia).
  apply H, andb_true_iff in Hin as [E1 E2].
  apply Bool.eqb_prop in E1, E2. split; assumption.
Qed.



Lemma parse_between_first_two_markers_witness :
  PyStr.find MARKER two_markers = Some 0%nat /\
  PyStr.find MARKER (skipn (0 + length MARKER) two_markers) = Some 15%nat /\
  parse_ranking_from_text two_markers
  = extract_ranking (firstn 15 (skipn (0 + length MARKER) two_markers)).
Proof.
  split; [reflexivity|]. split; [reflexivity|].
  apply (parse_between_first_two_markers two_markers 0 15); reflexivity.
Defined.

(** C1, on the code.  The step that is to keep the text after the marker
    splits the text at every occurrence of the marker and takes the second
    part, so the parser reads the text between the first two occurrences
    only.  An evaluator that names the marker before its ranking loses the
    ranking: the text after the first occurrence holds the entries of B and
    of A, and the parser returns no label.  With an entry after each of two
    markers the parser returns the first entry only. *)
Theorem parse_stops_at_second_marker :
  (PyStr.find MARKER quoted_marker = Some 10%nat /\
   extract_ranking (skipn (10 + length MARKER) quoted_marker)
   = Ok [PyStr.str "Response B"; PyStr.str "Response A"] /\
   parse_ranking_from_text quoted_marker = Ok []) /\
  (PyStr.find MARKER two_markers = Some 0%nat /\
   extract_ranking (skipn (0 + length MARKER) two_markers)
   = Ok [PyStr.str "Response A"; PyStr.str "Response B"] /\
   parse_ranking_from_text two_markers = Ok [PyStr.str "Response A"]).
Proof.
  repeat split; vm_compute; reflexivity.
Qed.

(** ** Dictionaries *)

Lemma existsb_eqb_In (m : pystr) (l : list pystr) :
  existsb (PyStr.eqb m) l = true <-> In m l.
Proof.
  rewrite existsb_exists. split.
  - intros (x & Hx & E). apply eqb_spec_str in E. subst. exact Hx.
  - intros H. exists m. split; [exact H|apply eqb_refl_str].
Qed.

Lemma first_occurrences_In (l : list pystr) (y : pystr) :
  In y (first_occurrences l) <-> In y l.
Proof.
  induction l as [|x l IH]; simpl; [reflexivity|].
  rewrite filter_In, IH, negb_true_iff, eqb_neq_str.
  destruct (PyStr.eqb y x) eqn:E.
  - apply eqb_spec_str in E. subst. split; auto.
  - apply eqb_neq_str in E. split.
    + intros [H|[H _]]; auto.
    + intros [H|H]; auto.
Qed.

Lemma first_occurrences_NoDup (l : list pystr) : NoDup (first_occurrences l).
Proof.
  induction l as [|x l IH]; simpl; constructor.
  - rewrite filter_In, negb_true_iff, eqb_neq_str. intros [_ H]. congruence.
  - apply NoDup_filter, IH.
Qed.

Lemma first_occurrences_snoc (l : list pystr) (m : pystr) :
  first_occurrences (l ++ [m])
  = if existsb (PyStr.eqb m) (first_occurrences l)
    then first_occurrences l
    else first_occurrences l ++ [m].
Proof.
  induction l as [|x l IH]; [reflexivity|].
  cbn [app first_occurrences existsb]. rewrite IH.
  set (F := filter (fun y => negb (PyStr.eqb y x)) (first_occurrences l)).
  destruct (PyStr.eqb m x) eqn:E.
  - apply eqb_spec_str in E. subst m. cbn [orb].
    destruct (existsb (PyStr.eqb x) (first_occurrences l)); [reflexivity|].
    rewrite filter_app. cbn [filter]. rewrite eqb_refl_str. cbn [negb].
    rewrite app_nil_r. reflexivity.
  - cbn [orb].
    assert (H : existsb (PyStr.eqb m) F
                = existsb (PyStr.eqb m) (first_occurrences l)).
    { apply eq_true_iff_eq. rewrite !existsb_eqb_In. unfold F.
      rewrite filter_In, E. cbn [negb]. tauto. }
    rewrite H.
    destruct (existsb (PyStr.eqb m) (first_occurrences l)); [reflexivity|].
    rewrite filter_app. cbn [filter]. rewrite E. reflexivity.
Qed.

Lemma first_occurrences_NoDup_id (l : list pystr) :
  NoDup l -> first_occurrences l = l.
Proof.
  induction 1 as [|x l Hx _ IH]; [reflexivity|].
  cbn [first_occurrences]. rewrite IH. f_equal.
  apply forallb_filter_id, forallb_forall. intros y Hy.
  apply negb_true_iff, eqb_neq_str. congruence.
Qed.

Section DictFacts.
Context {V : Type}.
Implicit Types (d : Dict.t V) (k : pystr) (v : V).

Lemma get_none_iff k d : Dict.get k d = None <-> ~ In k (Dict.keys d).
Proof.
  induction d as [|[k' v'] d IH]; simpl.
  - split; auto.
  - destruct (PyStr.eqb k k') eqn:E.
    + apply eqb_spec_str in E. subst. split; [discriminate|].
      intros H. exfalso. apply H. left. reflexivity.
    + apply eqb_neq_str in E. rewrite IH. split.
      * intros H [H'|H']; [congruence|contradiction].
      * intros H H'. apply H. right. exact H'.
Qed.

Lemma set_absent k v d :
  Dict.get k d = None -> Dict.set k v d = d ++ [(k, v)].
Proof.
  induction d as [|[k' v'] d IH]; simpl; [reflexivity|].
  destruct (PyStr.eqb k k'); [discriminate|].
  intros H. rewrite IH by exact H. reflexivity.
Qed.

Lemma keys_set k v d :
  Dict.keys (Dict.set k v d)
  = if existsb (PyStr.eqb k) (Dict.keys d)
    then Dict.keys d
    else Dict.keys d ++ [k].
Proof.
  unfold Dict.keys.
  induction d as [|[k' v'] d IH]; [reflexivity|].
  cbn [Dict.set map fst existsb].
  destruct (PyStr.eqb k k'); [reflexivity|].
  cbn [map fst orb]. rewrite IH.
  destruct (existsb (PyStr.eqb k) (map fst d)); reflexivity.
Qed.

(** The keys of a comprehension are the keys of the pairs, each at its
    first occurrence. *)
Lemma keys_of_items (pairs : list (pystr * V)) :
  Dict.keys (Dict.of_items pairs) = first_occurrences (map fst pairs).
Proof.
  unfold Dict.of_items.
  induction pairs as [|[k v] pairs IH] using rev_ind; [reflexivity|].
  rewrite fold_left_app, map_app. cbn [fold_left map fst snd].
  rewrite keys_set, IH, first_occurrences_snoc. reflexivity.
Qed.

(** A comprehension over pairs with distinct keys keeps them as they
    come. *)
Lemma fold_set_nodup (pairs : list (pystr * V)) d :
  NoDup (Dict.keys d ++ map fst pairs) ->
  fold_left (fun d kv => Dict.set (fst kv) (snd kv) d) pairs d = d ++ pairs.
Proof.
  revert d; induction pairs as [|[k v] pairs IH]; intros d H; simpl.
  - rewrite app_nil_r. reflexivity.
  - simpl in H. rewrite set_absent.
    + rewrite IH.
      * rewrite <- app_assoc. reflexivity.
      * unfold Dict.keys. rewrite map_app. simpl. rewrite <- app_assoc.
        exact H.
    + apply get_none_iff. apply NoDup_remove_2 in H.
      intros H'. apply H. apply in_or_app. left. exact H'.
Qed.

Lemma of_items_nodup (pairs : list (pystr * V)) :
  NoDup (map fst pairs) -> Dict.of_items pairs = pairs.
Proof.
  intros H. unfold Dict.of_items. rewrite fold_set_nodup; [reflexivity|].
  exact H.
Qed.

Lemma get_combine_nth (ks : list pystr) (vs : list V) :
  NoDup ks -> length ks = length vs ->
  forall i k, nth_error ks i = Some k ->
    Dict.get k (combine ks vs) = nth_error vs i.
Proof.
  intros Hnd. revert vs; induction Hnd as [|k0 ks Hk0 _ IH];
    intros [|v vs] L i k; simpl in *; try discriminate.
  - destruct i; discriminate.
  - injection L as L.
    destruct i as [|i]; simpl.
    + intros [= ->]. rewrite eqb_refl_str. reflexivity.
    + intros H. destruct (PyStr.eqb k k0) eqn:E.
      * apply eqb_spec_str in E. subst. apply nth_error_In in H.
        contradiction.
      * apply IH; assumption.
Qed.

End DictFacts.

(** ** The fan-out *)

Section FanOut.
Context {gw : Gateway}.

Lemma gather_query_model (messages : list Message) (models : list pystr) :
  forall tr,
    gather (map (fun model => query_model model messages 120) models) tr
    = (Ok (fanout_outcomes tr messages models),
       tr ++ map (fanout_call messages) models).
Proof.
  induction models as [|model rest IH]; intros tr; simpl.
  - unfold ret. rewrite app_nil_r. reflexivity.
  - unfold bind at 1. unfold query_model at 1.
    unfold bind at 1. rewrite IH. unfold ret.
    rewrite <- app_assoc. reflexivity.
Qed.

Lemma length_fanout_outcomes (messages : list Message) (models : list pystr) :
  forall tr, length (fanout_outcomes tr messages models) = length models.
Proof.
  induction models as [|model rest IH]; intros tr; simpl; [reflexivity|].
  rewrite IH. reflexivity.
Qed.

Lemma query_models_parallel_run (models : list pystr)
      (messages : list Message) (tr : list Call) :
  query_models_parallel models messages tr
  = (Ok (Dict.of_items (combine models (fanout_outcomes tr messages models))),
     tr ++ map (fanout_call messages) models).
Proof.
  unfold query_models_parallel, bind. rewrite gather_query_model.
  reflexivity.
Qed.

Lemma count_present_absent {A} (l : list (option A)) :
  (length (filter present l) + length (filter absent l) = length l)%nat.
Proof.
  induction l as [|[a|] l IH]; simpl; lia.
Qed.

(** C6.  The fan-out over a roster of [N] distinct models returns a
    mapping with exactly [N] keys, the models of the roster; every model
    is mapped to the outcome of its own request, absence exactly when
    that request failed; with [k] failed requests exactly [N - k] values
    are present. *)
Theorem fan_out_keeps_every_model (models : list pystr)
        (messages : list Message) (tr : list Call) :
  NoDup models ->
  let outcomes := fanout_outcomes tr messages models in
  let N := length models in
  let k := length (filter absent outcomes) in
  exists d tr',
    query_models_parallel models messages tr = (Ok d, tr') /\
    Dict.keys d = models /\
    length (Dict.keys d) = N /\
    (forall i model, nth_error models i = Some model ->
       Dict.get model d = nth_error outcomes i) /\
    length (filter absent (Dict.values d)) = k /\
    length (filter present (Dict.values d)) = (N - k)%nat.
Proof.
  intros Hnd outcomes N k.
  assert (L : length models = length outcomes)
    by (symmetry; apply length_fanout_outcomes).
  exists (combine models outcomes), (tr ++ map (fanout_call messages) models).
  assert (Hk : Dict.keys (combine models outcomes) = models).
  { unfold Dict.keys. clearbody outcomes. clear -L.
    revert outcomes L; induction models; intros [|o os] L;
      simpl in *; try discriminate; try reflexivity.
    injection L as L. rewrite IHmodels by exact L. reflexivity. }
  assert (Hv : Dict.values (combine models outcomes) = outcomes).
  { unfold Dict.values. clearbody outcomes. clear -L.
    revert outcomes L; induction models; intros [|o os] L;
      simpl in *; try discriminate; try reflexivity.
    injection L as L. rewrite IHmodels by exact L. reflexivity. }
  split; [|split; [|split; [|split; [|split]]]].
  - rewrite query_models_parallel_run. fold outcomes.
    rewrite of_items_nodup; [reflexivity|].
    fold (Dict.keys (combine models outcomes)). rewrite Hk. exact Hnd.
  - exact Hk.
  - rewrite Hk. reflexivity.
  - intros i model H. apply get_combine_nth; assumption.
  - rewrite Hv. reflexivity.
  - rewrite Hv. subst N k. rewrite L.
    pose proof (count_present_absent outcomes). lia.
Qed.

End FanOut.

Lemma roster_xyz_distinct : NoDup [model_X; model_Y; model_Z].
Proof.
  repeat constructor; simpl; intuition discriminate.
Qed.

Lemma fan_out_keeps_every_model_witness :
  NoDup [model_X; model_Y; model_Z] /\
  exists d tr',
    @query_models_parallel gateway_xyz [model_X; model_Y; model_Z]
      (user_message query_2_plus_2) [] = (Ok d, tr') /\
    Dict.keys d = [model_X; model_Y; model_Z] /\
    length (filter absent (Dict.values d)) = 1%nat /\
    length (filter present (Dict.values d)) = 2%nat.
Proof.
  split; [exact roster_xyz_distinct|].
  destruct (@fan_out_keeps_every_model gateway_xyz
              [model_X; model_Y; model_Z] (user_message query_2_plus_2) []
              roster_xyz_distinct)
    as (d & tr' & Hrun & Hkeys & _ & _ & Habsent & Hpresent).
  exists d, tr'. repeat split; assumption.
Defined.

(** ** Stage 1 and the anonymizer *)

Lemma combine_map_pair {A B C D} (f : A -> C) (g : B -> D)
      (l : list A) (l' : list B) :
  map (fun p => (f (fst p), g (snd p))) (combine l l')
  = combine (map f l) (map g l').
Proof.
  revert l'; induction l as [|a l IH]; intros [|b l']; simpl;
    try reflexivity.
  rewrite IH. reflexivity.
Qed.

Lemma map_fst_combine {A B} (l : list A) (l' : list B) :
  length l = length l' -> map fst (combine l l') = l.
Proof.
  revert l'; induction l as [|a l IH]; intros [|b l']; simpl;
    try discriminate; try reflexivity.
  intros [= L]. rewrite IH by exact L. reflexivity.
Qed.

Lemma map_snd_combine {A B} (l : list A) (l' : list B) :
  length l = length l' -> map snd (combine l l') = l'.
Proof.
  revert l'; induction l as [|a l IH]; intros [|b l']; simpl;
    try discriminate; try reflexivity.
  intros [= L]. rewrite IH by exact L. reflexivity.
Qed.

Lemma response_label_inj (c c' : char) :
  response_label c = response_label c' -> c = c'.
Proof.
  unfold response_label. intros H. apply app_inv_head in H.
  congruence.
Qed.

Lemma label_at_inj (i j : nat) : label_at i = label_at j -> i = j.
Proof.
  unfold label_at. intros H. apply response_label_inj in H. lia.
Qed.

Lemma labels_distinct (i n : nat) : NoDup (map label_at (seq i n)).
Proof.
  apply Injective_map_NoDup; [|apply seq_NoDup].
  intros a b. apply label_at_inj.
Qed.

Lemma nth_error_labels (n i : nat) :
  (i < n)%nat -> nth_error (map label_at (seq 0 n)) i = Some (label_at i).
Proof.
  intros H. rewrite nth_error_map, nth_error_seq.
  destruct (Nat.ltb_spec i n); [reflexivity|lia].
Qed.

(** The label map, as a list of items: the labels in order against the
    models in order. *)
Lemma label_to_model_items (stage1_results : list Stage1Result) :
  Dict.items (make_label_to_model stage1_results)
  = combine (map label_at (seq 0 (length stage1_results)))
            (map s1_model stage1_results).
Proof.
  unfold make_label_to_model, make_labels, Dict.items.
  rewrite (combine_map_pair response_label s1_model), map_map.
  fold label_at. change (fun x => response_label (N.of_nat (65 + x))) with label_at.
  apply of_items_nodup.
  rewrite map_fst_combine by (rewrite !length_map, length_seq; reflexivity).
  apply labels_distinct.
Qed.

Lemma label_to_model_get (stage1_results : list Stage1Result) (i : nat)
      (r : Stage1Result) :
  nth_error stage1_results i = Some r ->
  Dict.get (label_at i) (make_label_to_model stage1_results)
  = Some (s1_model r).
Proof.
  intros H.
  change (make_label_to_model stage1_results)
    with (Dict.items (make_label_to_model stage1_results)).
  rewrite label_to_model_items.
  assert (Hi : (i < length stage1_results)%nat)
    by (apply nth_error_Some; congruence).
  rewrite (get_combine_nth _ _ (labels_distinct 0 _)) with (i := i).
  - rewrite nth_error_map, H. reflexivity.
  - rewrite !length_map, length_seq. reflexivity.
  - apply nth_error_labels, Hi.
Qed.

Lemma combine_map_l {A B C} (f : A -> C) (l : list A) (l' : list B) :
  combine (map f l) l' = map (fun p => (f (fst p), snd p)) (combine l l').
Proof.
  revert l'; induction l as [|a l IH]; intros [|b l']; simpl;
    try reflexivity.
  rewrite IH. reflexivity.
Qed.

Lemma join_block_from (records : list Stage1Result) :
  forall i,
    PyStr.join (NEWLINE ++ NEWLINE)
      (map (fun p => block_entry (fst p) (snd p))
           (combine (seq i (length records)) records))
    = block_from i records.
Proof.
  induction records as [|r rest IH]; intros i; [reflexivity|].
  specialize (IH (S i)).
  destruct rest as [|r' rest]; [reflexivity|].
  cbn [length seq map combine fst snd PyStr.join block_from] in *.
  rewrite IH. rewrite <- !app_assoc. reflexivity.
Qed.

Lemma responses_text_block (stage1_results : list Stage1Result) :
  make_responses_text stage1_results = block_from 0 stage1_results.
Proof.
  unfold make_responses_text, make_labels.
  rewrite combine_map_l, map_map. apply join_block_from.
Qed.

Lemma alphabet_letters (m : nat) :
  (m <= 26)%nat ->
  firstn m ALPHABET = map (fun i => N.of_nat (65 + i)) (seq 0 m).
Proof.
  intros H.
  do 27 (destruct m as [|m]; [vm_compute; reflexivity|]).
  exfalso. lia.
Qed.

Lemma alphabet_nth (i : nat) (letter : char) :
  nth_error ALPHABET i = Some letter -> letter = N.of_nat (65 + i).
Proof.
  assert (E : ALPHABET = map (fun i => N.of_nat (65 + i)) (seq 0 26))
    by (vm_compute; reflexivity).
  rewrite E, nth_error_map, nth_error_seq.
  destruct (i <? 26)%nat; cbn [option_map]; [|discriminate].
  intros H.
  apply (f_equal (fun o => match o with Some c => c | None => letter end))
    in H.
  symmetry. exact H.
Qed.

Lemma label_at_literal (i : nat) :
  label_at i = PyStr.str "Response " ++ [N.of_nat (65 + i)].
Proof. reflexivity. Qed.

Lemma anonymised_block_from (records : list Stage1Result) :
  forall i,
    block_from i records
    = anonymised_block
        (combine (map (fun k => N.of_nat (65 + k)) (seq i (length records)))
                 records).
Proof.
  induction records as [|r records IH]; intros i; [reflexivity|].
  destruct records as [|r' records]; [reflexivity|].
  change (block_from i (r :: r' :: records))
    with (block_entry i r ++ NEWLINE ++ NEWLINE
          ++ block_from (S i) (r' :: records)).
  rewrite IH. reflexivity.
Qed.

(** C7.  The anonymizer on [m] records with distinct models, [m <= 26]:
    the label map has exactly [m] entries; its keys are the texts
    [Response A], [Response B], ... made of the first [m] capital letters,
    in the order of the records, the record at place [i] under the [i]-th
    letter; the models the keys are mapped to are distinct; and the
    rendered block is made of the entries [Response <letter>:], each
    followed by its answer, in the order of the records, a blank line
    between two of them. *)
Theorem anonymizer_labels_by_position (stage1_results : list Stage1Result) :
  NoDup (map s1_model stage1_results) ->
  (length stage1_results <= 26)%nat ->
  let m := length stage1_results in
  let label_to_model := make_label_to_model stage1_results in
  let letters := firstn m ALPHABET in
  length (Dict.items label_to_model) = m /\
  length letters = m /\
  Dict.keys label_to_model
  = map (fun letter => PyStr.str "Response " ++ [letter]) letters /\
  (forall i r letter,
     nth_error stage1_results i = Some r ->
     nth_error ALPHABET i = Some letter ->
     nth_error (Dict.keys label_to_model) i
     = Some (PyStr.str "Response " ++ [letter]) /\
     Dict.get (PyStr.str "Response " ++ [letter]) label_to_model
     = Some (s1_model r)) /\
  NoDup (Dict.values label_to_model) /\
  make_responses_text stage1_results
  = anonymised_block (combine letters stage1_results).
Proof.
  intros Hnd Hm m label_to_model letters.
  assert (Hletters : letters = map (fun i => N.of_nat (65 + i)) (seq 0 m))
    by (apply alphabet_letters, Hm).
  pose proof (label_to_model_items stage1_results) as Hitems.
  fold m label_to_model in Hitems. unfold Dict.items in Hitems.
  assert (Hlen : length (map label_at (seq 0 m))
                 = length (map s1_model stage1_results))
    by (rewrite !length_map, length_seq; reflexivity).
  assert (Hkeys : Dict.keys label_to_model = map label_at (seq 0 m)).
  { unfold Dict.keys. rewrite Hitems. apply map_fst_combine, Hlen. }
  split; [|split; [|split; [|split; [|split]]]].
  - unfold Dict.items. rewrite Hitems, length_combine, <- Hlen, Nat.min_id.
    rewrite length_map, length_seq. reflexivity.
  - rewrite Hletters, length_map, length_seq. reflexivity.
  - rewrite Hkeys, Hletters, map_map. apply map_ext. intros i.
    apply label_at_literal.
  - intros i r letter H Hl. apply alphabet_nth in Hl. subst letter.
    assert (Hi : (i < m)%nat) by (apply nth_error_Some; congruence).
    rewrite <- label_at_literal. split.
    + rewrite Hkeys. apply nth_error_labels, Hi.
    + apply label_to_model_get, H.
  - unfold Dict.values. rewrite Hitems, map_snd_combine by exact Hlen.
    exact Hnd.
  - rewrite responses_text_block, anonymised_block_from, Hletters.
    reflexivity.
Qed.

Lemma anonymizer_labels_by_position_witness :
  NoDup (map s1_model answers_xy) /\
  (length answers_xy <= 26)%nat /\
  Dict.items (make_label_to_model answers_xy)
  = [(PyStr.str "Response A", model_X); (PyStr.str "Response B", model_Y)] /\
  make_responses_text answers_xy
  = PyStr.str "Response A:
4

Response B:
It is 4.".
Proof.
  assert (Hnd : NoDup (map s1_model answers_xy))
    by (repeat constructor; simpl; intuition discriminate).
  assert (Hm : (length answers_xy <= 26)%nat) by (simpl; lia).
  split; [exact Hnd|]. split; [exact Hm|].
  destruct (anonymizer_labels_by_position answers_xy Hnd Hm)
    as (_ & _ & Hkeys & _ & _ & Hblock).
  split; [reflexivity|]. rewrite Hblock. reflexivity.
Defined.

Section Stage1.
Context {gw : Gateway} {cfg : Config}.

(** Stage 1 keeps the keys of the mapping that hold an answer, in the
    order of the mapping. *)
Lemma stage1_models (responses : Dict.t (option Response)) :
  NoDup (Dict.keys responses) ->
  map s1_model (stage1_results_of (Dict.items responses))
  = filter (succeeded responses) (Dict.keys responses).
Proof.
  unfold Dict.items, succeeded.
  induction responses as [|[model r] d IH]; [reflexivity|].
  cbn [Dict.keys map fst]. intros Hnd.
  apply NoDup_cons_iff in Hnd as [Hnotin Hnd].
  assert (E : filter (fun m => match Dict.get m ((model, r) :: d) with
                               | Some (Some _) => true
                               | _ => false
                               end) (map fst d)
              = filter (fun m => match Dict.get m d with
                                 | Some (Some _) => true
                                 | _ => false
                                 end) (map fst d)).
  { apply filter_ext_in. intros k Hk. cbn [Dict.get].
    destruct (PyStr.eqb k model) eqn:E; [|reflexivity].
    apply eqb_spec_str in E. subst. contradiction. }
  assert (Hhead : Dict.get model ((model, r) :: d) = Some r)
    by (cbn [Dict.get]; rewrite eqb_refl_str; reflexivity).
  cbn [filter]. rewrite Hhead, E. cbn [stage1_results_of].
  destruct r as [r|]; cbn [map s1_model]; rewrite (IH Hnd); reflexivity.
Qed.

(** C10.  Stage 1 keeps the order of the roster.  The mapping the fan-out
    returns lists the models in request order (each model once, at its
    first place in the roster; the roster itself when its models are
    distinct); the stage-1 records are the models of the mapping that
    succeeded, in that order; and the anonymizer gives the [i]-th record
    the [i]-th label. *)
Theorem stage1_keeps_roster_order (user_query : pystr) (tr : list Call) :
  exists responses stage1_results tr',
    query_models_parallel COUNCIL_MODELS (user_message user_query) tr
    = (Ok responses, tr') /\
    stage1_collect_responses user_query tr = (Ok stage1_results, tr') /\
    Dict.keys responses = first_occurrences COUNCIL_MODELS /\
    (NoDup COUNCIL_MODELS -> Dict.keys responses = COUNCIL_MODELS) /\
    map s1_model stage1_results
    = filter (succeeded responses) (Dict.keys responses) /\
    (forall i r, nth_error stage1_results i = Some r ->
       Dict.get (label_at i) (make_label_to_model stage1_results)
       = Some (s1_model r)).
Proof.
  set (outcomes := fanout_outcomes tr (user_message user_query) COUNCIL_MODELS).
  set (responses := Dict.of_items (combine COUNCIL_MODELS outcomes)).
  assert (Hkeys : Dict.keys responses = first_occurrences COUNCIL_MODELS).
  { unfold responses. rewrite keys_of_items, map_fst_combine; [reflexivity|].
    symmetry. apply length_fanout_outcomes. }
  exists responses, (stage1_results_of (Dict.items responses)),
         (tr ++ map (fanout_call (user_message user_query)) COUNCIL_MODELS).
  split; [|split; [|split; [|split; [|split]]]].
  - apply query_models_parallel_run.
  - unfold stage1_collect_responses, bind.
    rewrite query_models_parallel_run. reflexivity.
  - exact Hkeys.
  - intros Hnd. rewrite Hkeys. apply first_occurrences_NoDup_id, Hnd.
  - apply stage1_models. rewrite Hkeys. apply first_occurrences_NoDup.
  - intros i r. apply label_to_model_get.
Qed.

End Stage1.

Lemma stage1_keeps_roster_order_witness :
  NoDup (@COUNCIL_MODELS config_xyz) /\
  exists responses tr',
    @stage1_collect_responses gateway_xyz config_xyz query_2_plus_2 []
    = (Ok answers_xy, tr') /\
    Dict.keys responses = [model_X; model_Y; model_Z] /\
    map s1_model answers_xy = filter (succeeded responses) (Dict.keys responses) /\
    map s1_model answers_xy = [model_X; model_Y] /\
    Dict.get (label_at 1) (make_label_to_model answers_xy) = Some model_Y.
Proof.
  split; [exact roster_xyz_distinct|].
  destruct (@stage1_keeps_roster_order gateway_xyz config_xyz
              query_2_plus_2 [])
    as (responses & stage1_results & tr' & _ & Hrun & _ & Hkeys & Hmodels
        & Hlabel).
  assert (E : stage1_results = answers_xy).
  { vm_compute in Hrun. injection Hrun as <- _. reflexivity. }
  subst stage1_results. exists responses, tr'.
  split; [exact Hrun|]. split; [exact (Hkeys roster_xyz_distinct)|].
  split; [exact Hmodels|]. split; [reflexivity|].
  apply (Hlabel 1%nat
           {| s1_model := model_Y; s1_response := Some (PyStr.str "It is 4.") |}).
  reflexivity.
Defined.

(** ** The pipeline *)

Section Pipeline.
Context {db : UnicodeDB} {gw : Gateway} {cfg : Config}.

Lemma stage1_results_of_absent (items : list (pystr * option Response)) :
  Forall (fun r => r = None) (map snd items) ->
  stage1_results_of items = [].
Proof.
  induction items as [|[model r] items IH]; simpl; [reflexivity|].
  intros H. apply Forall_cons_iff in H as [Hr Hrest]. subst r.
  apply IH, Hrest.
Qed.

(** C3.  When the fan-out of stage 1 returns absence for every model of
    the roster, the pipeline returns, without raising, the empty list of
    stage 1, the empty list of stage 2, the synthesis result with the
    fixed failure message and the empty metadata; the trace of requests
    is the one the fan-out left: the requests of stage 1 and no other. *)
Theorem all_failed_is_terminal (user_query : pystr) (tr : list Call)
        (responses : Dict.t (option Response)) (tr' : list Call) :
  query_models_parallel COUNCIL_MODELS (user_message user_query) tr
  = (Ok responses, tr') ->
  Forall (fun r => r = None) (Dict.values responses) ->
  run_full_council user_query tr
  = (Ok ([], [], all_failed_result, MetadataEmpty), tr') /\
  tr' = tr ++ map (fanout_call (user_message user_query)) COUNCIL_MODELS.
Proof.
  intros Hrun Habsent. split.
  - unfold run_full_council, stage1_collect_responses.
    unfold bind at 1. unfold bind at 1. rewrite Hrun. unfold ret at 1.
    unfold Dict.items. rewrite stage1_results_of_absent by exact Habsent.
    reflexivity.
  - rewrite query_models_parallel_run in Hrun. congruence.
Qed.

Lemma stage2_results_of_parsed (items : list (pystr * option Response)) :
  forall records,
    stage2_results_of items = Ok records ->
    Forall (fun r => parse_ranking_from_text (s2_ranking r)
                     = Ok (s2_parsed_ranking r)) records.
Proof.
  induction items as [|[model [r|]] items IH]; simpl; intros records.
  - intros [= <-]. constructor.
  - destruct (content r) as [full_text|]; [|discriminate].
    destruct (parse_ranking_from_text full_text) as [parsed|] eqn:P;
      simpl; [|discriminate].
    destruct (stage2_results_of items) as [results|]; simpl; [|discriminate].
    intros [= <-]. constructor; [exact P|]. apply IH. reflexivity.
  - apply IH.
Qed.

Lemma collect_positions_stored (label_to_model : Dict.t pystr)
      (records : list Stage2Result) :
  Forall (fun r => parse_ranking_from_text (s2_ranking r)
                   = Ok (s2_parsed_ranking r)) records ->
  forall model_positions,
    collect_positions records label_to_model model_positions
    = Ok (collect_stored records label_to_model model_positions).
Proof.
  induction 1 as [|r records Hr _ IH]; intros mp; simpl; [reflexivity|].
  rewrite Hr. simpl. apply IH.
Qed.

(** C9.  Every ranking record a run of stage 2 produces stores the
    parsed order the parser gives on its raw text; and the aggregator,
    which parses the raw texts again, computes on these records the
    aggregate computed from the stored parsed orders. *)
Theorem aggregator_reparse_agrees (user_query : pystr)
        (stage1_results : list Stage1Result) (tr : list Call)
        (stage2_results : list Stage2Result)
        (label_to_model : Dict.t pystr) (tr' : list Call) :
  stage2_collect_rankings user_query stage1_results tr
  = (Ok (stage2_results, label_to_model), tr') ->
  Forall (fun r => parse_ranking_from_text (s2_ranking r)
                   = Ok (s2_parsed_ranking r)) stage2_results /\
  forall label_map,
    calculate_aggregate_rankings stage2_results label_map
    = Ok (aggregate_from_parsed stage2_results label_map).
Proof.
  unfold stage2_collect_rankings, bind, lift, ret.
  rewrite query_models_parallel_run.
  destruct (stage2_results_of _) as [records|] eqn:E; [|discriminate].
  intros [= <- _ _]. apply stage2_results_of_parsed in E.
  split; [exact E|]. intros label_map.
  unfold calculate_aggregate_rankings, aggregate_from_parsed.
  rewrite (collect_positions_stored _ _ E). reflexivity.
Qed.

End Pipeline.

Lemma all_failed_is_terminal_witness :
  exists responses tr',
    @query_models_parallel gateway_down (@COUNCIL_MODELS config_xyz)
      (user_message query_2_plus_2) [] = (Ok responses, tr') /\
    Forall (fun r => r = None) (Dict.values responses) /\
    @run_full_council unicode14 gateway_down config_xyz query_2_plus_2 []
    = (Ok ([], [], all_failed_result, MetadataEmpty), tr') /\
    length tr' = 3%nat.
Proof.
  eexists. eexists.
  assert (Hrun : @query_models_parallel gateway_down (@COUNCIL_MODELS config_xyz)
                   (user_message query_2_plus_2) []
                 = (Ok [(model_X, None); (model_Y, None); (model_Z, None)],
                    trace_stage1)) by reflexivity.
  assert (Habsent : Forall (fun r : option Response => r = None)
                      (Dict.values [(model_X, None); (model_Y, None);
                                    (model_Z, None)]))
    by (repeat constructor).
  split; [exact Hrun|]. split; [exact Habsent|].
  split; [|reflexivity].
  apply (@all_failed_is_terminal unicode14 gateway_down config_xyz
           query_2_plus_2 [] _ _ Hrun Habsent).
Defined.

Lemma aggregator_reparse_agrees_witness :
  @stage2_collect_rankings unicode14 gateway_xyz config_xyz query_2_plus_2
    answers_xy trace_stage1
  = (Ok (stage2_xy, make_label_to_model answers_xy),
     trace_stage1
     ++ map (fanout_call
               (user_message
                  (ranking_prompt query_2_plus_2
                     (make_responses_text answers_xy))))
            [model_X; model_Y; model_Z]) /\
  calculate_aggregate_rankings stage2_xy (make_label_to_model answers_xy)
  = Ok (aggregate_from_parsed stage2_xy (make_label_to_model answers_xy)).
Proof.
  assert (Hrun : @stage2_collect_rankings unicode14 gateway_xyz config_xyz
                   query_2_plus_2 answers_xy trace_stage1
                 = (Ok (stage2_xy, make_label_to_model answers_xy),
                    trace_stage1
                    ++ map (fanout_call
                              (user_message
                                 (ranking_prompt query_2_plus_2
                                    (make_responses_text answers_xy))))
                           [model_X; model_Y; model_Z]))
    by (vm_compute; reflexivity).
  split; [exact Hrun|].
  apply (aggregator_reparse_agrees _ _ _ _ _ _ Hrun).
Defined.

(** ** The title summarizer *)

Lemma forallb_rev {A} (p : A -> bool) (l : list A) :
  forallb p l = true -> forallb p (rev l) = true.
Proof.
  rewrite !forallb_forall. intros H x Hx. apply H, in_rev, Hx.
Qed.

Lemma lstrip_run (p : char -> bool) (s : pystr) :
  exists a,
    s = a ++ PyStr.lstrip p s /\ forallb p a = true /\
    (forall c, hd_error (PyStr.lstrip p s) = Some c -> p c = false).
Proof.
  induction s as [|d s (a & E & Ha & Hh)].
  - exists []. repeat split. intros c H. discriminate H.
  - cbn [PyStr.lstrip]. destruct (p d) eqn:Hd.
    + exists (d :: a). cbn [app forallb]. rewrite <- E, Hd, Ha.
      repeat split. exact Hh.
    + exists []. repeat split. intros c [= <-]. exact Hd.
Qed.

Lemma lstrip_all (p : char -> bool) (s : pystr) :
  forallb p s = true -> PyStr.lstrip p s = [].
Proof.
  induction s as [|d s IH]; [reflexivity|].
  cbn [forallb PyStr.lstrip]. intros H.
  apply andb_true_iff in H as [Hd Hs]. rewrite Hd. apply IH, Hs.
Qed.

Lemma lstrip_app_run (p : char -> bool) (a s : pystr) :
  forallb p a = true -> PyStr.lstrip p (a ++ s) = PyStr.lstrip p s.
Proof.
  induction a as [|d a IH]; [reflexivity|].
  cbn [forallb app PyStr.lstrip]. intros H.
  apply andb_true_iff in H as [Hd Ha]. rewrite Hd. apply IH, Ha.
Qed.

Lemma lstrip_keeps (p : char -> bool) (s : pystr) :
  (forall c, hd_error s = Some c -> p c = false) -> PyStr.lstrip p s = s.
Proof.
  destruct s as [|d s]; [reflexivity|].
  intros H. cbn [PyStr.lstrip]. rewrite (H d eq_refl). reflexivity.
Qed.

Lemma rstrip_run (p : char -> bool) (s : pystr) :
  exists b,
    s = PyStr.rstrip p s ++ b /\ forallb p b = true /\
    (forall c, hd_error (rev (PyStr.rstrip p s)) = Some c -> p c = false).
Proof.
  unfold PyStr.rstrip. destruct (lstrip_run p (rev s)) as (a & E & Ha & Hh).
  exists (rev a). split; [|split].
  - rewrite <- rev_app_distr, <- E, rev_involutive. reflexivity.
  - apply forallb_rev, Ha.
  - rewrite rev_involutive. exact Hh.
Qed.

(** [strip] gives the text without the surrounding characters of the
    class, and nothing else does. *)
Lemma strip_trimmed (p : char -> bool) (s : pystr) :
  trimmed_of p s (PyStr.strip p s).
Proof.
  unfold PyStr.strip.
  destruct (lstrip_run p s) as (a & Ea & Ha & Hhead).
  destruct (rstrip_run p (PyStr.lstrip p s)) as (b & Eb & Hb & Hlast).
  exists a, b. split; [|split; [|split; [|split]]].
  - rewrite <- Eb. exact Ea.
  - exact Ha.
  - exact Hb.
  - intros c H. apply Hhead. rewrite Eb.
    destruct (PyStr.rstrip p (PyStr.lstrip p s)); [discriminate H|exact H].
  - exact Hlast.
Qed.

Lemma trimmed_of_strip (p : char -> bool) (s t : pystr) :
  trimmed_of p s t -> t = PyStr.strip p s.
Proof.
  intros (a & b & -> & Ha & Hb & Hhead & Hlast).
  unfold PyStr.strip. rewrite lstrip_app_run by exact Ha.
  destruct t as [|d t].
  - cbn [app]. rewrite lstrip_all by exact Hb. reflexivity.
  - rewrite lstrip_keeps by exact Hhead.
    unfold PyStr.rstrip. rewrite rev_app_distr.
    rewrite lstrip_app_run by (apply forallb_rev, Hb).
    rewrite lstrip_keeps by exact Hlast.
    symmetry. apply rev_involutive.
Qed.

Lemma trimmed_of_ext (p q : char -> bool) (s t : pystr) :
  (forall c, p c = q c) -> trimmed_of p s t -> trimmed_of q s t.
Proof.
  intros E (a & b & Es & Ha & Hb & Hhead & Hlast).
  assert (F : forall l, forallb p l = true -> forallb q l = true).
  { intros l. rewrite !forallb_forall. intros H x Hx.
    rewrite <- E. apply H, Hx. }
  exists a, b. split; [exact Es|]. split; [apply F, Ha|].
  split; [apply F, Hb|].
  split; intros c H; rewrite <- E; [apply Hhead|apply Hlast]; exact H.
Qed.

Lemma is_quote_character (c : char) : is_quote c = quote_character c.
Proof.
  unfold is_quote, quote_character. cbn [existsb].
  rewrite orb_false_r. reflexivity.
Qed.

Section Title.
Context {db : UnicodeDB} {gw : Gateway} {cfg : Config}.

Lemma generate_conversation_title_run (user_query : pystr) (tr : list Call) :
  generate_conversation_title user_query tr
  = (match outcome tr (title_call user_query) with
     | None => Ok DEFAULT_TITLE
     | Some r =>
       match content r with
       | None => Raise AttributeError
       | Some text => Ok (clean_title text)
       end
     end,
     tr ++ [title_call user_query]).
Proof.
  unfold generate_conversation_title, bind, query_model.
  fold (title_call user_query).
  destruct (outcome tr (title_call user_query)) as [r|]; [|reflexivity].
  destruct (content r); reflexivity.
Qed.

Lemma clean_title_long (text : pystr) :
  (50 < length (trimmed text))%nat ->
  clean_title text = firstn 47 (trimmed text) ++ ELLIPSIS /\
  length (clean_title text) = 50%nat.
Proof.
  intros H. unfold clean_title. fold (trimmed text).
  destruct (Nat.ltb_spec 50 (length (trimmed text))) as [_|]; [|lia].
  split; [reflexivity|].
  rewrite length_app, length_firstn. change (length (PyStr.str "...")) with 3%nat.
  lia.
Qed.

Lemma clean_title_short (text : pystr) :
  (length (trimmed text) <= 50)%nat -> clean_title text = trimmed text.
Proof.
  intros H. unfold clean_title. fold (trimmed text).
  destruct (Nat.ltb_spec 50 (length (trimmed text))); [lia|reflexivity].
Qed.

(** C8, as the code has it.  When the gateway answers the title request
    with a text, the title is made of the text without its surrounding
    whitespace and then without the quote characters that surround what is
    left; whitespace between the quotes and the words stays.  Longer than
    50 characters, that text is cut to its first 47 characters followed by
    the three characters of the ellipsis, 50 characters in all, so a title
    of 55 characters becomes 47 characters and the ellipsis; of 50
    characters or fewer, it is returned as it is. *)
Theorem title_truncated_to_fifty (user_query : pystr) (tr : list Call)
        (r : Response) (text : pystr) :
  outcome tr (title_call user_query) = Some r ->
  content r = Some text ->
  exists middle core title,
    trimmed_of is_whitespace text middle /\
    trimmed_of quote_character middle core /\
    (forall middle' core',
       trimmed_of is_whitespace text middle' ->
       trimmed_of quote_character middle' core' ->
       core' = core) /\
    generate_conversation_title user_query tr
    = (Ok title, tr ++ [title_call user_query]) /\
    ((50 < length core)%nat ->
     title = firstn 47 core ++ PyStr.str "..." /\
     length title = 50%nat) /\
    (length core = 55%nat ->
     title = firstn 47 core ++ PyStr.str "..." /\
     length (firstn 47 core) = 47%nat /\
     length (PyStr.str "...") = 3%nat /\
     length title = 50%nat) /\
    ((length core <= 50)%nat -> title = core).
Proof.
  intros Hr Hc.
  exists (PyStr.strip is_whitespace text), (trimmed text), (clean_title text).
  split; [apply strip_trimmed|].
  split.
  { apply (trimmed_of_ext is_quote); [apply is_quote_character|].
    apply strip_trimmed. }
  split.
  { intros middle' core' Hm Hcore.
    apply trimmed_of_strip in Hm. subst middle'.
    apply (trimmed_of_ext quote_character is_quote) in Hcore;
      [|intros c; symmetry; apply is_quote_character].
    apply trimmed_of_strip in Hcore. exact Hcore. }
  split; [|split; [|split]].
  - rewrite generate_conversation_title_run, Hr, Hc. reflexivity.
  - apply clean_title_long.
  - intros H. destruct (clean_title_long text) as [E L]; [lia|].
    repeat split; try assumption.
    rewrite length_firstn. lia.
  - apply clean_title_short.
Qed.

End Title.

Lemma title_truncated_to_fifty_witness :
  @outcome (gateway_saying long_title) [] (title_call query_2_plus_2)
  = text_response long_title /\
  exists title,
    @generate_conversation_title unicode14 (gateway_saying long_title)
      query_2_plus_2 []
    = (Ok title, [title_call query_2_plus_2]) /\
    title = PyStr.str "How to add two and two together and why it is a..." /\
    length title = 50%nat.
Proof.
  split; [reflexivity|].
  destruct (@title_truncated_to_fifty unicode14 (gateway_saying long_title)
              query_2_plus_2 []
              {| content := Some long_title; reasoning_details := None |}
              long_title eq_refl eq_refl)
    as (middle & core & title & Hm & Hcore & _ & Hrun & Hlong & _ & _).
  apply trimmed_of_strip in Hm. subst middle.
  apply (trimmed_of_ext quote_character is_quote) in Hcore;
    [|intros c; symmetry; apply is_quote_character].
  apply trimmed_of_strip in Hcore. subst core.
  exists title. split; [exact Hrun|].
  destruct Hlong as [E L]; [vm_compute; lia|].
  split; [rewrite E; reflexivity|exact L].
Defined.

(** C8 as stated fails.  The text is a quote, a space, fifty letters and a
    quote.  Without its surrounding whitespace and quote characters it is
    the fifty letters, which are to be returned unchanged; the title is the
    space, forty-six letters and the ellipsis, since the space inside the
    quotes is kept and makes fifty-one characters. *)
Lemma title_of_quoted_space_counterexample :
  @trimmed_of (@whitespace_or_quote unicode14) quoted_space_title
    fifty_letters /\
  length fifty_letters = 50%nat /\
  @generate_conversation_title unicode14 (gateway_saying quoted_space_title)
    query_2_plus_2 []
  = (Ok (PyStr.str " abcdefghijklmnopqrstuvwxyzabcdefghijklmnopqrst..."),
     [title_call query_2_plus_2]) /\
  PyStr.str " abcdefghijklmnopqrstuvwxyzabcdefghijklmnopqrst..."
  <> fifty_letters.
Proof.
  split; [|split; [reflexivity|split; [vm_compute; reflexivity|]]].
  - exists (PyStr.str "' "), (PyStr.str "'").
    split; [reflexivity|]. split; [reflexivity|]. split; [reflexivity|].
    split; intros c H; vm_compute in H; injection H as <-; reflexivity.
  - vm_compute. discriminate.
Qed.

(** C4, on the code.  When the gateway fails, the title is the default
    title.  When the gateway answers the title request with the empty
    text, the title is the empty string, not the default title; and when
    it answers with a null content, the summarizer raises. *)
Lemma title_of_empty_text :
  @generate_conversation_title unicode14 gateway_down query_2_plus_2 []
  = (Ok DEFAULT_TITLE, [title_call query_2_plus_2]) /\
  @generate_conversation_title unicode14 (gateway_saying empty_title)
    query_2_plus_2 []
  = (Ok [], [title_call query_2_plus_2]) /\
  [] <> DEFAULT_TITLE /\
  @generate_conversation_title unicode14 gateway_null query_2_plus_2 []
  = (Raise AttributeError, [title_call query_2_plus_2]).
Proof.
  split; [reflexivity|]. split; [reflexivity|].
  split; [discriminate|reflexivity].
Qed.

(** ** Floats *)

Lemma round_half_even_near (q : Q) :
  Qabs (q - inject_Z (PyFloat.round_half_even q)) <= 1 # 2.
Proof.
  apply Qabs_Qle_condition.
  destruct q as [n d]. unfold PyFloat.round_half_even. cbn [Qnum Qden].
  pose proof (Z.div_mod n (Zpos d) ltac:(lia)) as E.
  pose proof (Z.mod_pos_bound n (Zpos d) ltac:(lia)) as B.
  set (f := (n / Zpos d)%Z) in *. set (r := (n mod Zpos d)%Z) in *.
  assert (H : forall k : Z, (2 * Z.abs (n - k * Zpos d) <= Zpos d)%Z ->
            - (1 # 2) <= (n # d) - inject_Z k <= 1 # 2).
  { intros k Hk. unfold Qle, Qminus, Qplus, Qopp, inject_Z. cbn.
    split; lia. }
  apply H.
  destruct (Z.ltb_spec (2 * r) (Zpos d)); [lia|].
  destruct (Z.ltb_spec (Zpos d) (2 * r)); [lia|].
  destruct (Z.even f); lia.
Qed.

Lemma scale2_power (q : Q) (k : Z) : PyFloat.scale2 q k == q * 2 ^ k.
Proof.
  unfold PyFloat.scale2. destruct (Z.leb_spec 0 k) as [H|H].
  - rewrite Zpower_Qpower by exact H. reflexivity.
  - rewrite Zpower_Qpower by lia.
    assert (E : (2 : Q) ^ k == / inject_Z 2 ^ (- k)).
    { rewrite <- Qpower_opp, Z.opp_involutive. reflexivity. }
    rewrite E. reflexivity.
Qed.

Lemma pow2_pos (k : Z) : 0 < (2 : Q) ^ k.
Proof. apply Qpower_0_lt. reflexivity. Qed.

Lemma pow2_plus (a b : Z) : (2 : Q) ^ (a + b) == 2 ^ a * 2 ^ b.
Proof. apply Qpower_plus. discriminate. Qed.

(** The rounding error of [binary64] is at most half a unit in the last
    place. *)
Lemma binary64_half_ulp (q : Q) :
  ~ q == 0 ->
  let x := Z.max (PyFloat.ilog2 q - 52) (-1074) in
  Qabs (PyFloat.binary64 q - q) <= (1 # 2) * 2 ^ x.
Proof.
  intros Hq x. unfold PyFloat.binary64.
  destruct (Z.eqb_spec (Qnum q) 0) as [E|_].
  { exfalso. apply Hq. destruct q as [n d]. cbn in E. subst. reflexivity. }
  fold x. rewrite scale2_power.
  set (m := PyFloat.round_half_even (PyFloat.scale2 q (- x))).
  pose proof (round_half_even_near (PyFloat.scale2 q (- x))) as Hm.
  fold m in Hm. rewrite scale2_power in Hm.
  assert (E : inject_Z m * 2 ^ x - q == - (q * 2 ^ (- x) - inject_Z m) * 2 ^ x).
  { assert (P : (2 : Q) ^ (- x) * 2 ^ x == 1).
    { rewrite <- pow2_plus. replace (- x + x)%Z with 0%Z by lia. reflexivity. }
    setoid_replace (- (q * 2 ^ (- x) - inject_Z m) * 2 ^ x)
      with (inject_Z m * 2 ^ x - q * (2 ^ (- x) * 2 ^ x)) by ring.
    rewrite P. ring. }
  rewrite E, Qabs_Qmult, Qabs_opp.
  rewrite (Qabs_pos (2 ^ x)) by (apply Qlt_le_weak, pow2_pos).
  apply Qmult_le_compat_r; [exact Hm|apply Qlt_le_weak, pow2_pos].
Qed.


Lemma pow2_minus (a b : Z) : (2 : Q) ^ (a - b) == 2 ^ a / 2 ^ b.
Proof.
  unfold Zminus. rewrite pow2_plus, Qpower_opp. reflexivity.
Qed.

Lemma pow2_succ (a : Z) : (2 : Q) ^ (a + 1) == 2 * 2 ^ a.
Proof. rewrite pow2_plus. change ((2:Q) ^ 1) with (2:Q). ring. Qed.

Lemma log2_bounds_Q (a : Z) :
  (0 < a)%Z ->
  2 ^ Z.log2 a <= inject_Z a /\ inject_Z a < 2 * 2 ^ Z.log2 a.
Proof.
  intros H. destruct (Z.log2_spec a H) as [L U].
  pose proof (Z.log2_nonneg a) as N.
  split.
  - rewrite <- (Zpower_Qpower 2) by exact N. rewrite <- Zle_Qle. exact L.
  - rewrite <- pow2_succ. rewrite <- (Zpower_Qpower 2) by lia.
    rewrite <- Zlt_Qlt. exact U.
Qed.

Lemma ratio_bounds (s t r D : Q) :
  0 < r -> 0 < D -> 0 < t ->
  s * r <= t * D -> t * D < 2 * (s * r) ->
  r <= D -> D < 2 * r ->
  s * (1 # 2) <= t /\ t < 2 * s.
Proof.
  intros Hr HD Ht H1 H2 H3 H4. split.
  - apply Qnot_lt_le. intros C.
    assert (t * D < s * r); [|lra].
    apply Qlt_le_trans with (t * (2 * r)).
    + apply Qmult_lt_l; assumption.
    + setoid_replace (t * (2 * r)) with ((2 * t) * r) by ring.
      apply Qmult_le_compat_r; lra.
  - apply Qnot_le_lt. intros C.
    assert (2 * (s * r) <= t * D); [|lra].
    apply Qle_trans with (t * r).
    + setoid_replace (2 * (s * r)) with ((2 * s) * r) by ring.
      apply Qmult_le_compat_r; lra.
    + apply Qmult_le_l; assumption.
Qed.

Lemma ilog2_spec (q : Q) :
  ~ q == 0 ->
  2 ^ PyFloat.ilog2 q <= Qabs q /\ Qabs q < 2 ^ (PyFloat.ilog2 q + 1).
Proof.
  intros Hq. unfold PyFloat.ilog2.
  set (a := Z.abs (Qnum q)). set (d := Zpos (Qden q)).
  set (e0 := (Z.log2 a - Z.log2 d)%Z).
  assert (Ha : (0 < a)%Z).
  { subst a. destruct q as [n dd]. cbn. 
    assert (n <> 0)%Z; [|lia]. intros ->. apply Hq. reflexivity. }
  assert (Hd : (0 < d)%Z) by (subst d; lia).
  destruct (log2_bounds_Q a Ha) as [La Ua].
  destruct (log2_bounds_Q d Hd) as [Ld Ud].
  assert (Et : Qabs q * inject_Z d == inject_Z a).
  { subst a d. destruct q as [n dd]. cbn [Qnum Qden Qabs].
    unfold Qeq, Qmult, inject_Z. cbn. lia. }
  assert (Es : 2 ^ e0 * 2 ^ Z.log2 d == 2 ^ Z.log2 a).
  { unfold e0. rewrite pow2_minus. field.
    apply Qnot_eq_sym, Qlt_not_eq, pow2_pos. }
  assert (Ht : 0 < Qabs q).
  { subst a. destruct q as [n dd]. cbn in Ha.
    unfold Qlt, Qabs. cbn. lia. }
  assert (H1 : 2 ^ e0 * 2 ^ Z.log2 d <= Qabs q * inject_Z d)
    by (rewrite Et, Es; exact La).
  assert (H2 : Qabs q * inject_Z d < 2 * (2 ^ e0 * 2 ^ Z.log2 d))
    by (rewrite Et, Es; exact Ua).
  assert (HD : 0 < inject_Z d).
  { apply Qlt_le_trans with (2 ^ Z.log2 d); [apply pow2_pos|exact Ld]. }
  destruct (ratio_bounds _ _ _ _ (pow2_pos _) HD Ht H1 H2 Ld Ud) as [Lo Hi].
  destruct (Qle_bool (PyFloat.scale2 1 e0) (Qabs q)) eqn:T.
  - apply Qle_bool_iff in T. rewrite scale2_power in T.
    rewrite pow2_succ. split; lra.
  - assert (T' : Qabs q < 2 ^ e0).
    { apply Qnot_le_lt. intros C. 
      assert (Qle_bool (PyFloat.scale2 1 e0) (Qabs q) = true); [|congruence].
      apply Qle_bool_iff. rewrite scale2_power. lra. }
    replace (e0 - 1 + 1)%Z with e0 by lia.
    split; [|exact T'].
    rewrite pow2_minus. change ((2:Q) ^ 1) with (2:Q).
    setoid_replace (2 ^ e0 / 2) with (2 ^ e0 * (1 # 2)) by field.
    exact Lo.
Qed.

(** In the range of the normal numbers the relative error of [binary64] is
    at most [2^-53]. *)
Lemma binary64_relative (q : Q) :
  2 ^ (-1022) <= Qabs q ->
  Qabs (PyFloat.binary64 q - q) <= Qabs q * ULP53.
Proof.
  intros Hn.
  assert (Hpos : 0 < Qabs q)
    by (apply Qlt_le_trans with (2 ^ (-1022)); [apply pow2_pos|exact Hn]).
  assert (Hq : ~ q == 0).
  { intros E. rewrite E in Hpos. apply (Qlt_irrefl 0). exact Hpos. }
  destruct (ilog2_spec q Hq) as [Lo Hi].
  assert (He : (-1022 <= PyFloat.ilog2 q)%Z).
  { assert (H : (2:Q) ^ (-1022) < 2 ^ (PyFloat.ilog2 q + 1))
      by (eapply Qle_lt_trans; eassumption).
    apply Qpower_lt_compat_l_inv in H; [lia|reflexivity]. }
  pose proof (binary64_half_ulp q Hq) as H. cbv zeta in H.
  rewrite Z.max_l in H by lia.
  eapply Qle_trans; [exact H|].
  rewrite pow2_minus.
  setoid_replace ((1 # 2) * (2 ^ PyFloat.ilog2 q / 2 ^ 52))
    with (2 ^ PyFloat.ilog2 q * ULP53).
  - apply Qmult_le_compat_r; [exact Lo|discriminate].
  - change ((2:Q) ^ 52) with (4503599627370496 : Q). unfold ULP53. field.
Qed.

(** The average rank is within half a hundredth of the arithmetic mean, up
    to three roundings of the mean to 53 bits. *)
Lemma round2_truediv_error (a b : Z) :
  (0 < b)%Z -> (b <= a)%Z ->
  let mean := a # Z.to_pos b in
  Qabs (PyFloat.round2 (PyFloat.truediv a b) - mean)
  <= (1 # 200) + 3 * mean * ULP53.
Proof.
  intros Hb Hab mean.
  assert (Hmean : 1 <= mean).
  { unfold mean, Qle. cbn. rewrite Z2Pos.id by exact Hb. lia. }
  assert (Hsmall : (2:Q) ^ (-1022) <= 1 # 4).
  { change (1 # 4) with ((2:Q) ^ (-2)).
    apply Qpower_le_compat_l; [lia|discriminate]. }
  unfold PyFloat.truediv. fold mean.
  set (x := PyFloat.binary64 mean).
  assert (Hx : Qabs (x - mean) <= mean * ULP53).
  { pose proof (binary64_relative mean) as H.
    rewrite (Qabs_pos mean) in H by lra. apply H. lra. }
  apply Qabs_Qle_condition in Hx. unfold ULP53 in *.
  unfold PyFloat.round2.
  set (k := PyFloat.round_half_even (x * 100)).
  pose proof (round_half_even_near (x * 100)) as Hk. fold k in Hk.
  apply Qabs_Qle_condition in Hk.
  set (y := inject_Z k / 100) in *.
  assert (Ey : inject_Z k == y * 100) by (unfold y; field).
  rewrite Ey in Hk.
  assert (Hy : 1 # 4 <= y) by lra.
  assert (Hr : Qabs (PyFloat.binary64 y - y) <= y * ULP53).
  { pose proof (binary64_relative y) as H.
    rewrite (Qabs_pos y) in H by lra. apply H. lra. }
  apply Qabs_Qle_condition in Hr. unfold ULP53 in Hr.
  apply Qabs_Qle_condition. split; lra.
Qed.

(** The average rank is a number of hundredths, as a float holds it, and
    that number is within half a hundredth of the arithmetic mean. *)
Lemma round2_truediv_hundredths (a b : Z) :
  (0 < b)%Z -> (b <= a)%Z ->
  rounded_to_2_places (a # Z.to_pos b) (PyFloat.round2 (PyFloat.truediv a b)).
Proof.
  intros Hb Hab. set (mean := a # Z.to_pos b).
  assert (Hmean : 1 <= mean).
  { unfold mean, Qle. cbn. rewrite Z2Pos.id by exact Hb. lia. }
  assert (Hsmall : (2:Q) ^ (-1022) <= 1 # 4).
  { change (1 # 4) with ((2:Q) ^ (-2)).
    apply Qpower_le_compat_l; [lia|discriminate]. }
  unfold PyFloat.truediv. fold mean.
  set (x := PyFloat.binary64 mean).
  assert (Hx : Qabs (x - mean) <= mean * ULP53).
  { pose proof (binary64_relative mean) as H.
    rewrite (Qabs_pos mean) in H by lra. apply H. lra. }
  apply Qabs_Qle_condition in Hx. unfold ULP53 in Hx.
  unfold PyFloat.round2.
  set (k := PyFloat.round_half_even (x * 100)).
  pose proof (round_half_even_near (x * 100)) as Hk. fold k in Hk.
  apply Qabs_Qle_condition in Hk.
  exists k.
  assert (Ek : k # 100 == inject_Z k / 100).
  { unfold Qeq, Qdiv, Qmult, Qinv, inject_Z. cbn. lia. }
  set (y := inject_Z k / 100) in *.
  assert (Ey : inject_Z k == y * 100) by (unfold y; field).
  rewrite Ey in Hk. rewrite Ek.
  assert (Hy : 1 # 4 <= y) by lra.
  split.
  - unfold ULP53. apply Qabs_Qle_condition. split; lra.
  - pose proof (binary64_relative y) as H.
    rewrite (Qabs_pos y) in H by lra. apply H. lra.
Qed.

(** The value of [binary64] has a significand of at most 53 bits. *)
Lemma binary64_significand (q : Q) :
  ~ q == 0 ->
  exists m x : Z,
    PyFloat.binary64 q == inject_Z m * 2 ^ x /\
    (Z.abs m <= 2 ^ 53)%Z /\ (-1074 <= x)%Z.
Proof.
  intros Hq. destruct (ilog2_spec q Hq) as [_ Hi].
  set (x := Z.max (PyFloat.ilog2 q - 52) (-1074)).
  set (m := PyFloat.round_half_even (PyFloat.scale2 q (- x))).
  exists m, x. split; [|split; [|lia]].
  - unfold PyFloat.binary64.
    destruct (Z.eqb_spec (Qnum q) 0) as [E|_].
    { exfalso. apply Hq. destruct q as [n d]. cbn in E. subst. reflexivity. }
    fold x m. apply scale2_power.
  - pose proof (round_half_even_near (PyFloat.scale2 q (- x))) as Hm.
    fold m in Hm. rewrite scale2_power in Hm.
    assert (Hy : Qabs (q * 2 ^ (- x)) < 2 ^ 53).
    { rewrite Qabs_Qmult, (Qabs_pos (2 ^ (- x)))
        by (apply Qlt_le_weak, pow2_pos).
      apply Qlt_le_trans with (2 ^ (PyFloat.ilog2 q + 1) * 2 ^ (- x)).
      - apply Qmult_lt_compat_r; [apply pow2_pos|exact Hi].
      - rewrite <- pow2_plus. apply Qpower_le_compat_l; [lia|discriminate]. }
    assert (Hm' : Qabs (inject_Z m) <= Qabs (q * 2 ^ (- x)) + (1 # 2)).
    { setoid_replace (inject_Z m)
        with (q * 2 ^ (- x) - (q * 2 ^ (- x) - inject_Z m)) at 1 by ring.
      eapply Qle_trans; [apply Qabs_triangle|].
      rewrite Qabs_opp. lra. }
    assert (Hz : inject_Z (Z.abs m) < inject_Z (2 ^ 53 + 1)).
    { change (inject_Z (2 ^ 53 + 1)) with ((2:Q) ^ 53 + 1).
      replace (inject_Z (Z.abs m)) with (Qabs (inject_Z m)) by reflexivity.
      lra. }
    rewrite <- Zlt_Qlt in Hz. lia.
Qed.

(** The quotient 107 / 40 is the float below 2.675, and rounds to 2.67. *)
Lemma truediv_round2_example :
  PyFloat.truediv 107 40 == 3011782250804019 # 1125899906842624 /\
  PyFloat.round2 (PyFloat.truediv 107 40)
  == 1503076375634903 # 562949953421312 /\
  PyFloat.round2 (PyFloat.truediv 3 2) == 3 # 2 /\
  PyFloat.round2 (PyFloat.truediv 4 3)
  == 748723438050345 # 562949953421312.
Proof. repeat split; vm_compute; reflexivity. Qed.

(** ** Sorting by a float key *)

Section SortFacts.
Context {A : Type} (key : A -> PyFloat.t).

Local Abbreviation le := (key_le key).
Local Abbreviation tie := (key_tie key).

Lemma ltb_lt (x y : PyFloat.t) : PyFloat.ltb x y = true <-> x < y.
Proof.
  unfold PyFloat.ltb. rewrite negb_true_iff.
  destruct (Qle_bool y x) eqn:E.
  - apply Qle_bool_iff in E. split; [discriminate|].
    intros H. exfalso. apply (Qlt_not_le _ _ H E).
  - split; [|reflexivity]. intros _. apply Qnot_le_lt.
    intros H. apply Qle_bool_iff in H. congruence.
Qed.

Lemma ltb_ge (x y : PyFloat.t) : PyFloat.ltb x y = false <-> y <= x.
Proof.
  unfold PyFloat.ltb. rewrite negb_false_iff. apply Qle_bool_iff.
Qed.

Lemma insert_sorted_perm (x : A) (l : list A) :
  Permutation (x :: l) (insert_sorted key x l).
Proof.
  induction l as [|y l IH]; simpl; [reflexivity|].
  destruct (PyFloat.ltb (key y) (key x)); [|reflexivity].
  rewrite perm_swap. apply perm_skip, IH.
Qed.

Lemma list_sort_perm (l : list A) : Permutation l (list_sort key l).
Proof.
  induction l as [|x l IH]; simpl; [reflexivity|].
  rewrite <- insert_sorted_perm. apply perm_skip, IH.
Qed.

Lemma insert_sorted_sorted (x : A) (l : list A) :
  StronglySorted le l -> StronglySorted le (insert_sorted key x l).
Proof.
  induction 1 as [|y l Hs IH Hy]; simpl.
  - repeat constructor.
  - destruct (PyFloat.ltb (key y) (key x)) eqn:E.
    + apply ltb_lt in E. constructor; [exact IH|].
      rewrite Forall_forall in *. intros z Hz.
      apply (Permutation_in _ (Permutation_sym (insert_sorted_perm x l))) in Hz.
      destruct Hz as [<-|Hz]; [apply Qlt_le_weak, E|apply Hy, Hz].
    + apply ltb_ge in E. constructor; [constructor; assumption|].
      constructor; [exact E|].
      rewrite Forall_forall in *. intros z Hz. unfold key_le.
      apply Qle_trans with (key y); [exact E|apply Hy, Hz].
Qed.

Lemma list_sort_sorted (l : list A) : StronglySorted le (list_sort key l).
Proof.
  induction l as [|x l IH]; simpl; [constructor|].
  apply insert_sorted_sorted, IH.
Qed.

(** Insertion keeps the relative order of the elements whose keys are
    equal. *)
Lemma insert_sorted_stable (c : Q) (x : A) (l : list A) :
  filter (tie c) (insert_sorted key x l) = filter (tie c) (x :: l).
Proof.
  induction l as [|y l IH]; [reflexivity|].
  cbn [insert_sorted].
  destruct (PyFloat.ltb (key y) (key x)) eqn:E; [|reflexivity].
  apply ltb_lt in E. cbn [filter] in *. rewrite IH.
  destruct (tie c x) eqn:Tx; [|reflexivity].
  destruct (tie c y) eqn:Ty; [|reflexivity].
  unfold key_tie in Tx, Ty. apply Qeq_bool_iff in Tx, Ty.
  rewrite Tx, Ty in E. exfalso. apply (Qlt_irrefl _ E).
Qed.

Lemma list_sort_stable (c : Q) (l : list A) :
  filter (tie c) (list_sort key l) = filter (tie c) l.
Proof.
  induction l as [|x l IH]; [reflexivity|].
  cbn [list_sort fold_right]. fold (list_sort key l).
  rewrite insert_sorted_stable. cbn [filter]. rewrite IH. reflexivity.
Qed.

End SortFacts.

(** ** The rank aggregator *)

Lemma mentioned_snoc (votes : list (pystr * Z)) (m : pystr) (p : Z) :
  mentioned (votes ++ [(m, p)])
  = if existsb (PyStr.eqb m) (mentioned votes)
    then mentioned votes
    else mentioned votes ++ [m].
Proof.
  unfold mentioned. rewrite map_app. apply first_occurrences_snoc.
Qed.

Lemma positions_of_snoc (votes : list (pystr * Z)) (m m' : pystr) (p : Z) :
  positions_of m' (votes ++ [(m, p)])
  = positions_of m' votes ++ (if PyStr.eqb m m' then [p] else []).
Proof.
  unfold positions_of. rewrite filter_app, map_app. cbn [filter fst].
  destruct (PyStr.eqb m m'); reflexivity.
Qed.

Lemma positions_of_mentioned (votes : list (pystr * Z)) (m : pystr) :
  In m (mentioned votes) <-> positions_of m votes <> [].
Proof.
  unfold mentioned, positions_of. rewrite first_occurrences_In.
  induction votes as [|[m' p] votes IH]; simpl.
  - split; [contradiction|congruence].
  - destruct (PyStr.eqb m' m) eqn:E.
    + apply eqb_spec_str in E. subst. simpl. split; [discriminate|auto].
    + apply eqb_neq_str in E. rewrite <- IH. split; [|auto].
      intros [H|H]; [congruence|exact H].
Qed.

Lemma get_map_keys {V} (f : pystr -> V) (ms : list pystr) (m : pystr) :
  Dict.get m (map (fun x => (x, f x)) ms)
  = if existsb (PyStr.eqb m) ms then Some (f m) else None.
Proof.
  induction ms as [|x ms IH]; [reflexivity|].
  cbn [map Dict.get existsb]. destruct (PyStr.eqb m x) eqn:E.
  - apply eqb_spec_str in E. subst. reflexivity.
  - exact IH.
Qed.

Lemma set_map_keys {V} (f : pystr -> V) (ms : list pystr) (m : pystr) (v : V) :
  NoDup ms -> In m ms ->
  Dict.set m v (map (fun x => (x, f x)) ms)
  = map (fun x => (x, if PyStr.eqb x m then v else f x)) ms.
Proof.
  induction 1 as [|x ms Hx Hnd IH]; [contradiction|].
  cbn [map Dict.set]. intros Hin. destruct (PyStr.eqb m x) eqn:E.
  - apply eqb_spec_str in E. subst x. rewrite eqb_refl_str. f_equal.
    apply map_ext_in. intros y Hy.
    destruct (PyStr.eqb y m) eqn:E; [|reflexivity].
    apply eqb_spec_str in E. subst. contradiction.
  - assert (E' : PyStr.eqb x m = false).
    { apply eqb_neq_str. apply eqb_neq_str in E. congruence. }
    rewrite E'. f_equal. apply IH.
    destruct Hin as [->|H]; [|exact H].
    rewrite eqb_refl_str in E. discriminate.
Qed.

Lemma tally_snoc (votes : list (pystr * Z)) (v : pystr * Z)
      (mp : Dict.t (list Z)) :
  tally (votes ++ [v]) mp = append_position (tally votes mp) (fst v) (snd v).
Proof. unfold tally. rewrite fold_left_app. reflexivity. Qed.

(** Filing the votes gives one item for each model that got a vote, in
    the order of the first votes, with the positions of the model in the
    order of the votes. *)
Lemma tally_items (votes : list (pystr * Z)) :
  Dict.items (tally votes Dict.empty)
  = map (fun m => (m, positions_of m votes)) (mentioned votes).
Proof.
  unfold Dict.items.
  induction votes as [|[m p] votes IH] using rev_ind; [reflexivity|].
  rewrite tally_snoc, IH, mentioned_snoc. cbn [fst snd].
  unfold append_position. rewrite get_map_keys.
  destruct (existsb (PyStr.eqb m) (mentioned votes)) eqn:E.
  - apply existsb_eqb_In in E.
    rewrite set_map_keys by (try apply first_occurrences_NoDup; exact E).
    apply map_ext. intros x. rewrite positions_of_snoc.
    destruct (PyStr.eqb x m) eqn:E'.
    + apply eqb_spec_str in E'. subst. rewrite eqb_refl_str. reflexivity.
    + assert (E'' : PyStr.eqb m x = false).
      { apply eqb_neq_str. apply eqb_neq_str in E'. congruence. }
      rewrite E'', app_nil_r. reflexivity.
  - assert (Hnot : ~ In m (mentioned votes)).
    { rewrite <- existsb_eqb_In. congruence. }
    rewrite set_absent.
    2:{ rewrite get_map_keys, E. reflexivity. }
    rewrite map_app. cbn [map]. f_equal.
    + apply map_ext_in. intros x Hx. rewrite positions_of_snoc.
      destruct (PyStr.eqb m x) eqn:E'.
      * apply eqb_spec_str in E'. subst. contradiction.
      * rewrite app_nil_r. reflexivity.
    + rewrite positions_of_snoc, eqb_refl_str.
      destruct (positions_of m votes) eqn:P; [reflexivity|].
      exfalso. apply Hnot, positions_of_mentioned. congruence.
Qed.

Lemma make_aggregate_entries (P : pystr -> list Z) (ms : list pystr) :
  (forall m, In m ms -> P m <> []) ->
  make_aggregate (map (fun m => (m, P m)) ms)
  = map (fun m => entry_of m (P m)) ms.
Proof.
  induction ms as [|m ms IH]; intros H; [reflexivity|].
  cbn [map make_aggregate].
  destruct (P m) eqn:E; [exfalso; apply (H m); simpl; auto|].
  rewrite IH by (intros; apply H; simpl; auto). reflexivity.
Qed.

Lemma collect_ranking_tally (label_to_model : Dict.t pystr)
      (parsed_ranking : list pystr) (mp : Dict.t (list Z)) :
  collect_ranking label_to_model mp parsed_ranking
  = tally (votes_of_order label_to_model parsed_ranking) mp.
Proof.
  unfold collect_ranking, votes_of_order.
  generalize (enumerate1 parsed_ranking) as l. intros l. revert mp.
  induction l as [|[position label] l IH]; intros mp; [reflexivity|].
  cbn [fold_left flat_map fst snd]. unfold tally. rewrite fold_left_app.
  fold (tally (flat_map
          (fun pl => match Dict.get (snd pl) label_to_model with
                     | Some model => [(model, fst pl)]
                     | None => []
                     end) l)).
  rewrite IH. destruct (Dict.get label label_to_model); reflexivity.
Qed.

Lemma enumerate1_positions {A} (l : list A) :
  Forall (fun pl => (1 <= fst pl)%Z) (enumerate1 l).
Proof.
  apply Forall_forall. intros [p x] H. unfold enumerate1 in H.
  apply in_combine_l, in_map_iff in H as (i & <- & Hi).
  apply in_seq in Hi. cbn [fst]. lia.
Qed.

Lemma all_votes_positions (label_to_model : Dict.t pystr)
      (parsed_orders : list (list pystr)) :
  Forall (fun v => (1 <= snd v)%Z) (all_votes label_to_model parsed_orders).
Proof.
  unfold all_votes, votes_of_order. apply Forall_flat_map, Forall_forall.
  intros order _. apply Forall_flat_map.
  eapply Forall_impl; [|apply enumerate1_positions].
  intros [p label] Hp. cbn [fst snd] in *.
  destruct (Dict.get label label_to_model); repeat constructor. exact Hp.
Qed.

Lemma positions_of_positive (votes : list (pystr * Z)) (m : pystr) :
  Forall (fun v => (1 <= snd v)%Z) votes ->
  Forall (fun p => (1 <= p)%Z) (positions_of m votes).
Proof.
  intros H. unfold positions_of. apply Forall_map.
  apply Forall_forall. intros v Hv. apply filter_In in Hv as [Hv _].
  rewrite Forall_forall in H. apply H, Hv.
Qed.

Lemma sum_at_least_length (positions : list Z) :
  Forall (fun p => (1 <= p)%Z) positions ->
  (Z.of_nat (length positions) <= fold_left Z.add positions 0)%Z.
Proof.
  intros H.
  assert (G : forall acc,
             (acc + Z.of_nat (length positions)
              <= fold_left Z.add positions acc)%Z); [|apply (G 0%Z)].
  induction H as [|p ps Hp _ IH]; intros acc; cbn [fold_left length].
  - lia.
  - specialize (IH (acc + p)%Z). lia.
Qed.

(** The average of an entry against the exact mean of its positions. *)
Lemma entry_average_error (model : pystr) (positions : list Z) :
  positions <> [] ->
  Forall (fun p => (1 <= p)%Z) positions ->
  let mean :=
    fold_left Z.add positions 0%Z # Z.to_pos (Z.of_nat (length positions)) in
  Qabs (average_rank (entry_of model positions) - mean)
  <= (1 # 200) + 3 * mean * ULP53.
Proof.
  intros Hne Hpos. cbn [entry_of average_rank].
  apply round2_truediv_error.
  - destruct positions; [contradiction|]. cbn [length]. lia.
  - apply sum_at_least_length, Hpos.
Qed.

Section AggregateFacts.
Context {db : UnicodeDB}.

Lemma collect_positions_tally (label_to_model : Dict.t pystr)
      (stage2_results : list Stage2Result) (parsed_orders : list (list pystr)) :
  Forall2 (fun r order => parse_ranking_from_text (s2_ranking r) = Ok order)
          stage2_results parsed_orders ->
  forall mp,
    collect_positions stage2_results label_to_model mp
    = Ok (tally (all_votes label_to_model parsed_orders) mp).
Proof.
  induction 1 as [|r order rs orders Hr _ IH]; intros mp; [reflexivity|].
  cbn [collect_positions]. rewrite Hr. cbn [rbind].
  rewrite IH, collect_ranking_tally.
  unfold all_votes. cbn [flat_map]. unfold tally.
  rewrite fold_left_app. reflexivity.
Qed.

Lemma agg_model_entries (P : pystr -> list Z) (ms : list pystr) :
  map agg_model (map (fun m => entry_of m (P m)) ms) = ms.
Proof.
  rewrite map_map. cbn [entry_of agg_model]. apply map_id.
Qed.

Hypothesis Hascii : ascii_compatible db.

Lemma parse_all (stage2_results : list Stage2Result) :
  exists parsed_orders,
    Forall2 (fun r order => parse_ranking_from_text (s2_ranking r) = Ok order)
            stage2_results parsed_orders.
Proof.
  induction stage2_results as [|r rs (orders & IH)].
  - exists []. constructor.
  - destruct (parse_total Hascii (s2_ranking r)) as (order & Hr & _).
    exists (order :: orders). constructor; assumption.
Qed.

Lemma walk_order_from (label_to_model : Dict.t pystr)
      (order : list pystr) :
  forall n,
    walk_order label_to_model (Z.of_nat n) order
    = flat_map
        (fun pl =>
           match Dict.get (snd pl) label_to_model with
           | Some model => [(model, fst pl)]
           | None => []
           end)
        (combine (map Z.of_nat (seq n (length order))) order).
Proof.
  induction order as [|label order IH]; intros n; [reflexivity|].
  cbn [walk_order length seq map combine flat_map fst snd].
  replace (Z.of_nat n + 1)%Z with (Z.of_nat (S n)) by lia.
  rewrite IH. destruct (Dict.get label label_to_model); reflexivity.
Qed.

Lemma walked_votes_all (label_to_model : Dict.t pystr)
      (parsed_orders : list (list pystr)) :
  walked_votes label_to_model parsed_orders
  = all_votes label_to_model parsed_orders.
Proof.
  unfold walked_votes, all_votes. apply flat_map_ext. intros order.
  apply (walk_order_from label_to_model order 1).
Qed.

Lemma sum_fold_right (positions : list Z) :
  fold_left Z.add positions 0%Z = fold_right Z.add 0%Z positions.
Proof.
  apply fold_symmetric; intros; lia.
Qed.

Lemma entry_rounded (model : pystr) (positions : list Z) :
  positions <> [] ->
  Forall (fun p => (1 <= p)%Z) positions ->
  rounded_to_2_places (arithmetic_mean positions)
                      (average_rank (entry_of model positions)).
Proof.
  intros Hne Hpos. unfold arithmetic_mean. rewrite <- sum_fold_right.
  cbn [entry_of average_rank]. apply round2_truediv_hundredths.
  - destruct positions; [contradiction|]. cbn [length]. lia.
  - apply sum_at_least_length, Hpos.
Qed.

(** C2.  The rank aggregator.  Every record is parsed; walking a parsed
    order gives its first label the position 1, the next one 2, and so on,
    and a label that is not in the label map gives no position to any
    model.  The aggregate holds exactly one entry for each model that
    collected a position, and none for a model that collected no position.
    The entry has the number of the positions of the model and their
    arithmetic mean rounded to two decimal places: a number of hundredths
    within half a hundredth of the mean, as a float holds it.  The list is
    in ascending order of average rank, and entries with equal averages
    stay in the order in which their models got their first position. *)
Theorem aggregate_is_sorted_mean_rank (stage2_results : list Stage2Result)
        (label_to_model : Dict.t pystr) :
  exists parsed_orders entries aggregate,
    Forall2 (fun r order => parse_ranking_from_text (s2_ranking r) = Ok order)
            stage2_results parsed_orders /\
    calculate_aggregate_rankings stage2_results label_to_model = Ok aggregate /\
    let votes := walked_votes label_to_model parsed_orders in
    Forall2 (fun model e =>
               let positions := positions_of model votes in
               agg_model e = model /\
               rankings_count e = length positions /\
               rounded_to_2_places (arithmetic_mean positions)
                                   (average_rank e))
            (mentioned votes) entries /\
    Permutation entries aggregate /\
    StronglySorted rank_le aggregate /\
    (forall c, filter (tied_at c) aggregate = filter (tied_at c) entries) /\
    NoDup (map agg_model aggregate) /\
    (forall model,
       In model (map agg_model aggregate)
       <-> positions_of model votes <> []).
Proof.
  destruct (parse_all stage2_results) as (parsed_orders & Hparse).
  set (votes := all_votes label_to_model parsed_orders).
  set (entries := map (fun model => entry_of model (positions_of model votes))
                      (mentioned votes)).
  exists parsed_orders, entries, (list_sort average_rank entries).
  split; [exact Hparse|].
  assert (Hnames : map agg_model entries = mentioned votes)
    by (apply (agg_model_entries (fun m => positions_of m votes))).
  assert (Hperm : Permutation entries (list_sort average_rank entries))
    by apply list_sort_perm.
  split.
  { unfold calculate_aggregate_rankings.
    rewrite (collect_positions_tally _ _ _ Hparse). cbn [rbind].
    fold votes. rewrite tally_items.
    rewrite (make_aggregate_entries (fun m => positions_of m votes)).
    - reflexivity.
    - intros m. apply positions_of_mentioned. }
  cbv zeta. rewrite (walked_votes_all label_to_model parsed_orders).
  fold votes.
  split; [|split; [|split; [|split; [|split]]]].
  - unfold entries.
    assert (Hall : forall m, In m (mentioned votes) ->
                             positions_of m votes <> [])
      by (intros m; apply positions_of_mentioned).
    revert Hall. generalize (mentioned votes) as ms.
    induction ms as [|m ms IH]; intros Hall; [constructor|].
    cbn [map]. constructor.
    + cbv zeta. split; [reflexivity|]. split; [reflexivity|].
      apply entry_rounded; [apply Hall; left; reflexivity|].
      apply positions_of_positive, all_votes_positions.
    + apply IH. intros m' Hm'. apply Hall. right. exact Hm'.
  - exact Hperm.
  - apply (list_sort_sorted average_rank).
  - intros c. apply (list_sort_stable average_rank).
  - apply (Permutation_NoDup (l := map agg_model entries)).
    + apply Permutation_map, Hperm.
    + rewrite Hnames. apply first_occurrences_NoDup.
  - intros model.
    apply (iff_trans (B := In model (map agg_model entries))).
    + split; apply Permutation_in, Permutation_map;
        [apply Permutation_sym|]; exact Hperm.
    + rewrite Hnames. apply positions_of_mentioned.
Qed.

End AggregateFacts.

Lemma aggregate_is_sorted_mean_rank_witness :
  ascii_compatible unicode14 /\
  exists aggregate,
    calculate_aggregate_rankings stage2_three (make_label_to_model answers_xy)
    = Ok aggregate /\
    map agg_model aggregate = [model_X; model_Y] /\
    map rankings_count aggregate = [3%nat; 3%nat] /\
    Forall2 (fun e hundredths =>
               Qabs (average_rank e - (hundredths # 100))
               <= 1 # 1000000000000000)
            aggregate [133%Z; 167%Z] /\
    StronglySorted rank_le aggregate.
Proof.
  split; [exact unicode14_ascii|].
  destruct (aggregate_is_sorted_mean_rank unicode14_ascii stage2_three
              (make_label_to_model answers_xy))
    as (orders & entries & aggregate & _ & Hrun & _ & _ & Hsorted & _).
  exists aggregate. split; [exact Hrun|].
  vm_compute in Hrun. injection Hrun as <-.
  split; [reflexivity|]. split; [reflexivity|].
  split; [|exact Hsorted].
  repeat constructor; vm_compute; discriminate.
Defined.

(** * Further properties *)

(** ** The ranking parser *)

Section ParserMore.
Context {db : UnicodeDB}.

Lemma label_prefix_occurs (l : pystr) :
  is_label l -> occurs_in Re.LABEL_PREFIX l.
Proof.
  intros (c & _ & ->). exists [], [c]. reflexivity.
Qed.

Lemma findall_nil_by_elements (m : Re.matcher) (s : pystr) :
  (forall x, ~ In x (Re.findall m s)) -> Re.findall m s = [].
Proof.
  intros H. destruct (Re.findall m s) as [|x l]; [reflexivity|].
  exfalso. apply (H x). left. reflexivity.
Qed.

Lemma no_label_occurs (s l : pystr) :
  PyStr.contains Re.LABEL_PREFIX s = false -> is_label l -> ~ occurs_in l s.
Proof.
  intros H Hl Ho.
  assert (C : PyStr.contains Re.LABEL_PREFIX s = true); [|congruence].
  apply contains_iff. eapply occurs_in_trans; [|exact Ho].
  apply label_prefix_occurs, Hl.
Qed.

Lemma findall_bare_no_label (s : pystr) :
  PyStr.contains Re.LABEL_PREFIX s = false ->
  Re.findall Re.match_bare s = [].
Proof.
  intros H. apply findall_nil_by_elements. intros x Hx.
  apply findall_bare_In in Hx as (Hl & Ho).
  apply (no_label_occurs s x H Hl Ho).
Qed.

Lemma findall_numbered_no_label (s : pystr) :
  PyStr.contains Re.LABEL_PREFIX s = false ->
  Re.findall Re.match_numbered s = [].
Proof.
  intros H. apply findall_nil_by_elements. intros x Hx.
  apply findall_numbered_In in Hx as (Ho & l & Hl).
  destruct Hl as (ds & ws & -> & _ & _ & _ & Hl).
  apply (no_label_occurs s l H Hl). eapply occurs_in_trans; [|exact Ho].
  exists (ds ++ [46%N] ++ ws), []. rewrite app_nil_r, <- !app_assoc.
  reflexivity.
Qed.

(** X1.  A text in which [Response ] never occurs is parsed to the empty
    list, with or without the marker. *)
Theorem parse_without_response_is_empty (text : pystr) :
  PyStr.contains Re.LABEL_PREFIX text = false ->
  parse_ranking_from_text text = Ok [].
Proof.
  intros H. destruct (PyStr.contains MARKER text) eqn:C.
  - rewrite parse_marker by exact C.
    assert (H' : PyStr.contains Re.LABEL_PREFIX (restricted_text text) = false).
    { destruct (PyStr.contains Re.LABEL_PREFIX (restricted_text text)) eqn:E;
        [|reflexivity].
      apply contains_iff in E.
      assert (C' : PyStr.contains Re.LABEL_PREFIX text = true); [|congruence].
      apply contains_iff. eapply occurs_in_trans; [exact E|].
      apply restricted_text_occurs. }
    rewrite extract_ranking_bare by (apply findall_numbered_no_label, H').
    rewrite findall_bare_no_label by exact H'. reflexivity.
  - rewrite parse_no_marker by exact C.
    rewrite findall_bare_no_label by exact H. reflexivity.
Qed.

Lemma find_some_starts (x s : pystr) (i : nat) :
  PyStr.find x s = Some i -> PyStr.starts_with x (skipn i s) = true.
Proof.
  revert i; induction s as [|c s IH]; intros i; simpl.
  - destruct (PyStr.starts_with x []) eqn:E; [|discriminate].
    intros [= <-]. exact E.
  - destruct (PyStr.starts_with x (c :: s)) eqn:E.
    + intros [= <-]. exact E.
    + destruct (PyStr.find x s) as [j|] eqn:F; simpl; [|discriminate].
      intros [= <-]. simpl. apply IH. reflexivity.
Qed.

Lemma find_starts (x s : pystr) :
  PyStr.starts_with x s = true -> PyStr.find x s = Some 0%nat.
Proof. intros H. destruct s; simpl; rewrite H; reflexivity. Qed.

(** X2.  What stands before the first marker does not count: the parser
    gives the same result on the text from the first marker on. *)
Theorem parse_ignores_preamble (text : pystr) (i : nat) :
  PyStr.find MARKER text = Some i ->
  parse_ranking_from_text text = parse_ranking_from_text (skipn i text).
Proof.
  intros F. pose proof (find_starts _ _ (find_some_starts _ _ _ F)) as F0.
  rewrite !parse_marker by (eapply find_some_contains; eassumption).
  unfold restricted_text, after_first_marker. rewrite F, F0.
  rewrite skipn_skipn. do 2 f_equal. f_equal. lia.
Qed.

Lemma findall_go_skip (m : Re.matcher) (a r : pystr) :
  Re.findall_go m (length a) (a ++ r) = Re.findall_go m 0 r.
Proof.
  induction a as [|c a IH]; simpl; [destruct r; reflexivity|exact IH].
Qed.

Lemma fi_free_no_marker (s : pystr) :
  fi_free s = true -> PyStr.contains MARKER s = false.
Proof.
  induction s as [|c s IH]; intros H; [reflexivity|].
  cbn [PyStr.contains]. apply orb_false_iff. split.
  - change MARKER with (70%N :: 73%N :: PyStr.str "NAL RANKING:").
    cbn [PyStr.starts_with]. cbn [fi_free] in H.
    destruct s as [|d s]; [apply andb_false_r|].
    apply andb_true_iff in H as [H _]. apply negb_true_iff in H.
    rewrite (N.eqb_sym 70 c), (N.eqb_sym 73 d), andb_assoc, H. reflexivity.
  - apply IH. cbn [fi_free] in H. destruct s as [|d s]; [reflexivity|].
    apply andb_true_iff in H as [_ H]. exact H.
Qed.

Lemma fi_free_cons (c : char) (s : pystr) :
  c <> 70%N -> fi_free s = true -> fi_free (c :: s) = true.
Proof.
  intros Hc H. cbn [fi_free]. destruct s as [|d s]; [reflexivity|].
  rewrite H, andb_true_r. apply negb_true_iff, andb_false_iff. left.
  apply N.eqb_neq, Hc.
Qed.

Lemma fi_free_app (a s : pystr) :
  Forall (fun c => c <> 70%N) a -> fi_free s = true -> fi_free (a ++ s) = true.
Proof.
  induction 1 as [|c a Hc _ IH]; intros H; [exact H|].
  cbn [app]. apply fi_free_cons; [exact Hc|apply IH, H].
Qed.

Lemma ascii_decimal_not_F (ds : pystr) :
  forallb ascii_decimal ds = true -> Forall (fun c => c <> 70%N) ds.
Proof.
  rewrite forallb_forall, Forall_forall. intros H c Hc ->.
  specialize (H _ Hc). discriminate.
Qed.

Lemma fi_free_lines (entries : list (pystr * pystr)) :
  Forall ranking_entry entries ->
  fi_free (concat (map (fun e => ranking_line (fst e) (snd e)) entries)) = true.
Proof.
  induction 1 as [|[ds l] entries (_ & Hd & c & _ & E) _ IH]; [reflexivity|].
  cbn [map concat fst snd] in *. subst l. unfold ranking_line.
  rewrite <- !app_assoc. apply fi_free_app; [apply ascii_decimal_not_F, Hd|].
  change (PyStr.str ". " ++ response_label c ++ NEWLINE
          ++ concat (map (fun e => fst e ++ PyStr.str ". " ++ snd e ++ NEWLINE)
                         entries))
    with (PyStr.str ". Response "
          ++ c :: 10%N
          :: concat (map (fun e => fst e ++ PyStr.str ". " ++ snd e ++ NEWLINE)
                         entries)).
  apply fi_free_app; [repeat constructor; discriminate|].
  cbn [fi_free]. apply andb_true_iff. split; [apply negb_true_iff, andb_false_r|].
  apply fi_free_cons; [discriminate|exact IH].
Qed.

Section AsciiMore.
Hypothesis Hascii : ascii_compatible db.

Lemma ascii_decimal_is_decimal (d : char) :
  ascii_decimal d = true -> is_decimal d = true.
Proof.
  intros H. destruct (Hascii d) as [E _]; [|congruence].
  unfold ascii_decimal in H. apply andb_true_iff in H as [_ H].
  apply N.leb_le in H. lia.
Qed.

Lemma match_spaces_bare_label (c : char) (rest : pystr) :
  Re.is_upper c = true ->
  Re.match_spaces_bare (response_label c ++ rest) = Some 10%nat.
Proof.
  intros U. pose proof (match_bare_label c rest U) as M.
  assert (E : response_label c ++ rest
              = 82%N :: (PyStr.str "esponse " ++ [c] ++ rest)) by reflexivity.
  rewrite E in *. cbn [Re.match_spaces_bare].
  destruct (Hascii 82%N) as [_ W]; [reflexivity|]. rewrite W. exact M.
Qed.

Lemma match_dot_line (c : char) (rest : pystr) :
  Re.is_upper c = true ->
  Re.match_dot (PyStr.str ". " ++ response_label c ++ rest) = Some 12%nat.
Proof.
  intros U.
  change (PyStr.str ". " ++ response_label c ++ rest)
    with (46%N :: 32%N :: (response_label c ++ rest)).
  cbn [Re.match_dot Re.match_spaces_bare]. rewrite N.eqb_refl.
  destruct (Hascii 32%N) as [_ W]; [reflexivity|]. rewrite W.
  rewrite match_spaces_bare_label by exact U. reflexivity.
Qed.

Lemma match_digits_dot_line (ds : pystr) (c : char) (rest : pystr) :
  forallb ascii_decimal ds = true -> Re.is_upper c = true ->
  Re.match_digits_dot (ds ++ PyStr.str ". " ++ response_label c ++ rest)
  = Some (length ds + 12)%nat.
Proof.
  intros Hd U. induction ds as [|d ds IH].
  - cbn [app length Nat.add].
    pose proof (match_dot_line c rest U) as M.
    change (PyStr.str ". " ++ response_label c ++ rest)
      with (46%N :: 32%N :: (response_label c ++ rest)) in *.
    cbn [Re.match_digits_dot].
    destruct (Hascii 46%N) as [D _]; [reflexivity|]. rewrite D. exact M.
  - cbn [forallb] in Hd. apply andb_true_iff in Hd as [Hd0 Hd].
    cbn [app length Nat.add Re.match_digits_dot].
    rewrite (ascii_decimal_is_decimal d Hd0), (IH Hd). reflexivity.
Qed.

Lemma match_numbered_line (ds : pystr) (c : char) (rest : pystr) :
  ds <> [] -> forallb ascii_decimal ds = true -> Re.is_upper c = true ->
  Re.match_numbered (ds ++ PyStr.str ". " ++ response_label c ++ rest)
  = Some (length ds + 12)%nat.
Proof.
  intros Hne Hd U. destruct ds as [|d ds]; [contradiction|].
  cbn [forallb] in Hd. apply andb_true_iff in Hd as [Hd0 Hd].
  cbn [app length Nat.add Re.match_numbered].
  rewrite (ascii_decimal_is_decimal d Hd0), (match_digits_dot_line ds c rest Hd U).
  reflexivity.
Qed.

Lemma findall_numbered_line (ds : pystr) (c : char) (rest : pystr) :
  ds <> [] -> forallb ascii_decimal ds = true -> Re.is_upper c = true ->
  Re.findall_go Re.match_numbered 0
    (ranking_line ds (response_label c) ++ rest)
  = (ds ++ PyStr.str ". " ++ response_label c)
      :: Re.findall_go Re.match_numbered 0 rest.
Proof.
  intros Hne Hd U. unfold ranking_line. rewrite <- !app_assoc.
  pose proof (match_numbered_line ds c (NEWLINE ++ rest) Hne Hd U) as M.
  set (entry := ds ++ PyStr.str ". " ++ response_label c).
  assert (E : ds ++ PyStr.str ". " ++ response_label c ++ NEWLINE ++ rest
              = entry ++ NEWLINE ++ rest)
    by (unfold entry; rewrite <- !app_assoc; reflexivity).
  assert (L : length entry = (length ds + 12)%nat).
  { unfold entry. rewrite !length_app, length_response_label. reflexivity. }
  rewrite E in *. destruct entry as [|d entry']; [simpl in L; lia|].
  cbn [app Re.findall_go]. cbn [app] in M. rewrite M.
  replace (length ds + 12)%nat with (S (length entry')) by (simpl in L; lia).
  change (d :: entry' ++ NEWLINE ++ rest)
    with ((d :: entry') ++ NEWLINE ++ rest).
  rewrite firstn_app, firstn_all2 by (simpl; lia).
  replace (S (length entry') - length (d :: entry'))%nat with 0%nat
    by (simpl; lia).
  cbn [firstn]. rewrite app_nil_r. f_equal.
  rewrite findall_go_skip. cbn [NEWLINE app Re.findall_go Re.match_numbered].
  destruct (Hascii 10%N) as [D _]; [reflexivity|]. rewrite D. reflexivity.
Qed.

Lemma findall_numbered_lines (entries : list (pystr * pystr)) :
  Forall ranking_entry entries ->
  Re.findall_go Re.match_numbered 0
    (concat (map (fun e => ranking_line (fst e) (snd e)) entries))
  = map (fun e => fst e ++ PyStr.str ". " ++ snd e) entries.
Proof.
  induction 1 as [|[ds l] entries (Hne & Hd & c & U & E) _ IH]; [reflexivity|].
  cbn [map concat fst snd] in *. subst l.
  rewrite findall_numbered_line by assumption. rewrite IH. reflexivity.
Qed.

Lemma rmap_group_lines (entries : list (pystr * pystr)) :
  Forall ranking_entry entries ->
  rmap group_of_search (map (fun e => fst e ++ PyStr.str ". " ++ snd e) entries)
  = Ok (map snd entries).
Proof.
  induction 1 as [|[ds l] entries (Hne & Hd & Hl) _ IH]; [reflexivity|].
  cbn [map rmap fst snd] in *.
  rewrite (group_of_search_entry Hascii _ l).
  - cbn [rbind]. rewrite IH. reflexivity.
  - exists ds, [32%N]. repeat split; try assumption.
    + apply forallb_forall. intros d Hin. apply ascii_decimal_is_decimal.
      rewrite forallb_forall in Hd. apply Hd, Hin.
    + cbn [forallb]. destruct (Hascii 32%N) as [_ W]; [reflexivity|].
      rewrite W. reflexivity.
Qed.

(** X3.  A ranking written in the format the ranking prompt asks for (the
    marker, then lines made of a number, a period, a space and a label) is
    parsed back to its labels, in the order of the lines, whatever the
    numbers are. *)
Theorem parse_formatted_ranking (entries : list (pystr * pystr)) :
  Forall ranking_entry entries ->
  parse_ranking_from_text (formatted_ranking entries) = Ok (map snd entries).
Proof.
  intros H. unfold formatted_ranking.
  set (body := NEWLINE
               ++ concat (map (fun e => ranking_line (fst e) (snd e)) entries)).
  assert (Hfree : PyStr.contains MARKER body = false).
  { apply fi_free_no_marker. unfold body.
    apply fi_free_app; [repeat constructor; discriminate|].
    apply fi_free_lines, H. }
  assert (F : PyStr.find MARKER (MARKER ++ body) = Some 0%nat)
    by (apply find_starts, starts_with_app).
  rewrite parse_marker by (eapply find_some_contains; exact F).
  unfold restricted_text, after_first_marker. rewrite F.
  change (0 + length MARKER)%nat with (length MARKER).
  rewrite skipn_app, skipn_all, Nat.sub_diag. cbn [skipn app].
  unfold up_to_marker. apply find_none_iff in Hfree. rewrite Hfree.
  assert (Hnum : Re.findall Re.match_numbered body
                 = map (fun e => fst e ++ PyStr.str ". " ++ snd e) entries).
  { unfold Re.findall, body. cbn [NEWLINE app Re.findall_go Re.match_numbered].
    destruct (Hascii 10%N) as [D _]; [reflexivity|]. rewrite D.
    apply findall_numbered_lines, H. }
  destruct entries as [|e entries].
  - rewrite extract_ranking_bare by exact Hnum. reflexivity.
  - rewrite extract_ranking_numbered by (rewrite Hnum; discriminate).
    rewrite Hnum. apply rmap_group_lines, H.
Qed.

End AsciiMore.

End ParserMore.

(** ** Labels past the alphabet *)

Lemma label_at_is_label (i : nat) : is_label (label_at i) <-> (i < 26)%nat.
Proof.
  unfold label_at, is_label. split.
  - intros (c & U & E). apply response_label_inj in E. subst c.
    unfold Re.is_upper in U. apply andb_true_iff in U as [_ U].
    apply N.leb_le in U. lia.
  - intros H. exists (N.of_nat (65 + i)). split; [|reflexivity].
    unfold Re.is_upper. apply andb_true_iff. split; apply N.leb_le; lia.
Qed.

Lemma get_in {V} (k : pystr) (v : V) (d : Dict.t V) :
  Dict.get k d = Some v -> In (k, v) d.
Proof.
  induction d as [|[k' v'] d IH]; simpl; [discriminate|].
  destruct (PyStr.eqb k k') eqn:E.
  - apply eqb_spec_str in E. subst. intros [= ->]. left. reflexivity.
  - intros H. right. apply IH, H.
Qed.

Lemma in_combine_nth {A B} (l : list A) (l' : list B) (a : A) (b : B) :
  In (a, b) (combine l l') ->
  exists j, nth_error l j = Some a /\ nth_error l' j = Some b.
Proof.
  revert l'; induction l as [|x l IH]; intros [|y l']; simpl;
    try contradiction.
  intros [[= -> ->]|H].
  - exists 0%nat. split; reflexivity.
  - destruct (IH _ H) as (j & Ha & Hb). exists (S j). split; assumption.
Qed.

(** A vote comes from a label of a parsed order that the label map sends
    to the model. *)
Lemma all_votes_In (label_to_model : Dict.t pystr)
      (parsed_orders : list (list pystr)) (model : pystr) (p : Z) :
  In (model, p) (all_votes label_to_model parsed_orders) ->
  exists order label,
    In order parsed_orders /\ In label order /\
    Dict.get label label_to_model = Some model.
Proof.
  unfold all_votes, votes_of_order. intros H.
  apply in_flat_map in H as (order & Ho & H).
  apply in_flat_map in H as ([pos label] & Hpl & H). cbn [fst snd] in H.
  exists order, label. split; [exact Ho|]. split.
  - unfold enumerate1 in Hpl. apply in_combine_r in Hpl. exact Hpl.
  - destruct (Dict.get label label_to_model) as [m|]; [|contradiction].
    destruct H as [[= -> _]|[]]. reflexivity.
Qed.

Lemma positions_of_In (votes : list (pystr * Z)) (model : pystr) :
  positions_of model votes <> [] -> exists p, In (model, p) votes.
Proof.
  unfold positions_of. intros H.
  destruct (filter (fun v => PyStr.eqb (fst v) model) votes) as [|[m p] l] eqn:E;
    [contradiction|].
  assert (Hin : In (m, p) (filter (fun v => PyStr.eqb (fst v) model) votes))
    by (rewrite E; left; reflexivity).
  apply filter_In in Hin as [Hin Hm]. cbn [fst] in Hm.
  apply eqb_spec_str in Hm. subst. exists p. exact Hin.
Qed.

Section AggregateMore.
Context {db : UnicodeDB}.

(** The aggregate, for records whose texts parse to the given orders. *)
Lemma calculate_aggregate_eq (stage2_results : list Stage2Result)
      (label_to_model : Dict.t pystr) (parsed_orders : list (list pystr)) :
  Forall2 (fun r order => parse_ranking_from_text (s2_ranking r) = Ok order)
          stage2_results parsed_orders ->
  let votes := all_votes label_to_model parsed_orders in
  calculate_aggregate_rankings stage2_results label_to_model
  = Ok (list_sort average_rank
          (map (fun model => entry_of model (positions_of model votes))
               (mentioned votes))).
Proof.
  intros Hparse votes. unfold calculate_aggregate_rankings.
  rewrite (collect_positions_tally _ _ _ Hparse). cbn [rbind].
  fold votes. rewrite tally_items.
  rewrite (make_aggregate_entries (fun m => positions_of m votes)).
  - reflexivity.
  - intros m. apply positions_of_mentioned.
Qed.

Lemma aggregate_models (stage2_results : list Stage2Result)
      (label_to_model : Dict.t pystr) (parsed_orders : list (list pystr))
      (aggregate : list AggregateEntry) (model : pystr) :
  Forall2 (fun r order => parse_ranking_from_text (s2_ranking r) = Ok order)
          stage2_results parsed_orders ->
  calculate_aggregate_rankings stage2_results label_to_model = Ok aggregate ->
  In model (map agg_model aggregate) ->
  exists p, In (model, p) (all_votes label_to_model parsed_orders).
Proof.
  intros Hparse Hrun Hin.
  rewrite (calculate_aggregate_eq _ _ _ Hparse) in Hrun.
  injection Hrun as <-.
  apply (Permutation_in _ (Permutation_sym
           (Permutation_map agg_model (list_sort_perm average_rank _)))) in Hin.
  rewrite agg_model_entries in Hin.
  apply positions_of_In, positions_of_mentioned, Hin.
Qed.

Hypothesis Hascii : ascii_compatible db.

(** X4.  There are twenty-six labels the parser can return.  A stage-1
    record at place 26 or later gets a label past the letter Z, which the
    parser never returns: whatever the evaluators write, its model is
    absent from the aggregate. *)
Theorem record_past_Z_is_never_ranked (stage1_results : list Stage1Result)
        (i : nat) (r : Stage1Result) (stage2_results : list Stage2Result)
        (aggregate : list AggregateEntry) :
  NoDup (map s1_model stage1_results) ->
  nth_error stage1_results i = Some r ->
  (26 <= i)%nat ->
  calculate_aggregate_rankings stage2_results
    (make_label_to_model stage1_results) = Ok aggregate ->
  ~ In (s1_model r) (map agg_model aggregate).
Proof.
  intros Hnd Hr Hi Hrun Hin.
  destruct (parse_all Hascii stage2_results) as (orders & Hparse).
  destruct (aggregate_models _ _ _ _ _ Hparse Hrun Hin) as (p & Hvote).
  apply all_votes_In in Hvote as (order & label & Ho & Hl & Hget).
  assert (Hlabel : is_label label).
  { assert (Hex : exists rec, In rec stage2_results
                    /\ parse_ranking_from_text (s2_ranking rec) = Ok order).
    { clear -Hparse Ho. induction Hparse as [|rec o rs os Hp _ IH];
        [contradiction|].
      destruct Ho as [->|Ho].
      - exists rec. split; [left; reflexivity|exact Hp].
      - destruct (IH Ho) as (rec' & Hin & Hp'). exists rec'.
        split; [right; exact Hin|exact Hp']. }
    destruct Hex as (rec & _ & Hp).
    destruct (parse_total Hascii (s2_ranking rec)) as (labels & Hp' & Hall).
    rewrite Hp in Hp'. injection Hp' as <-.
    rewrite Forall_forall in Hall. apply (Hall label Hl). }
  apply get_in in Hget.
  change (make_label_to_model stage1_results)
    with (Dict.items (make_label_to_model stage1_results)) in Hget.
  rewrite label_to_model_items in Hget.
  apply in_combine_nth in Hget as (j & Hj & Hm).
  assert (Hjlt : (j < length stage1_results)%nat).
  { apply nth_error_Some. rewrite nth_error_map in Hm.
    destruct (nth_error stage1_results j); [discriminate|discriminate]. }
  rewrite nth_error_labels in Hj by exact Hjlt. injection Hj as <-.
  assert (E : j = i).
  { apply (proj1 (NoDup_nth_error (map s1_model stage1_results)) Hnd).
    - rewrite length_map. exact Hjlt.
    - rewrite Hm, nth_error_map, Hr. reflexivity. }
  subst j. apply label_at_is_label in Hlabel. lia.
Qed.

End AggregateMore.

Lemma answers_27_distinct : NoDup (map s1_model answers_27).
Proof.
  unfold answers_27. rewrite map_map. cbn [s1_model].
  apply Injective_map_NoDup; [|apply seq_NoDup].
  intros a b [= E]. lia.
Qed.

Lemma record_past_Z_is_never_ranked_witness :
  NoDup (map s1_model answers_27) /\
  nth_error answers_27 26
  = Some {| s1_model := [26%N]; s1_response := Some [] |} /\
  (26 <= 26)%nat /\
  exists aggregate,
    calculate_aggregate_rankings [ranking_past_Z]
      (make_label_to_model answers_27) = Ok aggregate /\
    map agg_model aggregate = [[0%N]] /\
    ~ In [26%N] (map agg_model aggregate).
Proof.
  split; [exact answers_27_distinct|]. split; [reflexivity|].
  split; [lia|].
  assert (Hrun : exists aggregate,
             calculate_aggregate_rankings [ranking_past_Z]
               (make_label_to_model answers_27) = Ok aggregate /\
             map agg_model aggregate = [[0%N]]).
  { eexists. split; [vm_compute; reflexivity|reflexivity]. }
  destruct Hrun as (aggregate & Hrun & Hmodels).
  exists aggregate. split; [exact Hrun|]. split; [exact Hmodels|].
  apply (record_past_Z_is_never_ranked unicode14_ascii answers_27 26
           {| s1_model := [26%N]; s1_response := Some [] |}
           [ranking_past_Z] aggregate answers_27_distinct eq_refl
           (Nat.le_refl 26) Hrun).
Defined.

(** ** Counting the votes *)

Lemma list_sum_cons (a : nat) (l : list nat) :
  list_sum (a :: l) = (a + list_sum l)%nat.
Proof. reflexivity. Qed.

Lemma list_sum_perm (l l' : list nat) :
  Permutation l l' -> list_sum l = list_sum l'.
Proof.
  induction 1; simpl; lia.
Qed.

Lemma sum_split_key (f : pystr -> nat) (x : pystr) (L : list pystr) :
  NoDup L ->
  list_sum (map f L)
  = ((if existsb (PyStr.eqb x) L then f x else 0)
     + list_sum (map f (filter (fun y => negb (PyStr.eqb y x)) L)))%nat.
Proof.
  induction 1 as [|y L Hy Hnd IH]; [reflexivity|].
  cbn [map existsb filter]. rewrite list_sum_cons, IH.
  destruct (PyStr.eqb x y) eqn:E.
  - apply eqb_spec_str in E. subst y. rewrite eqb_refl_str. cbn [negb orb].
    assert (N : existsb (PyStr.eqb x) L = false).
    { destruct (existsb (PyStr.eqb x) L) eqn:E; [|reflexivity].
      apply existsb_eqb_In in E. contradiction. }
    rewrite N. lia.
  - assert (E' : PyStr.eqb y x = false).
    { apply eqb_neq_str. apply eqb_neq_str in E. congruence. }
    rewrite E'. cbn [negb orb map]. rewrite list_sum_cons. lia.
Qed.

(** Every vote is counted once: the counts of the models that got a vote
    add up to the number of votes. *)
Lemma sum_of_counts (votes : list (pystr * Z)) :
  list_sum (map (fun m => length (positions_of m votes)) (mentioned votes))
  = length votes.
Proof.
  unfold mentioned.
  induction votes as [|[x p] votes IH]; [reflexivity|].
  cbn [map fst first_occurrences length]. rewrite list_sum_cons.
  set (c := fun m => length (positions_of m votes)) in *.
  assert (Hhead : length (positions_of x ((x, p) :: votes)) = S (c x)).
  { unfold positions_of, c. cbn [filter fst]. rewrite eqb_refl_str.
    reflexivity. }
  assert (Htail : map (fun m => length (positions_of m ((x, p) :: votes)))
                      (filter (fun y => negb (PyStr.eqb y x))
                              (first_occurrences (map fst votes)))
                  = map c (filter (fun y => negb (PyStr.eqb y x))
                                  (first_occurrences (map fst votes)))).
  { apply map_ext_in. intros m Hm. apply filter_In in Hm as [_ Hm].
    apply negb_true_iff in Hm. unfold positions_of, c. cbn [filter fst].
    assert (E : PyStr.eqb x m = false).
    { apply eqb_neq_str. apply eqb_neq_str in Hm. congruence. }
    rewrite E. reflexivity. }
  rewrite Hhead, Htail.
  pose proof (sum_split_key c x (first_occurrences (map fst votes))
                (first_occurrences_NoDup _)) as S.
  rewrite IH in S.
  destruct (existsb (PyStr.eqb x) (first_occurrences (map fst votes))) eqn:E.
  - lia.
  - assert (Z0 : c x = 0%nat).
    { unfold c. destruct (positions_of x votes) eqn:P; [reflexivity|].
      assert (Hin : In x (mentioned votes))
        by (apply positions_of_mentioned; congruence).
      apply existsb_eqb_In in Hin. unfold mentioned in Hin. congruence. }
    lia.
Qed.

Lemma length_votes_of_order (label_to_model : Dict.t pystr)
      (order : list pystr) :
  length (votes_of_order label_to_model order)
  = length (filter (fun l => present (Dict.get l label_to_model)) order).
Proof.
  unfold votes_of_order, enumerate1.
  generalize 1%nat as start.
  induction order as [|l order IH]; intros start; [reflexivity|].
  cbn [length seq map combine flat_map filter fst snd].
  rewrite length_app, IH.
  destruct (Dict.get l label_to_model); reflexivity.
Qed.

Lemma length_all_votes (label_to_model : Dict.t pystr)
      (orders : list (list pystr)) :
  length (all_votes label_to_model orders)
  = length (filter (fun l => present (Dict.get l label_to_model))
                   (concat orders)).
Proof.
  unfold all_votes. induction orders as [|order orders IH]; [reflexivity|].
  cbn [flat_map concat]. rewrite filter_app, !length_app, IH.
  rewrite length_votes_of_order. reflexivity.
Qed.

Section AggregateCounts.
Context {db : UnicodeDB}.
Hypothesis Hascii : ascii_compatible db.

Lemma parsed_orders_parse (stage2_results : list Stage2Result) :
  Forall2 (fun r order => parse_ranking_from_text (s2_ranking r) = Ok order)
          stage2_results (map parsed_order stage2_results).
Proof.
  induction stage2_results as [|r rs IH]; [constructor|].
  cbn [map]. constructor; [|exact IH].
  unfold parsed_order.
  destruct (parse_total Hascii (s2_ranking r)) as (labels & E & _).
  rewrite E. reflexivity.
Qed.

Lemma calculate_aggregate_votes (stage2_results : list Stage2Result)
      (label_to_model : Dict.t pystr) :
  let votes := votes_of label_to_model stage2_results in
  calculate_aggregate_rankings stage2_results label_to_model
  = Ok (list_sort average_rank
          (map (fun model => entry_of model (positions_of model votes))
               (mentioned votes))).
Proof.
  apply calculate_aggregate_eq, parsed_orders_parse.
Qed.

(** X5.  The aggregator always returns, and it counts every vote once:
    the [rankings_count] of its entries add up to the number of labels, in
    all the parsed orders, that are keys of the label map.  A label that
    occurs twice in one order counts twice. *)
Theorem aggregate_counts_every_vote (stage2_results : list Stage2Result)
        (label_to_model : Dict.t pystr) :
  exists aggregate,
    calculate_aggregate_rankings stage2_results label_to_model = Ok aggregate /\
    list_sum (map rankings_count aggregate)
    = length (filter (fun l => present (Dict.get l label_to_model))
                     (concat (map parsed_order stage2_results))).
Proof.
  eexists. split; [apply calculate_aggregate_votes|].
  set (votes := votes_of label_to_model stage2_results).
  rewrite <- (list_sum_perm _ _
               (Permutation_map rankings_count
                  (list_sort_perm average_rank _))).
  rewrite map_map. cbn [entry_of rankings_count].
  rewrite sum_of_counts. apply length_all_votes.
Qed.

(** X6.  The aggregate is empty exactly when no label of any parsed order
    is a key of the label map; so it is for no record at all, and for the
    empty label map. *)
Theorem aggregate_empty_iff_no_vote (stage2_results : list Stage2Result)
        (label_to_model : Dict.t pystr) :
  calculate_aggregate_rankings stage2_results label_to_model = Ok []
  <-> (forall r label,
         In r stage2_results -> In label (parsed_order r) ->
         Dict.get label label_to_model = None).
Proof.
  rewrite calculate_aggregate_votes.
  set (votes := votes_of label_to_model stage2_results).
  assert (Hlen : length votes
                 = length (filter (fun l => present (Dict.get l label_to_model))
                                  (concat (map parsed_order stage2_results))))
    by apply length_all_votes.
  split.
  - intros [= E] r label Hr Hl.
    assert (Hm : mentioned votes = []).
    { apply (f_equal (@length _)) in E.
      rewrite <- (Permutation_length (list_sort_perm average_rank _)) in E.
      rewrite length_map in E. apply length_zero_iff_nil, E. }
    assert (Hv : length votes = 0%nat).
    { rewrite <- sum_of_counts, Hm. reflexivity. }
    rewrite Hlen in Hv. apply length_zero_iff_nil in Hv.
    destruct (Dict.get label label_to_model) as [m|] eqn:G; [|reflexivity].
    exfalso.
    assert (Hin : In label (filter (fun l => present (Dict.get l label_to_model))
                                   (concat (map parsed_order stage2_results)))).
    { apply filter_In. split; [|rewrite G; reflexivity].
      apply in_concat. exists (parsed_order r). split; [|exact Hl].
      apply in_map, Hr. }
    rewrite Hv in Hin. exact Hin.
  - intros H.
    assert (Hv : votes = []).
    { apply length_zero_iff_nil. rewrite Hlen. apply length_zero_iff_nil.
      destruct (filter _ _) as [|l ls] eqn:E; [reflexivity|]. exfalso.
      assert (Hin : In l (filter (fun l => present (Dict.get l label_to_model))
                                 (concat (map parsed_order stage2_results))))
        by (rewrite E; left; reflexivity).
      apply filter_In in Hin as [Hin Hp]. apply in_concat in Hin
        as (order & Ho & Hl). apply in_map_iff in Ho as (r & <- & Hr).
      rewrite (H r l Hr Hl) in Hp. discriminate. }
    rewrite Hv. reflexivity.
Qed.

End AggregateCounts.

(** ** The order of the evaluators *)

Lemma sum_perm (l l' : list Z) :
  Permutation l l' ->
  forall acc, fold_left Z.add l acc = fold_left Z.add l' acc.
Proof.
  induction 1 as [|x l l' _ IH|x y l|l l' l'' _ IH1 _ IH2]; intros acc;
    cbn [fold_left].
  - reflexivity.
  - apply IH.
  - f_equal. lia.
  - rewrite IH1. apply IH2.
Qed.

Lemma entry_of_perm (model : pystr) (positions positions' : list Z) :
  Permutation positions positions' ->
  entry_of model positions = entry_of model positions'.
Proof.
  intros H. unfold entry_of.
  rewrite (sum_perm _ _ H), (Permutation_length H). reflexivity.
Qed.

Lemma positions_of_perm (model : pystr) (votes votes' : list (pystr * Z)) :
  Permutation votes votes' ->
  Permutation (positions_of model votes) (positions_of model votes').
Proof.
  intros H. unfold positions_of. apply Permutation_map.
  induction H as [|x l l' _ IH|x y l|l l' l'' _ IH1 _ IH2]; cbn [filter].
  - constructor.
  - destruct (PyStr.eqb (fst x) model); [apply perm_skip|]; exact IH.
  - destruct (PyStr.eqb (fst x) model), (PyStr.eqb (fst y) model);
      try reflexivity. apply perm_swap.
  - eapply perm_trans; eassumption.
Qed.

Lemma mentioned_perm (votes votes' : list (pystr * Z)) :
  Permutation votes votes' ->
  Permutation (mentioned votes) (mentioned votes').
Proof.
  intros H. unfold mentioned.
  apply NoDup_Permutation; try apply first_occurrences_NoDup.
  intros x. rewrite !first_occurrences_In.
  split; apply Permutation_in, Permutation_map;
    [exact H|apply Permutation_sym, H].
Qed.

Section EvaluatorOrder.
Context {db : UnicodeDB}.
Hypothesis Hascii : ascii_compatible db.

(** X7.  The order of the ranking records matters for the order of ties
    only: on the same records in another order the aggregator returns the
    same entries, in an order that may differ. *)
Theorem aggregate_of_permuted_records
        (stage2_results stage2_results' : list Stage2Result)
        (label_to_model : Dict.t pystr) :
  Permutation stage2_results stage2_results' ->
  exists aggregate aggregate',
    calculate_aggregate_rankings stage2_results label_to_model
    = Ok aggregate /\
    calculate_aggregate_rankings stage2_results' label_to_model
    = Ok aggregate' /\
    Permutation aggregate aggregate'.
Proof.
  intros H. eexists. eexists.
  split; [apply (calculate_aggregate_votes Hascii)|].
  split; [apply (calculate_aggregate_votes Hascii)|].
  set (votes := votes_of label_to_model stage2_results).
  set (votes' := votes_of label_to_model stage2_results').
  assert (Hv : Permutation votes votes').
  { unfold votes, votes', votes_of, all_votes.
    apply Permutation_flat_map, Permutation_map, H. }
  eapply perm_trans; [apply Permutation_sym, list_sort_perm|].
  eapply perm_trans; [|apply list_sort_perm].
  eapply perm_trans;
    [apply Permutation_map, mentioned_perm, Hv|].
  erewrite map_ext; [reflexivity|].
  intros m. cbv beta. apply entry_of_perm, positions_of_perm, Hv.
Qed.

End EvaluatorOrder.

Lemma aggregate_counts_every_vote_witness :
  ascii_compatible unicode14 /\
  exists aggregate,
    calculate_aggregate_rankings stage2_xy (make_label_to_model answers_xy)
    = Ok aggregate /\
    list_sum (map rankings_count aggregate) = 4%nat.
Proof.
  split; [exact unicode14_ascii|].
  destruct (aggregate_counts_every_vote unicode14_ascii stage2_xy
              (make_label_to_model answers_xy)) as (aggregate & Hrun & Hsum).
  exists aggregate. split; [exact Hrun|]. rewrite Hsum. reflexivity.
Defined.

Lemma aggregate_empty_iff_no_vote_witness :
  ascii_compatible unicode14 /\
  calculate_aggregate_rankings stage2_xy Dict.empty = Ok [].
Proof.
  split; [exact unicode14_ascii|].
  apply (aggregate_empty_iff_no_vote unicode14_ascii stage2_xy Dict.empty).
  intros r label _ _. reflexivity.
Defined.

Lemma aggregate_of_permuted_records_witness :
  ascii_compatible unicode14 /\
  Permutation stage2_xy (rev stage2_xy) /\
  exists aggregate aggregate',
    calculate_aggregate_rankings stage2_xy (make_label_to_model answers_xy)
    = Ok aggregate /\
    calculate_aggregate_rankings (rev stage2_xy)
      (make_label_to_model answers_xy) = Ok aggregate' /\
    Permutation aggregate aggregate' /\
    map agg_model aggregate = [model_Y; model_X] /\
    map agg_model aggregate' = [model_X; model_Y].
Proof.
  split; [exact unicode14_ascii|]. split; [apply Permutation_rev|].
  destruct (aggregate_of_permuted_records unicode14_ascii stage2_xy
              (rev stage2_xy) (make_label_to_model answers_xy)
              (Permutation_rev _))
    as (aggregate & aggregate' & Hrun & Hrun' & Hperm).
  exists aggregate, aggregate'.
  split; [exact Hrun|]. split; [exact Hrun'|]. split; [exact Hperm|].
  vm_compute in Hrun, Hrun'. injection Hrun as <-. injection Hrun' as <-.
  split; reflexivity.
Defined.

(** ** The fan-out on any roster *)

Lemma get_set {V} (k k' : pystr) (v : V) (d : Dict.t V) :
  Dict.get k (Dict.set k' v d)
  = if PyStr.eqb k k' then Some v else Dict.get k d.
Proof.
  induction d as [|[k0 v0] d IH]; cbn [Dict.set Dict.get].
  - reflexivity.
  - destruct (PyStr.eqb k' k0) eqn:E; cbn [Dict.get].
    + apply eqb_spec_str in E. subst k0.
      destruct (PyStr.eqb k k'); reflexivity.
    + rewrite IH. destruct (PyStr.eqb k k0) eqn:E0; [|reflexivity].
      apply eqb_spec_str in E0. subst k0.
      assert (E' : PyStr.eqb k k' = false).
      { apply eqb_neq_str. apply eqb_neq_str in E. congruence. }
      rewrite E'. reflexivity.
Qed.

(** In a comprehension the last pair of a key gives its value. *)
Lemma get_of_items {V} (k : pystr) (pairs : list (pystr * V)) :
  Dict.get k (Dict.of_items pairs) = last_value k pairs.
Proof.
  unfold Dict.of_items, last_value.
  induction pairs as [|[k' v] pairs IH] using rev_ind; [reflexivity|].
  rewrite fold_left_app, rev_app_distr. cbn [fold_left rev app find fst snd].
  rewrite get_set. destruct (PyStr.eqb k k'); [reflexivity|exact IH].
Qed.

Section FanOutMore.
Context {gw : Gateway}.

(** X8.  The fan-out on any roster, repeats included.  It never raises and
    makes one request for each entry of the roster, in order, all with the
    same messages and the timeout 120.  The mapping has one key for each
    distinct model, in the order of first occurrence, and a model named
    more than once is mapped to the outcome of its last request. *)
Theorem fan_out_on_any_roster (models : list pystr)
        (messages : list Message) (tr : list Call) :
  let outcomes := fanout_outcomes tr messages models in
  exists d,
    query_models_parallel models messages tr
    = (Ok d, tr ++ map (fanout_call messages) models) /\
    Dict.keys d = first_occurrences models /\
    NoDup (Dict.keys d) /\
    (forall model,
       Dict.get model d = last_value model (combine models outcomes)).
Proof.
  intros outcomes.
  exists (Dict.of_items (combine models outcomes)).
  split; [apply query_models_parallel_run|].
  assert (K : Dict.keys (Dict.of_items (combine models outcomes))
              = first_occurrences models).
  { rewrite keys_of_items, map_fst_combine; [reflexivity|].
    symmetry. apply length_fanout_outcomes. }
  split; [exact K|]. split.
  - rewrite K. apply first_occurrences_NoDup.
  - intros model. apply get_of_items.
Qed.

End FanOutMore.

Lemma fan_out_repeated_model_example :
  @query_models_parallel gateway_first_only roster_xyx
    (user_message query_2_plus_2) []
  = (Ok [(model_X, None); (model_Y, None)],
     map (fanout_call (user_message query_2_plus_2)) roster_xyx).
Proof. reflexivity. Qed.

(** ** Stage 2 *)

Lemma block_from_responses (a b : list Stage1Result) :
  map s1_response a = map s1_response b ->
  forall i, block_from i a = block_from i b.
Proof.
  revert b; induction a as [|r a IH]; intros [|r' b] E i;
    try discriminate; [reflexivity|].
  cbn [map] in E. injection E as Er E.
  specialize (IH b E (S i)).
  assert (Eh : block_entry i r = block_entry i r')
    by (unfold block_entry; rewrite Er; reflexivity).
  destruct a as [|r1 a], b as [|r1' b]; try discriminate.
  - exact Eh.
  - change (block_entry i r ++ NEWLINE ++ NEWLINE
              ++ block_from (S i) (r1 :: a)
            = block_entry i r' ++ NEWLINE ++ NEWLINE
              ++ block_from (S i) (r1' :: b)).
    rewrite Eh, IH. reflexivity.
Qed.

Section Stage2More.
Context {db : UnicodeDB} {gw : Gateway} {cfg : Config}.

Lemma stage2_collect_rankings_run (user_query : pystr)
      (stage1_results : list Stage1Result) (tr : list Call) :
  let messages := ranking_messages user_query stage1_results in
  let responses :=
    Dict.of_items
      (combine COUNCIL_MODELS (fanout_outcomes tr messages COUNCIL_MODELS)) in
  stage2_collect_rankings user_query stage1_results tr
  = (rbind (stage2_results_of (Dict.items responses))
           (fun records => Ok (records, make_label_to_model stage1_results)),
     tr ++ map (fanout_call messages) COUNCIL_MODELS).
Proof.
  intros messages responses.
  unfold stage2_collect_rankings, bind, lift, ret.
  fold (ranking_messages user_query stage1_results). fold messages.
  rewrite query_models_parallel_run. fold responses.
  destruct (stage2_results_of (Dict.items responses)); reflexivity.
Qed.

(** X9.  The ranking prompt shows the answers without their authors: two
    lists of stage-1 records with the same responses, whatever their
    models, give the same anonymised block, and stage 2 makes the same
    requests and returns the same ranking records for both. *)
Theorem stage2_does_not_see_the_models (user_query : pystr)
        (a b : list Stage1Result) (tr : list Call) :
  map s1_response a = map s1_response b ->
  make_responses_text a = make_responses_text b /\
  snd (stage2_collect_rankings user_query a tr)
  = snd (stage2_collect_rankings user_query b tr) /\
  rbind (fst (stage2_collect_rankings user_query a tr))
        (fun res => Ok (fst res))
  = rbind (fst (stage2_collect_rankings user_query b tr))
          (fun res => Ok (fst res)).
Proof.
  intros E.
  assert (Eb : make_responses_text a = make_responses_text b).
  { rewrite !responses_text_block. apply block_from_responses, E. }
  split; [exact Eb|].
  rewrite !stage2_collect_rankings_run. unfold ranking_messages.
  rewrite Eb. cbn [fst snd]. split; [reflexivity|].
  destruct (stage2_results_of _); reflexivity.
Qed.

Section Stage2Ascii.
Hypothesis Hascii : ascii_compatible db.

Lemma stage2_results_of_rankings (items : list (pystr * option Response)) :
  stage2_results_of items
  = if existsb null_answer (map snd items)
    then Raise TypeError
    else Ok (rankings_of items).
Proof.
  induction items as [|[model [r|]] items IH];
    cbn [stage2_results_of map snd existsb null_answer rankings_of].
  - reflexivity.
  - destruct (content r) as [text|]; cbn [absent present negb orb].
    + destruct (parse_total Hascii text) as (labels & P & _).
      unfold parsed_order. cbn [s2_ranking]. rewrite P, IH. cbn [rbind].
      destruct (existsb null_answer (map snd items)); reflexivity.
    + reflexivity.
  - exact IH.
Qed.

Lemma rankings_of_models (responses : Dict.t (option Response)) :
  existsb null_answer (Dict.values responses) = false ->
  NoDup (Dict.keys responses) ->
  map s2_model (rankings_of (Dict.items responses))
  = filter (succeeded responses) (Dict.keys responses).
Proof.
  unfold Dict.items, Dict.values, Dict.keys, succeeded.
  induction responses as [|[model r] d IH]; [reflexivity|].
  cbn [map fst snd existsb]. intros Hnull Hnd.
  apply orb_false_iff in Hnull as [Hr Hnull].
  apply NoDup_cons_iff in Hnd as [Hnotin Hnd].
  assert (E : filter (fun m => match Dict.get m ((model, r) :: d) with
                               | Some (Some _) => true
                               | _ => false
                               end) (map fst d)
              = filter (fun m => match Dict.get m d with
                                 | Some (Some _) => true
                                 | _ => false
                                 end) (map fst d)).
  { apply filter_ext_in. intros k Hk. cbn [Dict.get].
    destruct (PyStr.eqb k model) eqn:E; [|reflexivity].
    apply eqb_spec_str in E. subst. contradiction. }
  assert (Hhead : Dict.get model ((model, r) :: d) = Some r)
    by (cbn [Dict.get]; rewrite eqb_refl_str; reflexivity).
  cbn [filter]. rewrite Hhead, E. cbn [rankings_of].
  destruct r as [r|]; [|apply IH; assumption].
  cbn [null_answer] in Hr. destruct (content r); [|discriminate].
  cbn [map s2_model]. rewrite IH by assumption. reflexivity.
Qed.

(** X10.  Stage 2 asks the whole roster, whichever models answered in
    stage 1: it makes one request for each entry of the roster, all with
    the same ranking prompt.  It raises [TypeError] exactly when a model
    answers with a null content; otherwise it returns one record for each
    model that answered, in the order of the mapping, holding the text of
    the answer, with the label map of the stage-1 records. *)
Theorem stage2_asks_the_whole_roster (user_query : pystr)
        (stage1_results : list Stage1Result) (tr : list Call) :
  let messages := ranking_messages user_query stage1_results in
  exists responses,
    query_models_parallel COUNCIL_MODELS messages tr
    = (Ok responses, tr ++ map (fanout_call messages) COUNCIL_MODELS) /\
    snd (stage2_collect_rankings user_query stage1_results tr)
    = tr ++ map (fanout_call messages) COUNCIL_MODELS /\
    (existsb null_answer (Dict.values responses) = true ->
     fst (stage2_collect_rankings user_query stage1_results tr)
     = Raise TypeError) /\
    (existsb null_answer (Dict.values responses) = false ->
     exists records,
       fst (stage2_collect_rankings user_query stage1_results tr)
       = Ok (records, make_label_to_model stage1_results) /\
       map s2_model records
       = filter (succeeded responses) (Dict.keys responses) /\
       Forall (fun r =>
                 exists answer,
                   Dict.get (s2_model r) responses = Some (Some answer) /\
                   content answer = Some (s2_ranking r))
              records).
Proof.
  intros messages.
  set (responses :=
         Dict.of_items
           (combine COUNCIL_MODELS
                    (fanout_outcomes tr messages COUNCIL_MODELS))).
  assert (Hnd : NoDup (Dict.keys responses)).
  { unfold responses. rewrite keys_of_items. apply first_occurrences_NoDup. }
  exists responses. split; [apply query_models_parallel_run|].
  rewrite stage2_collect_rankings_run. fold messages responses.
  cbn [fst snd]. rewrite stage2_results_of_rankings.
  change (map snd (Dict.items responses)) with (Dict.values responses).
  split; [reflexivity|]. split.
  - intros H. rewrite H. reflexivity.
  - intros H. rewrite H. cbn [rbind].
    exists (rankings_of (Dict.items responses)).
    split; [reflexivity|]. split; [apply rankings_of_models; assumption|].
    clear H. unfold Dict.items. revert Hnd. generalize responses as d.
    induction d as [|[model r] d IH]; intros Hnd; [constructor|].
    cbn [Dict.keys map fst] in Hnd.
    apply NoDup_cons_iff in Hnd as [Hnotin Hnd].
    assert (Hrest : Forall (fun r0 =>
                     exists answer,
                       Dict.get (s2_model r0) ((model, r) :: d)
                       = Some (Some answer) /\
                       content answer = Some (s2_ranking r0))
                    (rankings_of d)).
    { specialize (IH Hnd). rewrite Forall_forall in *.
      intros rec Hrec. destruct (IH rec Hrec) as (answer & G & C).
      exists answer. split; [|exact C]. cbn [Dict.get].
      destruct (PyStr.eqb (s2_model rec) model) eqn:E; [|exact G].
      apply eqb_spec_str in E. subst model. exfalso. apply Hnotin.
      apply get_in in G. apply (in_map fst) in G. exact G. }
    cbn [rankings_of]. destruct r as [r|]; [|exact Hrest].
    destruct (content r) as [text|] eqn:C; [|exact Hrest].
    constructor; [|exact Hrest].
    exists r. cbn [s2_model s2_ranking Dict.get]. rewrite eqb_refl_str.
    split; [reflexivity|exact C].
Qed.

End Stage2Ascii.
End Stage2More.

(** ** Stage 3 *)




Section Stage3More.
Context {gw : Gateway} {cfg : Config}.

Lemma stage3_synthesize_final_run (user_query : pystr)
      (stage1_results : list Stage1Result)
      (stage2_results : list Stage2Result) (tr : list Call) :
  let call := chairman_call user_query stage1_results stage2_results in
  stage3_synthesize_final user_query stage1_results stage2_results tr
  = (Ok {| s3_model := CHAIRMAN_MODEL;
           s3_response :=
             match outcome tr call with
             | None => Some CHAIRMAN_FAILED_MESSAGE
             | Some r => content r
             end |},
     tr ++ [call]).
Proof.
  cbv zeta.
  unfold stage3_synthesize_final, chairman_call, chairman_text,
    stage1_text_of, stage2_text_of, bind, query_model.
  match goal with |- context [outcome tr ?c] => generalize (outcome tr c) end.
  intros [r|]; reflexivity.
Qed.


End Stage3More.

(** ** The pipeline with answers *)

Section PipelineMore.
Context {db : UnicodeDB} {gw : Gateway} {cfg : Config}.
Hypothesis Hascii : ascii_compatible db.

(** X13.  The pipeline when stage 1 has a record.  Stage 2 makes its
    requests after those of stage 1, so [2 * N] requests are made for a
    roster of [N] entries.  When stage 2 raises, the pipeline raises the
    same exception and the chairman is not asked.  Otherwise the
    aggregator returns, the chairman is asked once, after all the others,
    and the pipeline returns the records of stage 1 and of stage 2, the
    result of stage 3 and the metadata made of the label map and the
    aggregate. *)
Theorem pipeline_with_answers (user_query : pystr) (tr : list Call)
        (stage1_results : list Stage1Result) (tr1 : list Call) :
  stage1_collect_responses user_query tr = (Ok stage1_results, tr1) ->
  stage1_results <> [] ->
  exists tr2,
    snd (stage2_collect_rankings user_query stage1_results tr1) = tr2 /\
    tr2 = tr ++ map (fanout_call (user_message user_query)) COUNCIL_MODELS
             ++ map (fanout_call (ranking_messages user_query stage1_results))
                    COUNCIL_MODELS /\
    length tr2 = (length tr + 2 * length COUNCIL_MODELS)%nat /\
    match fst (stage2_collect_rankings user_query stage1_results tr1) with
    | Raise e => run_full_council user_query tr = (Raise e, tr2)
    | Ok (stage2_results, label_to_model) =>
      let call := chairman_call user_query stage1_results stage2_results in
      exists aggregate_rankings stage3_result,
        calculate_aggregate_rankings stage2_results label_to_model
        = Ok aggregate_rankings /\
        stage3_synthesize_final user_query stage1_results stage2_results tr2
        = (Ok stage3_result, tr2 ++ [call]) /\
        run_full_council user_query tr
        = (Ok (stage1_results, stage2_results, stage3_result,
               MetadataFull label_to_model aggregate_rankings),
           tr2 ++ [call])
    end.
Proof.
  intros Hrun1 Hne.
  assert (Htr1 : tr1 = tr ++ map (fanout_call (user_message user_query))
                                 COUNCIL_MODELS).
  { unfold stage1_collect_responses, bind in Hrun1.
    rewrite query_models_parallel_run in Hrun1. injection Hrun1 as _ <-.
    reflexivity. }
  pose proof (stage2_collect_rankings_run user_query stage1_results tr1)
    as Hrun2. cbv zeta in Hrun2.
  eexists. split; [reflexivity|].
  rewrite Hrun2. cbn [fst snd]. split; [|split].
  - rewrite Htr1, <- app_assoc. reflexivity.
  - rewrite Htr1, !length_app, !length_map. lia.
  - destruct stage1_results as [|r rest]; [contradiction|].
    assert (Hfull :
              run_full_council user_query tr
              = (s2 <- stage2_collect_rankings user_query (r :: rest) ;;
                 aggregate_rankings <-
                   lift (calculate_aggregate_rankings (fst s2) (snd s2)) ;;
                 stage3_result <-
                   stage3_synthesize_final user_query (r :: rest) (fst s2) ;;
                 ret (r :: rest, fst s2, stage3_result,
                      MetadataFull (snd s2) aggregate_rankings)) tr1).
    { unfold run_full_council. unfold bind at 1. rewrite Hrun1.
      reflexivity. }
    rewrite Hfull. clear Hfull.
    destruct (stage2_results_of _) as [stage2_results|e]; cbn [rbind] in *;
      unfold bind at 1; rewrite Hrun2; [|reflexivity].
    cbv zeta.
    pose proof (calculate_aggregate_votes Hascii stage2_results
                  (make_label_to_model (r :: rest))) as Hagg.
    cbv zeta in Hagg.
    eexists. eexists. split; [exact Hagg|].
    split; [apply stage3_synthesize_final_run|].
    cbn [fst snd]. unfold bind at 1, lift at 1. rewrite Hagg.
    unfold bind at 1. rewrite stage3_synthesize_final_run. reflexivity.
Qed.

End PipelineMore.

Lemma pipeline_with_answers_witness :
  exists aggregate_rankings stage3_result tr3,
    @run_full_council unicode14 gateway_xyz config_xyz query_2_plus_2 []
    = (Ok (answers_xy, stage2_xy, stage3_result,
           MetadataFull (make_label_to_model answers_xy) aggregate_rankings),
       tr3) /\
    map agg_model aggregate_rankings = [model_Y; model_X] /\
    s3_response stage3_result = Some (PyStr.str "2+2 is 4.") /\
    length tr3 = 7%nat.
Proof.
  assert (Hrun1 : @stage1_collect_responses gateway_xyz config_xyz
                    query_2_plus_2 [] = (Ok answers_xy, trace_stage1))
    by reflexivity.
  assert (Hne : answers_xy <> []) by discriminate.
  destruct (@pipeline_with_answers unicode14 gateway_xyz config_xyz
              unicode14_ascii query_2_plus_2 [] answers_xy trace_stage1
              Hrun1 Hne)
    as (tr2 & Htr2 & _ & Hlen & Hrest).
  assert (Hrun2 : fst (@stage2_collect_rankings unicode14 gateway_xyz
                         config_xyz query_2_plus_2 answers_xy trace_stage1)
                  = Ok (stage2_xy, make_label_to_model answers_xy))
    by (vm_compute; reflexivity).
  rewrite Hrun2 in Hrest. cbv zeta in Hrest.
  destruct Hrest as (aggregate_rankings & stage3_result & Hagg & Hrun3 & Hrun).
  exists aggregate_rankings, stage3_result,
         (tr2 ++ [@chairman_call config_xyz query_2_plus_2 answers_xy
                    stage2_xy]).
  split; [exact Hrun|]. split; [|split].
  - vm_compute in Hagg. injection Hagg as <-. reflexivity.
  - subst tr2. rewrite (@stage3_synthesize_final_run gateway_xyz config_xyz)
      in Hrun3.
    injection Hrun3 as <-. reflexivity.
  - rewrite length_app, Hlen. reflexivity.
Defined.

(** ** The title, in general *)

Lemma lstrip_suffix (p : char -> bool) (s : pystr) :
  exists pre, s = pre ++ PyStr.lstrip p s.
Proof.
  induction s as [|c s [pre IH]]; [exists []; reflexivity|].
  cbn [PyStr.lstrip]. destruct (p c).
  - exists (c :: pre). cbn [app]. rewrite <- IH. reflexivity.
  - exists []. reflexivity.
Qed.

Lemma lstrip_head (p : char -> bool) (s : pystr) (c : char) :
  hd_error (PyStr.lstrip p s) = Some c -> p c = false.
Proof.
  induction s as [|d s IH]; [discriminate|].
  cbn [PyStr.lstrip]. destruct (p d) eqn:E; [exact IH|].
  cbn [hd_error]. intros [= <-]. exact E.
Qed.

Lemma rstrip_prefix (p : char -> bool) (s : pystr) :
  exists suf, s = PyStr.rstrip p s ++ suf.
Proof.
  unfold PyStr.rstrip. destruct (lstrip_suffix p (rev s)) as [pre E].
  exists (rev pre). rewrite <- rev_app_distr, <- E, rev_involutive.
  reflexivity.
Qed.

Lemma rstrip_last (p : char -> bool) (s : pystr) (c : char) :
  hd_error (rev (PyStr.rstrip p s)) = Some c -> p c = false.
Proof.
  unfold PyStr.rstrip. rewrite rev_involutive. apply lstrip_head.
Qed.

Lemma strip_head (p : char -> bool) (s : pystr) (c : char) :
  hd_error (PyStr.strip p s) = Some c -> p c = false.
Proof.
  unfold PyStr.strip. destruct (rstrip_prefix p (PyStr.lstrip p s)) as [suf E].
  intros H. apply (lstrip_head p s). rewrite E.
  destruct (PyStr.rstrip p (PyStr.lstrip p s)); [discriminate|exact H].
Qed.

Lemma strip_occurs (p : char -> bool) (s : pystr) :
  occurs_in (PyStr.strip p s) s.
Proof.
  unfold PyStr.strip. destruct (lstrip_suffix p s) as [pre E].
  destruct (rstrip_prefix p (PyStr.lstrip p s)) as [suf E'].
  exists pre, suf. rewrite <- E'. exact E.
Qed.

Section TitleMore.
Context {db : UnicodeDB} {gw : Gateway}.

Lemma trimmed_unquoted (text : pystr) (c : char) :
  hd_error (trimmed text) = Some c \/ hd_error (rev (trimmed text)) = Some c ->
  is_quote c = false.
Proof.
  unfold trimmed. intros [H|H]; [apply strip_head in H; exact H|].
  unfold PyStr.strip in H. apply rstrip_last in H. exact H.
Qed.

(** X14.  Every title made from a generated text is at most 50 characters
    long and has no quote character at either end, whatever the text; a
    title shorter than 50 characters is a part of the generated text. *)
Theorem title_is_short_and_unquoted (user_query : pystr) (tr : list Call)
        (r : Response) (text : pystr) :
  outcome tr (title_call user_query) = Some r ->
  content r = Some text ->
  exists title,
    generate_conversation_title user_query tr
    = (Ok title, tr ++ [title_call user_query]) /\
    (length title <= 50)%nat /\
    (forall c, hd_error title = Some c -> is_quote c = false) /\
    (forall c, hd_error (rev title) = Some c -> is_quote c = false) /\
    ((length title < 50)%nat -> occurs_in title text).
Proof.
  intros Hr Hc. exists (clean_title text).
  split; [rewrite generate_conversation_title_run, Hr, Hc; reflexivity|].
  unfold clean_title. fold (trimmed text).
  destruct (Nat.ltb_spec 50 (length (trimmed text))) as [Hlong|Hshort].
  - change (PyStr.str "...") with [46%N; 46%N; 46%N].
    assert (L : length (firstn 47 (trimmed text) ++ [46%N; 46%N; 46%N])
                = 50%nat).
    { rewrite length_app, length_firstn. cbn [length]. lia. }
    split; [lia|]. split; [|split].
    + intros c H. apply (trimmed_unquoted text). left.
      destruct (trimmed text) as [|d t]; [cbn [length] in Hlong; lia|].
      exact H.
    + intros c. rewrite rev_app_distr. cbn [rev app hd_error].
      intros [= <-]. reflexivity.
    + lia.
  - split; [exact Hshort|]. split; [|split].
    + intros c H. apply (trimmed_unquoted text). left. exact H.
    + intros c H. apply (trimmed_unquoted text). right. exact H.
    + intros _. unfold trimmed.
      eapply occurs_in_trans; apply strip_occurs.
Qed.

End TitleMore.

Lemma title_is_short_and_unquoted_witness :
  exists title,
    @generate_conversation_title unicode14 (gateway_saying long_title)
      query_2_plus_2 []
    = (Ok title, [title_call query_2_plus_2]) /\
    (length title <= 50)%nat /\
    (forall c, hd_error title = Some c -> is_quote c = false).
Proof.
  destruct (@title_is_short_and_unquoted unicode14 (gateway_saying long_title)
              query_2_plus_2 []
              {| content := Some long_title; reasoning_details := None |}
              long_title eq_refl eq_refl)
    as (title & Hrun & Hlen & Hhead & _).
  exists title. split; [exact Hrun|]. split; [exact Hlen|exact Hhead].
Defined.

(** ** Examples for the parser and for stage 2 *)

Lemma parse_without_response_is_empty_witness :
  PyStr.contains Re.LABEL_PREFIX (PyStr.str "FINAL RANKING: B, then A") = false /\
  @parse_ranking_from_text unicode14 (PyStr.str "FINAL RANKING: B, then A")
  = Ok [].
Proof.
  split; [reflexivity|].
  apply (@parse_without_response_is_empty unicode14
           (PyStr.str "FINAL RANKING: B, then A")).
  reflexivity.
Defined.

Lemma parse_ignores_preamble_witness :
  PyStr.find MARKER ranking_example = Some 10%nat /\
  @parse_ranking_from_text unicode14 ranking_example
  = @parse_ranking_from_text unicode14 (skipn 10 ranking_example).
Proof.
  split; [reflexivity|].
  apply (@parse_ignores_preamble unicode14 ranking_example 10).
  reflexivity.
Defined.

Lemma parse_formatted_ranking_witness :
  @parse_ranking_from_text unicode14
    (formatted_ranking [(PyStr.str "7", response_label 66);
                        (PyStr.str "7", response_label 65)])
  = Ok [response_label 66; response_label 65].
Proof.
  apply (@parse_formatted_ranking unicode14 unicode14_ascii
           [(PyStr.str "7", response_label 66);
            (PyStr.str "7", response_label 65)]).
  repeat constructor; try discriminate.
  - exists 66%N. split; [vm_compute; split; discriminate|reflexivity].
  - exists 65%N. split; [vm_compute; split; discriminate|reflexivity].
Defined.

Lemma stage2_does_not_see_the_models_witness :
  map s1_response answers_xy = map s1_response answers_yx /\
  make_responses_text answers_xy = make_responses_text answers_yx /\
  snd (@stage2_collect_rankings unicode14 gateway_xyz config_xyz
         query_2_plus_2 answers_xy trace_stage1)
  = snd (@stage2_collect_rankings unicode14 gateway_xyz config_xyz
           query_2_plus_2 answers_yx trace_stage1).
Proof.
  split; [reflexivity|].
  destruct (@stage2_does_not_see_the_models unicode14 gateway_xyz config_xyz
              query_2_plus_2 answers_xy answers_yx trace_stage1 eq_refl)
    as (Htext & Htrace & _).
  split; [exact Htext|exact Htrace].
Defined.

Lemma stage2_asks_the_whole_roster_witness :
  exists records tr2,
    @stage2_collect_rankings unicode14 gateway_xyz config_xyz
      query_2_plus_2 answers_xy trace_stage1
    = (Ok (records, make_label_to_model answers_xy), tr2) /\
    map s2_model records = [model_X; model_Y] /\
    length tr2 = 6%nat.
Proof.
  destruct (@stage2_asks_the_whole_roster unicode14 gateway_xyz config_xyz
              unicode14_ascii query_2_plus_2 answers_xy trace_stage1)
    as (responses & Hq & Htr & _ & Hok).
  assert (E : responses
              = [(model_X, text_response ranking_of_X);
                 (model_Y, text_response ranking_of_Y);
                 (model_Z, None)]).
  { vm_compute in Hq. injection Hq as <-. reflexivity. }
  subst responses.
  destruct (Hok eq_refl) as (records & Hrun & Hmodels & _).
  exists records. eexists.
  split; [apply injective_projections; [exact Hrun|exact Htr]|].
  split; [exact Hmodels|]. reflexivity.
Defined.

(** ** The message endpoint *)

Section MainFacts.
Context {db : UnicodeDB} {gw : Gateway} {cfg : Config} {st : Storage}.

Lemma send_message_returns
        (conversation_id text : pystr) (w w' : World)
        (stage1_results : list Stage1Result)
        (stage2_results : list Stage2Result)
        (stage3_result : Stage3Result) (metadata : Metadata) :
  send_message conversation_id text w
  = (inl (stage1_results, stage2_results, stage3_result, metadata), w') ->
  exists conversation tr title_calls,
    storage_outcome (requests w) (storage_calls w)
                    (get_conversation conversation_id)
    = Returned (Some conversation) /\
    run_full_council text tr
    = (Ok (stage1_results, stage2_results, stage3_result, metadata),
       requests w') /\
    storage_calls w'
    = storage_calls w
      ++ [get_conversation conversation_id;
          add_user_message conversation_id text]
      ++ title_calls
      ++ [add_assistant_message conversation_id stage1_results
            stage2_results stage3_result] /\
    match conv_messages conversation with
    | [] =>
      exists title,
        generate_conversation_title text (requests w) = (Ok title, tr) /\
        tr = requests w ++ [title_call text] /\
        title_calls = [update_conversation_title conversation_id title]
    | _ :: _ => tr = requests w /\ title_calls = []
    end.
Proof.
  unfold send_message, ebind, storage, await, eret, eraise.
  destruct (storage_outcome (requests w) (storage_calls w)
              (get_conversation conversation_id))
    as [[conversation|]|] eqn:Hget; try discriminate.
  cbv beta iota zeta. cbn [requests storage_calls].
  destruct (storage_outcome _ _ (add_user_message conversation_id text))
    as [c1|] eqn:Hadd; try discriminate.
  cbv beta iota zeta. cbn [requests storage_calls].
  destruct (conv_messages conversation) as [|m ms] eqn:Hm; cbn [length Nat.eqb];
    cbv beta iota zeta; cbn [requests storage_calls].
  - destruct (generate_conversation_title text (requests w))
      as [[title|e] tr] eqn:Htitle; cbv beta iota zeta;
      cbn [requests storage_calls]; try discriminate.
    destruct (storage_outcome _ _ (update_conversation_title _ _))
      as [c2|] eqn:Hupd; try discriminate.
    cbv beta iota zeta. cbn [requests storage_calls].
    destruct (run_full_council text tr) as [[[[[s1 s2] s3] md]|e] tr']
      eqn:Hrun; cbv beta iota zeta; cbn [requests storage_calls];
      try discriminate.
    destruct (storage_outcome _ _ (add_assistant_message _ _ _ _))
      as [c3|] eqn:Hsave; try discriminate.
    intros [= <- <- <- <- <-]. cbn [requests storage_calls].
    exists conversation, tr, [update_conversation_title conversation_id title].
    rewrite Hm. split; [reflexivity|]. split; [exact Hrun|].
    split; [rewrite <- !app_assoc; reflexivity|].
    exists title. split; [reflexivity|]. split; [|reflexivity].
    rewrite generate_conversation_title_run in Htitle.
    injection Htitle as _ <-. reflexivity.
  - destruct (run_full_council text (requests w))
      as [[[[[s1 s2] s3] md]|e] tr'] eqn:Hrun; cbv beta iota zeta;
      cbn [requests storage_calls]; try discriminate.
    destruct (storage_outcome _ _ (add_assistant_message _ _ _ _))
      as [c3|] eqn:Hsave; try discriminate.
    intros [= <- <- <- <- <-]. cbn [requests storage_calls].
    exists conversation, (requests w), [].
    rewrite Hm. split; [reflexivity|]. split; [exact Hrun|].
    split; [rewrite <- !app_assoc; reflexivity|].
    split; reflexivity.
Qed.


(** X15.  When the message endpoint returns, the conversation was found,
    the user message was stored first, and the assistant message stored
    last holds the three stage results that are returned, which are those
    of the pipeline; the metadata is returned and not stored.  For the
    first message of a conversation the title is requested before the
    pipeline runs and is stored before the pipeline runs; otherwise no
    title is requested. *)
Theorem send_message_stores_what_it_returns
        (conversation_id text : pystr) (w w' : World)
        (stage1_results : list Stage1Result)
        (stage2_results : list Stage2Result)
        (stage3_result : Stage3Result) (metadata : Metadata) :
  send_message conversation_id text w
  = (inl (stage1_results, stage2_results, stage3_result, metadata), w') ->
  exists conversation tr title_calls,
    storage_outcome (requests w) (storage_calls w)
                    (get_conversation conversation_id)
    = Returned (Some conversation) /\
    run_full_council text tr
    = (Ok (stage1_results, stage2_results, stage3_result, metadata),
       requests w') /\
    storage_calls w'
    = storage_calls w
      ++ [get_conversation conversation_id;
          add_user_message conversation_id text]
      ++ title_calls
      ++ [add_assistant_message conversation_id stage1_results
            stage2_results stage3_result] /\
    match conv_messages conversation with
    | [] =>
      exists title,
        generate_conversation_title text (requests w) = (Ok title, tr) /\
        tr = requests w ++ [title_call text] /\
        title_calls = [update_conversation_title conversation_id title]
    | _ :: _ => tr = requests w /\ title_calls = []
    end.
Proof.
  apply send_message_returns.
Qed.

(** X16.  When the title or the pipeline raises, the endpoint raises the
    same exception, after the user message was stored and with no
    assistant message stored; and it raises an exception of the core in
    these cases only.  In full: the conversation being found and the user
    message stored, for a first message the title raises, and then the
    title request is the only request made and the pipeline has not run,
    or the title is stored and the pipeline raises; for a later message
    the pipeline raises.  The requests made are those of the computation
    that raised, and the storage calls end with the user message or with
    the title. *)
Theorem send_message_uncaught (conversation_id text : pystr) (w w' : World)
        (e : PyExn) :
  (exists conversation c1,
     storage_outcome (requests w) (storage_calls w)
                     (get_conversation conversation_id)
     = Returned (Some conversation) /\
     storage_outcome (requests w)
                     (storage_calls w ++ [get_conversation conversation_id])
                     (add_user_message conversation_id text)
     = Returned c1 /\
     let stored :=
       storage_calls w
       ++ [get_conversation conversation_id;
           add_user_message conversation_id text] in
     match conv_messages conversation with
     | [] =>
       (generate_conversation_title text (requests w)
        = (Raise e, requests w ++ [title_call text]) /\
        w' = {| requests := requests w ++ [title_call text];
                storage_calls := stored |}) \/
       (exists title c2 tr',
          generate_conversation_title text (requests w)
          = (Ok title, requests w ++ [title_call text]) /\
          storage_outcome (requests w ++ [title_call text]) stored
            (update_conversation_title conversation_id title)
          = Returned c2 /\
          run_full_council text (requests w ++ [title_call text])
          = (Raise e, tr') /\
          w' = {| requests := tr';
                  storage_calls :=
                    stored
                    ++ [update_conversation_title conversation_id title] |})
     | _ :: _ =>
       exists tr',
         run_full_council text (requests w) = (Raise e, tr') /\
         w' = {| requests := tr'; storage_calls := stored |}
     end)
  <-> send_message conversation_id text w = (inr (Uncaught e), w').
Proof.
  assert (Htr : snd (generate_conversation_title text (requests w))
                = requests w ++ [title_call text])
    by (rewrite generate_conversation_title_run; reflexivity).
  split.
  - intros (conversation & c1 & Hget & Hadd & Hcase). cbv zeta in Hcase.
    unfold send_message, ebind, storage, await, eret, eraise.
    rewrite Hget. cbv beta iota zeta. cbn [requests storage_calls].
    rewrite Hadd. cbv beta iota zeta. cbn [requests storage_calls].
    rewrite <- !app_assoc. cbn [app].
    destruct (conv_messages conversation) as [|m ms];
      cbn [length Nat.eqb]; cbv beta iota zeta; cbn [requests storage_calls].
    + destruct Hcase as [(Htitle & ->)|(title & c2 & tr' & Htitle & Hupd
                                         & Hrun & ->)];
        rewrite Htitle; cbv beta iota zeta; cbn [requests storage_calls];
        [reflexivity|].
      rewrite Hupd. cbv beta iota zeta. cbn [requests storage_calls].
      rewrite Hrun. cbv beta iota zeta. cbn [requests storage_calls].
      rewrite <- !app_assoc. reflexivity.
    + destruct Hcase as (tr' & Hrun & ->).
      rewrite Hrun. reflexivity.
  - unfold send_message, ebind, storage, await, eret, eraise.
    destruct (storage_outcome (requests w) (storage_calls w)
                (get_conversation conversation_id))
      as [[conversation|]|] eqn:Hget; try discriminate.
    cbv beta iota zeta. cbn [requests storage_calls].
    destruct (storage_outcome _ _ (add_user_message conversation_id text))
      as [c1|] eqn:Hadd; try discriminate.
    cbv beta iota zeta. cbn [requests storage_calls].
    intros H. exists conversation, c1. split; [reflexivity|].
    split; [reflexivity|]. cbv zeta. revert H.
    rewrite <- !app_assoc. cbn [app].
    destruct (conv_messages conversation) as [|m ms];
      cbn [length Nat.eqb]; cbv beta iota zeta; cbn [requests storage_calls].
    + destruct (generate_conversation_title text (requests w))
        as [[title|e'] tr] eqn:Htitle; cbv beta iota zeta;
        cbn [requests storage_calls]; cbn [snd] in Htr; subst tr.
      * destruct (storage_outcome _ _ (update_conversation_title _ _))
          as [c2|] eqn:Hupd; try discriminate.
        cbv beta iota zeta. cbn [requests storage_calls].
        destruct (run_full_council text _) as [[[[[s1 s2] s3] md]|e'] tr']
          eqn:Hrun; cbv beta iota zeta; cbn [requests storage_calls].
        -- destruct (storage_outcome _ _ (add_assistant_message _ _ _ _));
             discriminate.
        -- intros [= <- <-]. right. exists title, c2, tr'.
           split; [reflexivity|]. split; [exact Hupd|].
           split; [reflexivity|]. rewrite <- !app_assoc. reflexivity.
      * intros [= <- <-]. left. split; reflexivity.
    + destruct (run_full_council text (requests w))
        as [[[[[s1 s2] s3] md]|e'] tr'] eqn:Hrun; cbv beta iota zeta;
        cbn [requests storage_calls].
      * destruct (storage_outcome _ _ (add_assistant_message _ _ _ _));
          discriminate.
      * intros [= <- <-]. exists tr'. split; reflexivity.
Qed.

(** X17.  A conversation that storage does not hold gives the status 404
    and nothing else happens: no request is made and nothing is stored.
    The endpoint raises an HTTP exception in no other case. *)
Theorem send_message_unknown_conversation (conversation_id text : pystr)
        (w : World) :
  let found :=
    storage_outcome (requests w) (storage_calls w)
                    (get_conversation conversation_id) in
  (found = Returned None ->
   send_message conversation_id text w
   = (inr (HTTPException 404),
      {| requests := requests w;
         storage_calls :=
           storage_calls w ++ [get_conversation conversation_id] |})) /\
  (forall status_code w',
     send_message conversation_id text w
     = (inr (HTTPException status_code), w') ->
     found = Returned None).
Proof.
  cbv zeta. split.
  - intros H. unfold send_message, ebind, storage, eraise. rewrite H.
    reflexivity.
  - intros status_code w'.
    unfold send_message, ebind, storage, await, eret, eraise.
    destruct (storage_outcome (requests w) (storage_calls w)
                (get_conversation conversation_id))
      as [[conversation|]|] eqn:Hget; try discriminate; [|reflexivity].
    cbv beta iota zeta. cbn [requests storage_calls].
    destruct (storage_outcome _ _ (add_user_message conversation_id text))
      as [c1|] eqn:Hadd; try discriminate.
    cbv beta iota zeta. cbn [requests storage_calls].
    destruct (conv_messages conversation) as [|m ms] eqn:Hm;
      cbn [length Nat.eqb]; cbv beta iota zeta; cbn [requests storage_calls].
    + destruct (generate_conversation_title text (requests w))
        as [[title|e'] tr] eqn:Htitle; cbv beta iota zeta;
        cbn [requests storage_calls]; try discriminate.
      destruct (storage_outcome _ _ (update_conversation_title _ _))
        as [c2|] eqn:Hupd; try discriminate.
      cbv beta iota zeta. cbn [requests storage_calls].
      destruct (run_full_council text tr) as [[[[[s1 s2] s3] md]|e'] tr']
        eqn:Hrun; cbv beta iota zeta; cbn [requests storage_calls];
        try discriminate.
      destruct (storage_outcome _ _ (add_assistant_message _ _ _ _));
        discriminate.
    + destruct (run_full_council text (requests w))
        as [[[[[s1 s2] s3] md]|e'] tr'] eqn:Hrun; cbv beta iota zeta;
        cbn [requests storage_calls]; try discriminate.
      destruct (storage_outcome _ _ (add_assistant_message _ _ _ _));
        discriminate.
Qed.

End MainFacts.

Lemma send_message_stores_what_it_returns_witness :
  exists stage1_results stage2_results stage3_result metadata w',
    @send_message unicode14 (gateway_saying (PyStr.str "4")) config_xyz
      (storage_holding new_conversation) conversation_id_1 query_2_plus_2
      world_0
    = (inl (stage1_results, stage2_results, stage3_result, metadata), w') /\
    storage_calls w'
    = [get_conversation conversation_id_1;
       add_user_message conversation_id_1 query_2_plus_2;
       update_conversation_title conversation_id_1 (PyStr.str "4");
       add_assistant_message conversation_id_1 stage1_results stage2_results
         stage3_result] /\
    length (requests w') = 8%nat.
Proof.
  destruct (@send_message unicode14 (gateway_saying (PyStr.str "4")) config_xyz
              (storage_holding new_conversation) conversation_id_1
              query_2_plus_2 world_0)
    as [[[[[s1 s2] s3] md]|e] w'] eqn:H.
  - exists s1, s2, s3, md, w'. split; [reflexivity|].
    destruct (@send_message_stores_what_it_returns unicode14
                (gateway_saying (PyStr.str "4")) config_xyz
                (storage_holding new_conversation) conversation_id_1
                query_2_plus_2 world_0 w' s1 s2 s3 md H)
      as (conversation & tr & title_calls & Hget & Hrun & Hcalls & Htitle).
    injection Hget as <-. cbn [conv_messages new_conversation] in Htitle.
    destruct Htitle as (title & Ht & -> & ->).
    vm_compute in Ht. injection Ht as <-.
    split; [exact Hcalls|].
    vm_compute in H. injection H as _ _ _ _ <-. reflexivity.
  - vm_compute in H. discriminate H.
Defined.

Lemma send_message_uncaught_example :
  @send_message unicode14 gateway_null config_xyz
    (storage_holding new_conversation) conversation_id_1 query_2_plus_2
    world_0
  = (inr (Uncaught AttributeError),
     {| requests := [title_call query_2_plus_2];
        storage_calls :=
          [get_conversation conversation_id_1;
           add_user_message conversation_id_1 query_2_plus_2] |}).
Proof.
  apply (@send_message_uncaught unicode14 gateway_null config_xyz
           (storage_holding new_conversation) conversation_id_1
           query_2_plus_2 world_0).
  exists new_conversation, (Some new_conversation).
  split; [reflexivity|]. split; [reflexivity|].
  left. split; reflexivity.
Defined.

(** ** The path of a conversation *)

Lemma get_conversation_path_cases (conversation_id : pystr) :
  StoragePy.get_conversation_path conversation_id
  = if PyStr.starts_with (PyStr.str "/") conversation_id
    then conversation_id ++ PyStr.str ".json"
    else StoragePy.DATA_DIR ++ PyStr.str "/" ++ conversation_id
         ++ PyStr.str ".json".
Proof.
  unfold StoragePy.get_conversation_path, StoragePy.path_join.
  destruct conversation_id as [|c rest]; reflexivity.
Qed.

Lemma get_conversation_path_inj (a b : pystr) :
  StoragePy.get_conversation_path a = StoragePy.get_conversation_path b ->
  a = b.
Proof.
  rewrite !get_conversation_path_cases.
  destruct (PyStr.starts_with (PyStr.str "/") a) eqn:Ha,
           (PyStr.starts_with (PyStr.str "/") b) eqn:Hb; intros E.
  - apply app_inv_tail in E. exact E.
  - destruct a as [|c a]; [discriminate Ha|].
    cbn in Ha. cbn in E. injection E as -> _. discriminate Ha.
  - destruct b as [|c b]; [discriminate Hb|].
    cbn in Hb. cbn in E. injection E as <- _. discriminate Hb.
  - apply app_inv_head in E. apply app_inv_head in E.
    apply app_inv_tail in E. exact E.
Qed.

(** X18.  Two conversations have the same file exactly when they have the
    same id. *)
Theorem conversation_files_are_distinct (a b : pystr) :
  StoragePy.get_conversation_path a = StoragePy.get_conversation_path b
  <-> a = b.
Proof.
  split; [apply get_conversation_path_inj|intros ->; reflexivity].
Qed.
